(** * terraform_tui: the configuration block locator of [terraform.py]

    A shallow embedding of the text-level core of [terraform.py]:
    [extract_fallback_structure], [extract_block_content] and the commit step
    of [edit_block_content], together with the part of Python's [str] and
    [re] libraries these functions call; and of what the views and the keys
    of [main] compute from the loaded data: the labels of the block column,
    the wrapping of the content column, the selection and the scroll offsets,
    [parse_terraform_files], [list_terraform_workspaces] and
    [save_block_to_file].

    Texts are Python [str] values over the code points 0..255, written as
    lists of [ascii].  Exceptions are explicit: a computation either returns,
    raises, or leaves the pattern syntax covered by the model of [re]. *)

From stdpp Require Import gmap strings list.
From Stdlib Require Import Ascii.

Local Open Scope nat_scope.
Local Open Scope list_scope.

(** ** Python [str] *)

Module Py.

Abbreviation str := (list ascii).

(** A string literal.  A backquote in the literal stands for the double
    quote character, so that the patterns of the source can be written on
    one line. *)
Definition unquote (c : ascii) : ascii :=
  if Ascii.eqb c "`" then ascii_of_nat 34 else c.

Definition lit (s : string) : str := map unquote (String.list_ascii_of_string s).

Definition nl : ascii := ascii_of_nat 10.
Definition dquote : ascii := ascii_of_nat 34.

Definition code (c : ascii) : nat := nat_of_ascii c.

Definition between (lo hi n : nat) : bool := (lo <=? n) && (n <=? hi).

(** [str.isspace] on one character (also the class [\s] of [re]). *)
Definition isspace (c : ascii) : bool :=
  let n := code c in
  between 9 13 n || between 28 32 n || (n =? 133) || (n =? 160).

(** Decimal digits (the class [\d]). *)
Definition isdecimal (c : ascii) : bool := between 48 57 (code c).

(** [str.isalnum] on one character. *)
Definition isalnum (c : ascii) : bool :=
  let n := code c in
  between 48 57 n || between 65 90 n || between 97 122 n
  || (n =? 170) || (n =? 178) || (n =? 179) || (n =? 181) || (n =? 185)
  || (n =? 186) || between 188 190 n || between 192 214 n
  || between 216 246 n || between 248 255 n.

(** The class [\w]. *)
Definition isword (c : ascii) : bool := isalnum c || Ascii.eqb c "_".

Definition ascii_letter (c : ascii) : bool :=
  let n := code c in between 65 90 n || between 97 122 n.

Fixpoint eqb (a b : str) : bool :=
  match a, b with
  | [], [] => true
  | x :: a', y :: b' => Ascii.eqb x y && eqb a' b'
  | _, _ => false
  end.

(** [s.startswith(p)] *)
Fixpoint startswith (p s : str) : bool :=
  match p, s with
  | [], _ => true
  | x :: p', y :: s' => Ascii.eqb x y && startswith p' s'
  | _ :: _, [] => false
  end.

(** [s.find(p, i)]: the lowest index [>= i] where [p] occurs.  [find_go]
    walks over the text from offset [i]. *)
Fixpoint find_go (p s : str) (i : nat) : option nat :=
  if startswith p s then Some i
  else match s with
       | [] => None
       | _ :: s' => find_go p s' (S i)
       end.

Definition find (p s : str) (i : nat) : option nat := find_go p (drop i s) i.

(** [p in s] *)
Definition contains (p s : str) : bool :=
  match find p s 0 with Some _ => true | None => false end.

(** [s.rfind(c, 0, e)] for a one-character [c]: the highest index below
    [e] that holds [c]. *)
Fixpoint rfind_go (c : ascii) (s : str) (i : nat) (acc : option nat) : option nat :=
  match s with
  | [] => acc
  | x :: s' => rfind_go c s' (S i) (if Ascii.eqb x c then Some i else acc)
  end.

Definition rfind_char (c : ascii) (s : str) (e : nat) : option nat :=
  rfind_go c (take e s) 0 None.

(** [s[a:b]] for [0 <= a], [0 <= b] *)
Definition slice (s : str) (a b : nat) : str := take (b - a) (drop a s).

Fixpoint lstrip (s : str) : str :=
  match s with
  | c :: s' => if isspace c then lstrip s' else s
  | [] => []
  end.

Definition rstrip (s : str) : str := rev (lstrip (rev s)).

(** [s.strip()] *)
Definition strip (s : str) : str := rstrip (lstrip s).

(** The maximal run of non-space characters at the head of [s]. *)
Fixpoint word (s : str) : str :=
  match s with
  | c :: s' => if isspace c then [] else c :: word s'
  | [] => []
  end.

(** [s.split()[0]]; [None] is the [IndexError] raised when [s] holds no
    word. *)
Definition split_first (s : str) : option str :=
  match lstrip s with
  | [] => None
  | t => Some (word t)
  end.

(** [s.replace(old, new)]: every non-overlapping occurrence of [old], from
    the left.  [skip] counts the characters of an occurrence that is being
    passed over.  For an empty [old], [new] is put before every character
    and at the end. *)
Fixpoint replace_go (old new : str) (skip : nat) (s : str) : str :=
  match s with
  | [] => []
  | c :: s' =>
      match skip with
      | S n => replace_go old new n s'
      | 0 =>
          if startswith old s
          then new ++ replace_go old new (length old - 1) s'
          else c :: replace_go old new 0 s'
      end
  end.

Fixpoint intersperse (new : str) (s : str) : str :=
  match s with
  | [] => new
  | c :: s' => new ++ c :: intersperse new s'
  end.

Definition replace (s old new : str) : str :=
  match old with
  | [] => intersperse new s
  | _ => replace_go old new 0 s
  end.

End Py.

Import Py.

(** ** Outcomes of a Python computation *)

Inductive exn :=
| re_error (msg : string)      (* [re.error], raised when a pattern is compiled *)
| IndexError.

Inductive outcome (A : Type) :=
| Ret (a : A)                  (* the call returns [a] *)
| Raise (e : exn)              (* the call raises [e] *)
| Beyond.                      (* a pattern uses syntax that the model of [re] leaves out *)

Arguments Ret {A} a.
Arguments Raise {A} e.
Arguments Beyond {A}.

Definition bind {A B : Type} (x : outcome A) (f : A -> outcome B) : outcome B :=
  match x with
  | Ret a => f a
  | Raise e => Raise e
  | Beyond => Beyond
  end.

Notation "x <- e1 ;; e2" := (bind e1 (fun x => e2))
  (at level 100, e1 at next level, right associativity).

(** ** Python [re]: pattern syntax trees and the backtracking matcher *)

Module Re.

Inductive category := CatSpace | CatWord | CatDigit.

(** The members of a character set [[...]]. *)
Inductive citem :=
| CLit (c : ascii)
| CRange (lo hi : ascii)
| CCat (cat : category) (positive : bool).

Inductive regex :=
| Eps
| Lit (c : ascii)
| In (negate : bool) (items : list citem)
| Any (dotall : bool)
| Bol (multiline : bool)
| Eol (multiline : bool)
| Seq (r1 r2 : regex)
| Alt (r1 r2 : regex)
| Star (greedy : bool) (r : regex)
| Plus (greedy : bool) (r : regex)
| Opt (greedy : bool) (r : regex)
| Group (n : nat) (r : regex).

Definition in_category (cat : category) (c : ascii) : bool :=
  match cat with
  | CatSpace => isspace c
  | CatWord => isword c
  | CatDigit => isdecimal c
  end.

Definition in_item (c : ascii) (it : citem) : bool :=
  match it with
  | CLit x => Ascii.eqb c x
  | CRange lo hi => between (code lo) (code hi) (code c)
  | CCat cat positive => Bool.eqb (in_category cat c) positive
  end.

Definition in_set (negate : bool) (items : list citem) (c : ascii) : bool :=
  xorb negate (existsb (in_item c) items).

(** The spans of the capturing groups, the latest first. *)
Definition caps := list (nat * (nat * nat)).

Fixpoint cap_lookup (n : nat) (c : caps) : option (nat * nat) :=
  match c with
  | [] => None
  | (k, sp) :: c' => if k =? n then Some sp else cap_lookup n c'
  end.

Section Matcher.

Variable s : str.

Definition at_bol (multiline : bool) (i : nat) : bool :=
  match i with
  | 0 => true
  | S p => multiline &&
           match s !! p with Some c => Ascii.eqb c nl | None => false end
  end.

Definition at_eol (multiline : bool) (i : nat) : bool :=
  match s !! i with
  | None => length s =? i
  | Some c => Ascii.eqb c nl && (multiline || (length s =? S i))
  end.

Definition step_char (p : ascii -> bool) (i : nat) : option nat :=
  match s !! i with
  | Some c => if p c then Some (S i) else None
  | None => None
  end.

Definition cont := nat -> caps -> option (nat * caps).

(** The loop of a repetition whose body is matched by [body]: an
    iteration that consumed nothing is given up, so [fuel] iterations
    cover a text with fewer than [fuel] characters left. *)
Fixpoint rep (body : nat -> caps -> cont -> option (nat * caps))
    (greedy : bool) (k : cont) (fuel : nat) (i : nat) (c : caps)
    : option (nat * caps) :=
  match fuel with
  | 0 => k i c
  | S fuel' =>
      let again := fun j c' => if i <? j then rep body greedy k fuel' j c' else None in
      if greedy then
        match body i c again with
        | Some res => Some res
        | None => k i c
        end
      else
        match k i c with
        | Some res => Some res
        | None => body i c again
        end
  end.

(** [m r i c k]: match [r] at offset [i] with the groups [c], then go on
    with [k]; on failure the matcher backtracks into the most recent
    choice. *)
Fixpoint m (r : regex) (i : nat) (c : caps) (k : cont) : option (nat * caps) :=
  match r with
  | Eps => k i c
  | Lit x =>
      match step_char (Ascii.eqb x) i with Some j => k j c | None => None end
  | In negate items =>
      match step_char (in_set negate items) i with Some j => k j c | None => None end
  | Any dotall =>
      match step_char (fun x => dotall || negb (Ascii.eqb x nl)) i with
      | Some j => k j c
      | None => None
      end
  | Bol multiline => if at_bol multiline i then k i c else None
  | Eol multiline => if at_eol multiline i then k i c else None
  | Seq r1 r2 => m r1 i c (fun j c' => m r2 j c' k)
  | Alt r1 r2 =>
      match m r1 i c k with
      | Some res => Some res
      | None => m r2 i c k
      end
  | Star greedy r1 => rep (m r1) greedy k (S (length s - i)) i c
  | Plus greedy r1 =>
      m r1 i c (fun j c' => rep (m r1) greedy k (S (length s - j)) j c')
  | Opt greedy r1 =>
      if greedy then
        match m r1 i c k with
        | Some res => Some res
        | None => k i c
        end
      else
        match k i c with
        | Some res => Some res
        | None => m r1 i c k
        end
  | Group n r1 => m r1 i c (fun j c' => k j ((n, (i, j)) :: c'))
  end.

(** A match object: [start()], [end()] and the group spans. *)
Record rmatch := { m_start : nat; m_end : nat; m_caps : caps }.

(** One attempt at offset [i].  With [must_advance] an empty match is
    refused, as after an empty match of [finditer]. *)
Definition match_at (r : regex) (must_advance : bool) (i : nat) : option rmatch :=
  match m r i [] (fun j c => if must_advance && (j =? i) then None else Some (j, c)) with
  | Some (j, c) => Some {| m_start := i; m_end := j; m_caps := c |}
  | None => None
  end.

(** The leftmost match at or after [i]; [n] is the number of further
    offsets to try. *)
Fixpoint search_go (r : regex) (must_advance : bool) (n : nat) (i : nat) : option rmatch :=
  match match_at r must_advance i with
  | Some res => Some res
  | None =>
      match n with
      | 0 => None
      | S n' => search_go r false n' (S i)
      end
  end.

Definition search_from (r : regex) (must_advance : bool) (i : nat) : option rmatch :=
  if i <=? length s then search_go r must_advance (length s - i) i else None.

(** [re.search] on a compiled pattern. *)
Definition search (r : regex) : option rmatch := search_from r false 0.

(** [re.finditer]: the successive non-overlapping matches.  After an
    empty match the next attempt at the same offset must consume. *)
Fixpoint finditer_go (r : regex) (fuel : nat) (must_advance : bool) (i : nat) : list rmatch :=
  match fuel with
  | 0 => []
  | S fuel' =>
      match search_from r must_advance i with
      | None => []
      | Some res =>
          res :: finditer_go r fuel' (m_end res =? m_start res) (m_end res)
      end
  end.

Definition finditer (r : regex) : list rmatch :=
  finditer_go r (2 * length s + 2) false 0.

(** [match.group(0)] *)
Definition group0 (mt : rmatch) : str := slice s (m_start mt) (m_end mt).

(** [match.group(n)]; [None] for a group that took no part. *)
Definition group (mt : rmatch) (n : nat) : option str :=
  match cap_lookup n (m_caps mt) with
  | Some (a, b) => Some (slice s a b)
  | None => None
  end.

End Matcher.

(** The number of capturing groups of a pattern. *)
Fixpoint ngroups (r : regex) : nat :=
  match r with
  | Seq r1 r2 | Alt r1 r2 => ngroups r1 + ngroups r2
  | Star _ r1 | Plus _ r1 | Opt _ r1 => ngroups r1
  | Group _ r1 => S (ngroups r1)
  | _ => 0
  end.

(** [match.groups()] *)
Definition groups (s : str) (r : regex) (mt : rmatch) : list (option str) :=
  map (fun n => group s mt (S n)) (seq 0 (ngroups r)).

(** *** Compiling a pattern

    [compile] follows the parser of [re] over the syntax that the patterns
    of [terraform.py] are written in: literals, [.], [^], [$], the escapes
    of classes and control characters, character sets, capturing and
    [(?:...)] groups, [|], and the repetitions [*], [+], [?] with their lazy
    forms.  A pattern is built by string formatting, so what is spliced
    into it is parsed as pattern text.  Bounded repetition [{m,n}],
    back-references, look-around, flags and numeric escapes are left out:
    a pattern that uses one of them compiles to [Beyond]. *)

Record flags := { multiline : bool; dotall : bool }.

Definition NOFLAG := {| multiline := false; dotall := false |}.
Definition MULTILINE := {| multiline := true; dotall := false |}.
Definition DOTALL := {| multiline := false; dotall := true |}.
Definition MULTILINE_DOTALL := {| multiline := true; dotall := true |}.

(** What the parser remembers of an item: a repetition cannot be repeated,
    an anchor cannot be repeated either. *)
Inductive tag := TPlain | TRepeat | TAt.

(** An open group: the branches closed by [|] and the items of the current
    branch, both latest first. *)
Record frame := {
  f_group : option nat;
  f_alts : list regex;
  f_seq : list (regex * tag)
}.

Inductive mode :=
| MNormal
| MSet (negate : bool) (items : list citem).

Record pstate := {
  p_stack : list frame;
  p_top : frame;
  p_ngroups : nat;
  p_mode : mode
}.

Fixpoint seq_of (l : list regex) : regex :=
  match l with
  | [] => Eps
  | [r] => r
  | r :: l' => Seq r (seq_of l')
  end.

Fixpoint alt_of (l : list regex) : regex :=
  match l with
  | [] => Eps
  | [r] => r
  | r :: l' => Alt r (alt_of l')
  end.

Definition branch_of (f : frame) : regex := seq_of (rev (map fst (f_seq f))).

Definition close_frame (f : frame) : regex :=
  let body := alt_of (rev (branch_of f :: f_alts f)) in
  match f_group f with
  | Some n => Group n body
  | None => body
  end.

Definition empty_frame (g : option nat) : frame :=
  {| f_group := g; f_alts := []; f_seq := [] |}.

Definition push_item (st : pstate) (r : regex) (tg : tag) : pstate :=
  let f := p_top st in
  {| p_stack := p_stack st;
     p_top := {| f_group := f_group f; f_alts := f_alts f; f_seq := (r, tg) :: f_seq f |};
     p_ngroups := p_ngroups st;
     p_mode := MNormal |}.

Definition init : pstate :=
  {| p_stack := []; p_top := empty_frame None; p_ngroups := 0; p_mode := MNormal |}.

Definition control_escape (e : ascii) : option ascii :=
  if Ascii.eqb e "a" then Some (ascii_of_nat 7)
  else if Ascii.eqb e "f" then Some (ascii_of_nat 12)
  else if Ascii.eqb e "n" then Some (ascii_of_nat 10)
  else if Ascii.eqb e "r" then Some (ascii_of_nat 13)
  else if Ascii.eqb e "t" then Some (ascii_of_nat 9)
  else if Ascii.eqb e "v" then Some (ascii_of_nat 11)
  else None.

Definition category_escape (e : ascii) : option citem :=
  if Ascii.eqb e "s" then Some (CCat CatSpace true)
  else if Ascii.eqb e "S" then Some (CCat CatSpace false)
  else if Ascii.eqb e "w" then Some (CCat CatWord true)
  else if Ascii.eqb e "W" then Some (CCat CatWord false)
  else if Ascii.eqb e "d" then Some (CCat CatDigit true)
  else if Ascii.eqb e "D" then Some (CCat CatDigit false)
  else None.

(** Escapes whose meaning the model leaves out: numeric escapes and
    back-references, and outside a set the anchors [\A \b \B \Z]. *)
Definition numeric_escape (e : ascii) : bool :=
  isdecimal e || Ascii.eqb e "x" || Ascii.eqb e "u" || Ascii.eqb e "U" || Ascii.eqb e "N".

Definition anchor_escape (e : ascii) : bool :=
  Ascii.eqb e "A" || Ascii.eqb e "b" || Ascii.eqb e "B" || Ascii.eqb e "Z".

(** An escape [\e] inside a character set. *)
Definition class_escape (e : ascii) : outcome citem :=
  match category_escape e with
  | Some it => Ret it
  | None =>
      match control_escape e with
      | Some c => Ret (CLit c)
      | None =>
          if Ascii.eqb e "b" then Ret (CLit (ascii_of_nat 8))
          else if numeric_escape e then Beyond
          else if ascii_letter e then Raise (re_error "bad escape")
          else Ret (CLit e)
      end
  end.

(** An escape [\e] outside a character set. *)
Definition escape (e : ascii) : outcome regex :=
  match category_escape e with
  | Some it => Ret (In false [it])
  | None =>
      match control_escape e with
      | Some c => Ret (Lit c)
      | None =>
          if anchor_escape e || numeric_escape e then Beyond
          else if ascii_letter e then Raise (re_error "bad escape")
          else Ret (Lit e)
      end
  end.

(** One member of a set that starts with [c]: the member, and how many
    characters of [rest] it takes. *)
Definition set_atom (c : ascii) (rest : str) : outcome (citem * nat) :=
  if Ascii.eqb c "\" then
    match rest with
    | [] => Raise (re_error "bad escape (end of pattern)")
    | e :: _ => it <- class_escape e ;; Ret (it, 1)
    end
  else Ret (CLit c, 0).

Definition close_set (st : pstate) (negate : bool) (items : list citem) : pstate :=
  push_item st (In negate (rev items)) TPlain.

Definition set_mode (st : pstate) (md : mode) : pstate :=
  {| p_stack := p_stack st; p_top := p_top st; p_ngroups := p_ngroups st; p_mode := md |}.

(** One member, or one range, of a set. *)
Definition step_member (st : pstate) (negate : bool) (items : list citem)
    (c : ascii) (rest : str) : outcome (pstate * nat) :=
  a1 <- set_atom c rest ;;
  match drop (snd a1) rest with
  | "-"%char :: rest2 =>
      match rest2 with
      | [] => Raise (re_error "unterminated character set")
      | d :: rest3 =>
          if Ascii.eqb d "]" then
            Ret (close_set st negate (CLit "-" :: fst a1 :: items), snd a1 + 2)
          else
            a2 <- set_atom d rest3 ;;
            match fst a1, fst a2 with
            | CLit lo, CLit hi =>
                if code lo <=? code hi
                then Ret (set_mode st (MSet negate (CRange lo hi :: items)),
                          snd a1 + 2 + snd a2)
                else Raise (re_error "bad character range")
            | _, _ => Raise (re_error "bad character range")
            end
      end
  | _ => Ret (set_mode st (MSet negate (fst a1 :: items)), snd a1)
  end.

(** One step inside a set, at the character [c] followed by [rest]: a
    closing bracket ends the set unless it is its first member. *)
Definition step_set (st : pstate) (negate : bool) (items : list citem)
    (c : ascii) (rest : str) : outcome (pstate * nat) :=
  match items with
  | _ :: _ =>
      if Ascii.eqb c "]" then Ret (close_set st negate items, 0)
      else step_member st negate items c rest
  | [] => step_member st negate items c rest
  end.

Fixpoint skip_digits (l : str) : str :=
  match l with
  | c :: l' => if isdecimal c then skip_digits l' else l
  | [] => []
  end.

(** Whether the text after a [{] completes a bounded repetition. *)
Definition is_repeat (rest : str) : bool :=
  match rest with
  | "}"%char :: _ => false
  | _ =>
      let r1 := skip_digits rest in
      let r2 := match r1 with
                | ","%char :: r => skip_digits r
                | _ => r1
                end in
      match r2 with
      | "}"%char :: _ => true
      | _ => false
      end
  end.

Inductive quantifier := QStar | QPlus | QOpt.

Definition quantify (q : quantifier) (greedy : bool) (r : regex) : regex :=
  match q with
  | QStar => Star greedy r
  | QPlus => Plus greedy r
  | QOpt => Opt greedy r
  end.

Definition step_quantifier (st : pstate) (q : quantifier) (rest : str)
    : outcome (pstate * nat) :=
  let f := p_top st in
  match f_seq f with
  | [] => Raise (re_error "nothing to repeat")
  | (_, TAt) :: _ => Raise (re_error "nothing to repeat")
  | (_, TRepeat) :: _ => Raise (re_error "multiple repeat")
  | (r, TPlain) :: items =>
      let put greedy skip :=
        Ret ({| p_stack := p_stack st;
                p_top := {| f_group := f_group f; f_alts := f_alts f;
                            f_seq := (quantify q greedy r, TRepeat) :: items |};
                p_ngroups := p_ngroups st;
                p_mode := MNormal |}, skip) in
      match rest with
      | c :: _ =>
          if Ascii.eqb c "?" then put false 1
          else if Ascii.eqb c "+" then Beyond
          else put true 0
      | [] => put true 0
      end
  end.

(** One step outside a set. *)
Definition step_normal (fl : flags) (st : pstate) (c : ascii) (rest : str)
    : outcome (pstate * nat) :=
  if Ascii.eqb c "\" then
    match rest with
    | [] => Raise (re_error "bad escape (end of pattern)")
    | e :: _ => r <- escape e ;; Ret (push_item st r TPlain, 1)
    end
  else if Ascii.eqb c "." then Ret (push_item st (Any (dotall fl)) TPlain, 0)
  else if Ascii.eqb c "^" then Ret (push_item st (Bol (multiline fl)) TAt, 0)
  else if Ascii.eqb c "$" then Ret (push_item st (Eol (multiline fl)) TAt, 0)
  else if Ascii.eqb c "[" then
    match rest with
    | "^"%char :: _ => Ret (set_mode st (MSet true []), 1)
    | _ => Ret (set_mode st (MSet false []), 0)
    end
  else if Ascii.eqb c "(" then
    match rest with
    | "?"%char :: ":"%char :: _ =>
        Ret ({| p_stack := p_top st :: p_stack st; p_top := empty_frame None;
                p_ngroups := p_ngroups st; p_mode := MNormal |}, 2)
    | "?"%char :: _ => Beyond
    | _ =>
        Ret ({| p_stack := p_top st :: p_stack st;
                p_top := empty_frame (Some (S (p_ngroups st)));
                p_ngroups := S (p_ngroups st); p_mode := MNormal |}, 0)
    end
  else if Ascii.eqb c ")" then
    match p_stack st with
    | [] => Raise (re_error "unbalanced parenthesis")
    | parent :: stack =>
        Ret ({| p_stack := stack;
                p_top := {| f_group := f_group parent; f_alts := f_alts parent;
                            f_seq := (close_frame (p_top st), TPlain) :: f_seq parent |};
                p_ngroups := p_ngroups st; p_mode := MNormal |}, 0)
    end
  else if Ascii.eqb c "|" then
    let f := p_top st in
    Ret ({| p_stack := p_stack st;
            p_top := {| f_group := f_group f; f_alts := branch_of f :: f_alts f;
                        f_seq := [] |};
            p_ngroups := p_ngroups st; p_mode := MNormal |}, 0)
  else if Ascii.eqb c "*" then step_quantifier st QStar rest
  else if Ascii.eqb c "+" then step_quantifier st QPlus rest
  else if Ascii.eqb c "?" then step_quantifier st QOpt rest
  else if Ascii.eqb c "{" then
    if is_repeat rest then Beyond else Ret (push_item st (Lit c) TPlain, 0)
  else Ret (push_item st (Lit c) TPlain, 0).

Definition step (fl : flags) (st : pstate) (c : ascii) (rest : str)
    : outcome (pstate * nat) :=
  match p_mode st with
  | MNormal => step_normal fl st c rest
  | MSet negate items => step_set st negate items c rest
  end.

Definition finish (st : pstate) : outcome regex :=
  match p_mode st with
  | MSet _ _ => Raise (re_error "unterminated character set")
  | MNormal =>
      match p_stack st with
      | [] => Ret (close_frame (p_top st))
      | _ :: _ => Raise (re_error "missing ), unterminated subpattern")
      end
  end.

(** The parser reads the pattern from the left; [skip] counts the
    characters that the last step has already taken. *)
Fixpoint parse_go (fl : flags) (st : pstate) (skip : nat) (l : str) : outcome regex :=
  match l with
  | [] => finish st
  | c :: rest =>
      match skip with
      | S n => parse_go fl st n rest
      | 0 =>
          match step fl st c rest with
          | Ret (st', n) => parse_go fl st' n rest
          | Raise e => Raise e
          | Beyond => Beyond
          end
      end
  end.

(** [re.compile(pattern, flags)] *)
Definition compile (fl : flags) (pattern : str) : outcome regex :=
  parse_go fl init 0 pattern.

(** [re.escape]: a backslash before every character that is special in a
    pattern. *)
Definition special_chars : str :=
  lit "()[]{}?*+-|^$\.&~# " ++ map ascii_of_nat [9; 10; 13; 11; 12].

Definition is_special (c : ascii) : bool := existsb (Ascii.eqb c) special_chars.

Fixpoint re_escape (s : str) : str :=
  match s with
  | [] => []
  | c :: s' => if is_special c then "\"%char :: c :: re_escape s' else c :: re_escape s'
  end.

End Re.

Import Re.

(** ** Python dictionaries: the structure tree *)

(** A key of the tree: a string, or [None] for a group that took no part in
    its match. *)
Inductive key := KStr (s : str) | KNone.

Definition key_eqb (a b : key) : bool :=
  match a, b with
  | KStr x, KStr y => Py.eqb x y
  | KNone, KNone => true
  | _, _ => false
  end.

Definition key_of (g : option str) : key :=
  match g with
  | Some s => KStr s
  | None => KNone
  end.

(** A dictionary whose values are dictionaries, in insertion order. *)
#[warnings="-register-all"]
Inductive tree := Dict (items : list (key * tree)).

Definition items (t : tree) : list (key * tree) :=
  match t with Dict l => l end.

Definition empty_dict : tree := Dict [].

Definition keys (t : tree) : list key := map fst (items t).

(** [k in d] *)
Definition dict_has (k : key) (d : tree) : bool := existsb (key_eqb k) (keys d).

(** [d[k]], with [None] for a [KeyError] *)
Fixpoint assoc_get (k : key) (l : list (key * tree)) : option tree :=
  match l with
  | [] => None
  | (k', v) :: l' => if key_eqb k k' then Some v else assoc_get k l'
  end.

Definition dict_get (k : key) (d : tree) : option tree := assoc_get k (items d).

(** [d[k] = v]: a present key keeps its place, a new one goes last. *)
Fixpoint assoc_set (k : key) (v : tree) (l : list (key * tree)) : list (key * tree) :=
  match l with
  | [] => [(k, v)]
  | (k', v') :: l' => if key_eqb k k' then (k', v) :: l' else (k', v') :: assoc_set k v l'
  end.

Definition dict_set (k : key) (v : tree) (d : tree) : tree := Dict (assoc_set k v (items d)).

(** [if k not in d: d[k] = {}] *)
Definition ensure (k : key) (d : tree) : tree :=
  if dict_has k d then d else dict_set k empty_dict d.

(** [d[k]] for a key that [ensure] has put there. *)
Definition child (k : key) (d : tree) : tree := default empty_dict (dict_get k d).

(** ** [extract_fallback_structure] *)

Definition block_patterns : list str :=
  [ lit "resource\s+`([^`]+)`\s+`([^`]+)`";
    lit "data\s+`([^`]+)`\s+`([^`]+)`";
    lit "variable\s+`([^`]+)`";
    lit "output\s+`([^`]+)`";
    lit "provider\s+`?([^`\s{]+)`?";
    lit "module\s+`([^`]+)`";
    lit "locals\s+{";
    lit "terraform\s+{" ].

Definition local_var_pattern : str := lit "(\w+)\s*=\s*".

(** [match.group(0).split()[0]] *)
Definition first_word (raw_content : str) (mt : rmatch) : outcome str :=
  match split_first (group0 raw_content mt) with
  | Some w => Ret w
  | None => Raise IndexError
  end.

(** [re.findall] for a pattern with one group. *)
Definition findall1 (r : regex) (s : str) : list str :=
  map (fun mt => default [] (group s mt 1)) (finditer s r).

(** [for var_name in local_vars: structure[block_type][var_name] = {}] *)
Definition add_local_vars (block_type : key) (local_vars : list str) (structure : tree) : tree :=
  fold_left
    (fun st var_name =>
       dict_set block_type (dict_set (KStr var_name) empty_dict (child block_type st)) st)
    local_vars structure.

(** The body of the loop over the matches of one pattern. *)
Definition record_match (raw_content : str) (r : regex) (structure : tree) (mt : rmatch)
    : outcome tree :=
  match groups raw_content r mt with
  | [g1; g2] =>
      block_type <- first_word raw_content mt ;;
      let block_type := KStr block_type in
      let resource_type := key_of g1 in
      let resource_name := key_of g2 in
      let structure := ensure block_type structure in
      let by_type := ensure resource_type (child block_type structure) in
      let by_name := dict_set resource_name empty_dict (child resource_type by_type) in
      Ret (dict_set block_type (dict_set resource_type by_name by_type) structure)
  | [g1] =>
      block_type <- first_word raw_content mt ;;
      let block_type := KStr block_type in
      let name := key_of g1 in
      let structure := ensure block_type structure in
      Ret (dict_set block_type (dict_set name empty_dict (child block_type structure)) structure)
  | _ =>
      block_type <- first_word raw_content mt ;;
      let structure := ensure (KStr block_type) structure in
      let structure :=
        if Py.eqb block_type (lit "terraform") then
          if contains (lit "required_providers")
               (slice raw_content (m_start mt) (m_start mt + 200))
          then dict_set (KStr block_type)
                 (dict_set (KStr (lit "required_providers")) empty_dict
                    (child (KStr block_type) structure)) structure
          else structure
        else structure in
      if Py.eqb block_type (lit "locals") then
        let locals_section := slice raw_content (m_start mt) (m_start mt + 500) in
        r' <- compile NOFLAG local_var_pattern ;;
        Ret (add_local_vars (KStr block_type) (findall1 r' locals_section) structure)
      else Ret structure
  end.

Fixpoint record_matches (raw_content : str) (r : regex) (structure : tree)
    (matches : list rmatch) : outcome tree :=
  match matches with
  | [] => Ret structure
  | mt :: rest =>
      structure' <- record_match raw_content r structure mt ;;
      record_matches raw_content r structure' rest
  end.

Fixpoint record_patterns (raw_content : str) (structure : tree) (patterns : list str)
    : outcome tree :=
  match patterns with
  | [] => Ret structure
  | pattern :: rest =>
      r <- compile NOFLAG pattern ;;
      structure' <- record_matches raw_content r structure (finditer raw_content r) ;;
      record_patterns raw_content structure' rest
  end.

Definition extract_fallback_structure (raw_content : str) : outcome tree :=
  record_patterns raw_content empty_dict block_patterns.

(** ** [extract_block_content] *)

Definition not_found : str := lit "Block content not found".
Definition no_equals_sign : str := lit "Block content not found (equals sign expected)".
Definition no_opening_brace : str := lit "Block content not found (no opening brace)".
Definition incomplete_block : str := lit "Block content not found (incomplete block)".

Definition terraform_pattern : str :=
  lit "terraform\s*{(?:[^{}]|{(?:[^{}]|{[^{}]*})*})*}".

Definition required_providers_pattern : str :=
  lit "required_providers\s*{(?:[^{}]|{(?:[^{}]|{[^{}]*})*})*}".

Definition locals_pattern : str :=
  lit "locals\s*{(?:[^{}]|{(?:[^{}]|{[^{}]*})*})*}".

(** [fr'["\']?{re.escape(block_name)}["\']?\s*='] *)
Definition var_pattern (block_name : str) : str :=
  lit "[`\']?" ++ re_escape block_name ++ lit "[`\']?\s*=".

Definition next_block_pattern : str :=
  lit "(?:^|\n)\s*(resource|provider|variable|output|locals|module|data)\s+".

(** The part of the function for [block_type == "terraform"]. *)
Definition extract_terraform (raw_content block_name : str) : outcome str :=
  if Py.eqb block_name (lit "required_providers") then
    r <- compile DOTALL terraform_pattern ;;
    match search raw_content r with
    | Some terraform_match =>
        let terraform_content := group0 raw_content terraform_match in
        r' <- compile DOTALL required_providers_pattern ;;
        match search terraform_content r' with
        | Some required_match => Ret (group0 terraform_content required_match)
        | None => Ret terraform_content
        end
    | None => Ret not_found
    end
  else
    r <- compile DOTALL terraform_pattern ;;
    match search raw_content r with
    | Some terraform_match => Ret (group0 raw_content terraform_match)
    | None => Ret not_found
    end.

(** The loop over the [locals] blocks that looks for the variable; [None]
    when no block holds it. *)
Fixpoint find_local (block_name : str) (blocks : list str) : outcome (option str) :=
  match blocks with
  | [] => Ret None
  | locals_content :: rest =>
      r <- compile NOFLAG (var_pattern block_name) ;;
      match search locals_content r with
      | Some _ => Ret (Some locals_content)
      | None => find_local block_name rest
      end
  end.

(** The part of the function for [block_type == "locals"]. *)
Definition extract_locals (raw_content block_name : str) : outcome str :=
  r <- compile DOTALL locals_pattern ;;
  let matches := map (group0 raw_content) (finditer raw_content r) in
  if (length matches =? 1) || Py.eqb block_name [] then
    match matches with
    | first :: _ => Ret first
    | [] => Ret not_found
    end
  else
    found <- find_local block_name matches ;;
    match found with
    | Some locals_content => Ret locals_content
    | None =>
        match matches with
        | first :: _ => Ret first
        | [] => Ret not_found
        end
    end.

Definition escape_quotes (block_name : str) : str :=
  if contains [dquote] block_name
  then replace block_name [dquote] (lit "\`")
  else block_name.

(** The patterns of the general search, in their order. *)
Definition patterns (block_type escaped_block_name : str) : list str :=
  [ block_type ++ lit "\s+`" ++ escaped_block_name ++ lit "`\s*{";
    block_type ++ lit "\s+[`\'][^`\']+[`\']\\s+`" ++ escaped_block_name ++ lit "`\s*{";
    block_type ++ lit "\s+" ++ escaped_block_name ++ lit "\s*{";
    block_type ++ lit "\s+`" ++ escaped_block_name ++ lit "`\s*=";
    block_type ++ lit "\s+" ++ escaped_block_name ++ lit "\s*=";
    block_type ++ lit "\s+'" ++ escaped_block_name ++ lit "'\s*{";
    block_type ++ lit "\s+'" ++ escaped_block_name ++ lit "'\s*=" ]
  ++ (if Py.eqb block_type (lit "resource") then
        [ lit "resource\s+`" ++ escaped_block_name ++ lit "`\s+`[^`]+`\s*{";
          lit "resource\s+`[^`]+`\s+`" ++ escaped_block_name ++ lit "`\s*{" ]
      else []).

Definition flexible_pattern (block_type escaped_block_name : str) : str :=
  lit "(?:^|\n)\s*" ++ block_type ++ lit "\s+(?:`[^`]*`\s+)?(?:`?"
  ++ escaped_block_name ++ lit "`?|\'?" ++ escaped_block_name ++ lit "\'?)".

(** The state of the search: [start_idx] ([None] for [-1]) and
    [matched_pattern]. *)
Definition found := (option nat * option str)%type.

(** The body of the loop over the matches of [pattern]. *)
Definition keep_earliest (pattern : str) (st : found) (mt : rmatch) : found :=
  match fst st with
  | None => (Some (m_start mt), Some pattern)
  | Some start_idx =>
      if m_start mt <? start_idx then (Some (m_start mt), Some pattern) else st
  end.

Fixpoint try_patterns (raw_content : str) (pats : list str) (st : found) : outcome found :=
  match pats with
  | [] => Ret st
  | pattern :: rest =>
      r <- compile MULTILINE_DOTALL pattern ;;
      try_patterns raw_content rest
        (fold_left (keep_earliest pattern) (finditer raw_content r) st)
  end.

(** [raw_content[i]] *)
Definition char_at (raw_content : str) (i : nat) : outcome ascii :=
  match raw_content !! i with
  | Some c => Ret c
  | None => Raise IndexError
  end.

(** [while pos < len(raw_content) and raw_content[pos] not in '{=': pos += 1],
    with [rest] the text from [pos] on. *)
Fixpoint skip_to_mark (rest : str) (pos : nat) : nat :=
  match rest with
  | [] => pos
  | c :: rest' =>
      if Ascii.eqb c "{" || Ascii.eqb c "=" then pos
      else skip_to_mark rest' (S pos)
  end.

(** The flexible search, run when no pattern of the list has matched. *)
Definition try_flexible (raw_content block_type escaped_block_name : str) : outcome found :=
  r <- compile MULTILINE (flexible_pattern block_type escaped_block_name) ;;
  match search raw_content r with
  | Some mt =>
      let start_idx := m_start mt in
      let pos := start_idx + length (group0 raw_content mt) in
      let pos := skip_to_mark (drop pos raw_content) pos in
      if pos <? length raw_content then
        c <- char_at raw_content pos ;;
        if Ascii.eqb c "=" then Ret (Some start_idx, Some (lit "="))
        else Ret (Some start_idx, Some (lit "{"))
      else Ret (Some start_idx, None)
  | None => Ret (None, None)
  end.

(** [matched_pattern and ('=' in matched_pattern or matched_pattern == '=')] *)
Definition is_equals_block (matched_pattern : option str) : bool :=
  match matched_pattern with
  | Some p => negb (Py.eqb p []) && (contains (lit "=") p || Py.eqb p (lit "="))
  | None => false
  end.

(** The extraction of an equals-style block that starts at [start_idx]. *)
Definition extract_equals (raw_content : str) (start_idx : nat) : outcome str :=
  match find (lit "=") raw_content start_idx with
  | None => Ret no_equals_sign
  | Some eq_pos =>
      r <- compile MULTILINE next_block_pattern ;;
      let end_idx :=
        match search (drop eq_pos raw_content) r with
        | Some next_match =>
            let end_idx := eq_pos + m_start next_match in
            match rfind_char nl raw_content end_idx with
            | Some last_newline =>
                if start_idx <? last_newline then last_newline else end_idx
            | None => end_idx
            end
        | None => length raw_content
        end in
      Ret (strip (slice raw_content start_idx end_idx))
  end.

(** [for i in range(start_idx, min(start_idx + 200, len(raw_content)))]: the
    first opening brace of the window; [n] is the number of indices left. *)
Fixpoint find_open_brace (raw_content : str) (n : nat) (i : nat) : outcome (option nat) :=
  match n with
  | 0 => Ret None
  | S n' =>
      c <- char_at raw_content i ;;
      if Ascii.eqb c "{" then Ret (Some i)
      else find_open_brace raw_content n' (S i)
  end.

(** The loop that counts brackets, from the state [(bracket_count,
    current_idx)] to the state in which it stops.  It runs while
    [bracket_count > 0 and current_idx < len(raw_content) - 1]; [fuel]
    bounds the number of iterations. *)
Fixpoint count_brackets (raw_content : str) (fuel : nat) (bracket_count current_idx : nat)
    : outcome (nat * nat) :=
  if (0 <? bracket_count) && (S current_idx <? length raw_content) then
    match fuel with
    | 0 => Ret (bracket_count, current_idx)
    | S fuel' =>
        let current_idx := S current_idx in
        c <- char_at raw_content current_idx ;;
        if Ascii.eqb c "{" then
          count_brackets raw_content fuel' (S bracket_count) current_idx
        else if Ascii.eqb c "}" then
          count_brackets raw_content fuel' (bracket_count - 1) current_idx
        else count_brackets raw_content fuel' bracket_count current_idx
    end
  else Ret (bracket_count, current_idx).

(** The extraction of a brace-style block that starts at [start_idx]. *)
Definition extract_braces (raw_content : str) (start_idx : nat) : outcome str :=
  open_brace_pos <-
    find_open_brace raw_content
      (Nat.min (start_idx + 200) (length raw_content) - start_idx) start_idx ;;
  match open_brace_pos with
  | None => Ret no_opening_brace
  | Some open_brace_pos =>
      st <- count_brackets raw_content (length raw_content) 1 open_brace_pos ;;
      let '(bracket_count, current_idx) := st in
      if bracket_count =? 0 then
        let end_idx := current_idx + 1 in
        Ret (slice raw_content start_idx end_idx)
      else Ret incomplete_block
  end.

Definition extract_block_content (raw_content block_type block_name : str) : outcome str :=
  if Py.eqb block_type (lit "terraform") then extract_terraform raw_content block_name
  else if Py.eqb block_type (lit "locals") then extract_locals raw_content block_name
  else
    let escaped_block_name := escape_quotes block_name in
    st <- try_patterns raw_content (patterns block_type escaped_block_name) (None, None) ;;
    st <- match fst st with
          | None => try_flexible raw_content block_type escaped_block_name
          | Some _ => Ret st
          end ;;
    match fst st with
    | None => Ret not_found
    | Some start_idx =>
        if is_equals_block (snd st) then extract_equals raw_content start_idx
        else extract_braces raw_content start_idx
    end.

(** ** [edit_block_content] *)

(** The files, by path. *)
Abbreviation files := (gmap string str).

Definition saved : str := lit "Changes saved successfully".
Definition not_located : str := lit "Could not locate the original block in the file".

Section Edit.

(** The path that [tempfile.NamedTemporaryFile] picks, or [None] when it
    fails. *)
Variable temp_file : files -> option string.

(** [subprocess.run([editor, temp_file_path])]: what the editor, and
    whatever else runs meanwhile, does to the files; [None] when the editor
    cannot be started. *)
Variable run_editor : string -> files -> option files.

(** Whether [open(path, 'w')] succeeds. *)
Variable writable : string -> bool.

(** The text of [str(e)] for what went wrong with a path. *)
Variable error_text : string -> str.

(** The [try] block that reads the edited text and the file again and
    writes the file back: the new files, [success] and [message]. *)
Definition commit (file_path temp_file_path : string) (block_content : str) (fs : files)
    : files * bool * str :=
  match fs !! temp_file_path with
  | None => (fs, false, lit "Error saving changes: " ++ error_text temp_file_path)
  | Some edited_content =>
      match fs !! file_path with
      | None => (fs, false, lit "Error saving changes: " ++ error_text file_path)
      | Some original_content =>
          if contains block_content original_content then
            let new_content := replace original_content block_content edited_content in
            if writable file_path
            then (<[file_path := new_content]> fs, true, saved)
            else (fs, false, lit "Error saving changes: " ++ error_text file_path)
          else (fs, false, not_located)
      end
  end.

Definition edit_block_content (file_path : string) (block_type block_name block_content : str)
    (fs : files) : files * bool * str :=
  match temp_file fs with
  | None => (fs, false, lit "Failed to create temp file: " ++ error_text "")
  | Some temp_file_path =>
      let fs := <[temp_file_path := block_content]> fs in
      match run_editor temp_file_path fs with
      | None =>
          (delete temp_file_path fs, false,
           lit "Error while editing: " ++ error_text temp_file_path)
      | Some fs =>
          let '(fs, success, message) := commit file_path temp_file_path block_content fs in
          (delete temp_file_path fs, success, message)
      end
  end.

End Edit.

(** * Specification vocabulary *)

(** ** What a pattern matches

    [lang s r i j]: the pattern [r] matches the text [s] from offset [i] to
    offset [j].  This is the meaning of a pattern without the order in which
    the matcher tries its choices. *)

Inductive lang (s : str) : regex -> nat -> nat -> Prop :=
| L_Eps i : lang s Eps i i
| L_Lit x i : s !! i = Some x -> lang s (Lit x) i (S i)
| L_In negate items i x :
    s !! i = Some x -> in_set negate items x = true -> lang s (In negate items) i (S i)
| L_Any dotall i x :
    s !! i = Some x -> dotall || negb (Ascii.eqb x nl) = true -> lang s (Any dotall) i (S i)
| L_Bol multiline i : at_bol s multiline i = true -> lang s (Bol multiline) i i
| L_Eol multiline i : at_eol s multiline i = true -> lang s (Eol multiline) i i
| L_Seq r1 r2 i j k : lang s r1 i j -> lang s r2 j k -> lang s (Seq r1 r2) i k
| L_Alt_l r1 r2 i j : lang s r1 i j -> lang s (Alt r1 r2) i j
| L_Alt_r r1 r2 i j : lang s r2 i j -> lang s (Alt r1 r2) i j
| L_Star_nil g r i : lang s (Star g r) i i
| L_Star_step g r i j k :
    lang s r i j -> i < j -> lang s (Star g r) j k -> lang s (Star g r) i k
| L_Plus g r i j k : lang s r i j -> lang s (Star g r) j k -> lang s (Plus g r) i k
| L_Opt_some g r i j : lang s r i j -> lang s (Opt g r) i j
| L_Opt_none g r i : lang s (Opt g r) i i
| L_Group n r i j : lang s r i j -> lang s (Group n r) i j.

(** What a successful run of the matcher went through. *)
Definition sound_at (s : str) (r : regex)
    (run : nat -> caps -> cont -> option (nat * caps)) : Prop :=
  forall i c k res, run i c k = Some res ->
    exists j c', lang s r i j /\ k j c' = Some res.

(** Whatever the meaning of the pattern allows, the matcher finds some
    way through, as long as what follows accepts it. *)
Definition complete_at (s : str) (r : regex)
    (run : nat -> caps -> cont -> option (nat * caps)) : Prop :=
  forall i j c k, lang s r i j -> i <= length s ->
    (forall c', is_Some (k j c')) -> is_Some (run i c k).

(** [r] matches [s] on [[i, j)] and nowhere from an offset before [i]. *)
Definition leftmost (s : str) (r : regex) (i j : nat) : Prop :=
  lang s r i j /\ i <= length s /\ forall i' j', i' < i -> ~ lang s r i' j'.

(** [r] matches nowhere in [s]. *)
Definition no_match (s : str) (r : regex) : Prop :=
  forall i j, i <= length s -> ~ lang s r i j.

(** ** Occurrences of a text *)


(** [s] is a literal substring of [content]. *)
Definition substring (s content : str) : Prop :=
  exists pre post, content = pre ++ s ++ post.

(** ** Brace depth *)

Fixpoint count_char (c : ascii) (s : str) : nat :=
  match s with
  | [] => 0
  | x :: s' => (if Ascii.eqb x c then 1 else 0) + count_char c s'
  end.

(** The block opened at [open] is never closed: from the opening brace to
    any later offset there are more opening than closing braces. *)
Definition unterminated (raw_content : str) (open : nat) : Prop :=
  forall k, open <= k < length raw_content ->
    count_char "}" (slice raw_content open (S k))
    < count_char "{" (slice raw_content open (S k)).


(** ** Sample texts *)

Module Sample.

Definition resource_a : str := lit "resource `aws_instance` `a` { ami = `x` }".
Definition resource_b : str := lit "resource `aws_instance` `b` { ami = `y` }".

(** Two resource blocks, on two lines and on one line. *)
Definition two_resources : str := resource_a ++ [nl] ++ resource_b.

(** A [terraform] block whose braces nest four deep, and a [variable]
    block with the same body. *)
Definition deep_body : str := lit "{ cloud { workspaces { tags = { env = `dev` } } } }".
Definition deep_terraform : str := lit "terraform " ++ deep_body.
Definition deep_variable : str := lit "variable `v` " ++ deep_body.

(** A [terraform] block with [required_providers]. *)
Definition providers : str := lit "required_providers { aws = { source = `hashicorp/aws` } }".
Definition terraform_providers : str := lit "terraform { " ++ providers ++ lit " }".


(** An equals-style variable on one line, and one over three lines, each
    followed by a resource block. *)
Definition variable_line : str := lit "variable `x` = { default = 1 }".
Definition variable_lines : str :=
  lit "variable `x` = {" ++ [nl] ++ lit "  default = 1" ++ [nl] ++ lit "}".
Definition next_resource : str := lit "resource `y` `z` {}".

(** A file with the same block twice. *)
Definition tag_block : str := lit "locals { env = `dev` }".
Definition tag_block_edited : str := lit "locals { env = `prod` }".
Definition twice : str := tag_block ++ [nl] ++ tag_block.

(** A block that is never closed. *)
Definition open_block : str := lit "variable `x` { a = { b = 1 }".

(** The files of a small project, and an editor that writes the edited
    block while the file on disk changes under it. *)
Definition project : files := {[ "main.tf"%string := twice ]}.

Definition temp_name (fs : files) : option string := Some "edit.tf"%string.

Definition edit_while_changed (edited changed : str) (temp_file_path : string) (fs : files)
    : option files :=
  Some (<[temp_file_path := edited]> (<["main.tf"%string := changed]> fs)).

Definition always (path : string) : bool := true.
Definition no_text (path : string) : str := [].

End Sample.


(** ** Block kinds *)

Definition kinds : list str :=
  [ lit "resource"; lit "data"; lit "variable"; lit "output";
    lit "provider"; lit "module"; lit "locals"; lit "terraform" ].

(** A key that is one of the eight block kinds. *)
Definition kind_key (k : key) : bool :=
  match k with
  | KStr w => existsb (Py.eqb w) kinds
  | KNone => false
  end.

(** Every top-level key is a block kind. *)
Definition known_keys (t : tree) : Prop := Forall (fun k => kind_key k = true) (keys t).

(** The pattern [\s]. *)
Definition is_space_class (r : regex) : bool :=
  match r with
  | In false [CCat CatSpace true] => true
  | _ => false
  end.

(** A pattern that opens with the characters of [kw] and then asks for at
    least one space. *)
Fixpoint opens_with (kw : str) (r : regex) : bool :=
  match kw with
  | [] =>
      match r with
      | Seq (Plus _ r1) _ => is_space_class r1
      | Plus _ r1 => is_space_class r1
      | _ => false
      end
  | c :: kw' =>
      match r with
      | Seq (Lit x) r' => Ascii.eqb c x && opens_with kw' r'
      | _ => false
      end
  end.

(** A pattern of the fallback extractor that compiles and opens with a block
    kind. *)
Definition anchored (pattern : str) : bool :=
  match compile NOFLAG pattern with
  | Ret r => existsb (fun kw => opens_with kw r) kinds
  | _ => false
  end.


(** ** Brace-delimited blocks *)

(** The compiled forms of the block patterns: [lits kw r] is the text [kw]
    followed by [r]; [braces r] is [{r*}]; [item n] is what may stand inside
    braces when [n] further levels of braces are allowed. *)
Definition lits (kw : str) (r : regex) : regex :=
  fold_right (fun c r' => Seq (Lit c) r') r kw.

Definition space : regex := In false [CCat CatSpace true].

Definition no_brace : regex := In true [CLit "{"; CLit "}"].

Definition braces (r : regex) : regex := Seq (Lit "{") (Seq (Star true r) (Lit "}")).

Fixpoint item (n : nat) : regex :=
  match n with
  | 0 => no_brace
  | S n' => Alt no_brace (braces (item n'))
  end.

(** [kw\s*{(?:[^{}]|{(?:[^{}]|{[^{}]*})*})*}] *)
Definition block_regex (kw : str) : regex :=
  lits kw (Seq (Star true space) (braces (item 2))).

(** A text whose braces are balanced and nest at most [n] deep. *)
Inductive nested : nat -> str -> Prop :=
| nested_nil n : nested n []
| nested_char n c t :
    c <> "{"%char -> c <> "}"%char -> nested n t -> nested n (c :: t)
| nested_group n t1 t2 :
    nested n t1 -> nested (S n) t2 -> nested (S n) ("{"%char :: t1 ++ "}"%char :: t2).

(** The text between a pair of braces, or one character that is no brace. *)
Definition item_text (n : nat) (t : str) : Prop :=
  (exists c, t = [c] /\ c <> "{"%char /\ c <> "}"%char)
  \/ (exists m t1, n = S m /\ t = "{"%char :: t1 ++ ["}"%char] /\ nested m t1).

(** The text of a block: the keyword, spaces, and a body in braces whose
    own braces are balanced and nest at most two deep. *)
Definition is_block (kw t : str) : Prop :=
  exists ws body,
    t = kw ++ ws ++ "{"%char :: body ++ ["}"%char]
    /\ Forall (fun c => isspace c = true) ws
    /\ nested 2 body.


(** ** Assignments in a [locals] block *)









(** ** The matching closing brace *)

(** [close] is the first offset after [open] at which as many braces have
    been closed as opened since [open]. *)
Definition closes_at (raw_content : str) (open close : nat) : Prop :=
  open < close
  /\ count_char "{" (slice raw_content open (S close))
  = count_char "}" (slice raw_content open (S close))
  /\ forall k, open <= k < close ->
       count_char "}" (slice raw_content open (S k))
       < count_char "{" (slice raw_content open (S k)).

(** A text that neither starts nor ends with a space character. *)
Definition trimmed (t : str) : Prop :=
  (forall c t', t = c :: t' -> isspace c = false)
  /\ (forall c t', t = t' ++ [c] -> isspace c = false).

(** The keywords that end an equals-style block. *)
Definition next_keywords : list str :=
  [ lit "resource"; lit "provider"; lit "variable"; lit "output";
    lit "locals"; lit "module"; lit "data" ].


(** ** More sample texts *)

Module Sample2.

(** A block whose braces are closed. *)
Definition closed_block : str := Sample.open_block ++ lit " }".

(** A header whose brace comes after more than 200 characters. *)
Definition far_brace : str :=
  lit "variable `x`" ++ replicate 200 " "%char ++ lit "{ }".

End Sample2.


(** ** The pattern of the next block *)

(** The compiled form of a keyword: its characters in a row. *)
Definition word_regex (kw : str) : regex := seq_of (map (fun c => Lit c) kw).

(** The compiled form of [next_block_pattern]. *)
Definition next_block_regex : regex :=
  Seq (Alt (Bol true) (Lit nl))
    (Seq (Star true space)
       (Seq (Group 1 (alt_of (map word_regex next_keywords))) (Plus true space))).


(** ** What the locator can answer *)

(** The four answers of [extract_block_content] that are not text of the
    file. *)
Definition messages : list str :=
  [not_found; no_equals_sign; no_opening_brace; incomplete_block].


(** * The views *)

(** ** More of Python's [str] and [list] *)

(** [len(s)], as a Python [int] *)
Definition len {A : Type} (l : list A) : Z := Z.of_nat (length l).

(** [s.endswith(p)] *)
Definition endswith (p s : str) : bool := startswith (rev p) (rev s).

(** [s.split(sep)] for a separator of one character: the pieces between
    the separators, at least one. *)
Fixpoint split_on (sep : ascii) (s : str) : list str :=
  match s with
  | [] => [[]]
  | c :: s' =>
      if Ascii.eqb c sep then [] :: split_on sep s'
      else match split_on sep s' with
           | w :: ws => (c :: w) :: ws
           | [] => [[c]]
           end
  end.

(** [s.split(sep, 1)] for a separator of one character: the text cut at
    the first separator, or the whole text. *)
Definition split_once (sep : ascii) (s : str) : list str :=
  match find [sep] s 0 with
  | Some i => [take i s; drop (S i) s]
  | None => [s]
  end.

(** An index of a slice, brought into [0 .. n]: a negative index counts
    from the end. *)
Definition clip (n i : Z) : Z :=
  (if i <? 0 then Z.max 0 (i + n) else Z.min i n)%Z.

(** [s[a:b]] for any two integers *)
Definition py_slice (s : str) (a b : Z) : str :=
  slice s (Z.to_nat (clip (len s) a)) (Z.to_nat (clip (len s) b)).

(** [l[i]]: a negative index counts from the end; an index outside the list
    raises [IndexError]. *)
Definition py_item {A : Type} (l : list A) (i : Z) : outcome A :=
  let j := (if i <? 0 then i + len l else i)%Z in
  if (j <? 0)%Z then Raise IndexError
  else match l !! Z.to_nat j with
       | Some x => Ret x
       | None => Raise IndexError
       end.

(** ** The loaded data *)

(** A value of [terraform_data]: the text of a file, or what [hcl2.load] or
    the fallback gave for it, made of dictionaries, lists and other values. *)
#[warnings="-register-all"]
Inductive value :=
| VStr (s : str)
| VDict (entries : list (key * value))
| VList (elements : list value)
| VOther.

(** The fallback structure as a value. *)
Fixpoint of_tree (t : tree) : value :=
  match t with
  | Dict l => VDict (map (fun kv => (fst kv, of_tree (snd kv))) l)
  end.

(** [terraform_data]: the entries by file name, in insertion order. *)
Abbreviation data := (list (str * value)).

(** [terraform_data.get(k, default)] *)
Fixpoint data_get (k : str) (d : data) (default : value) : value :=
  match d with
  | [] => default
  | (k', v) :: d' => if Py.eqb k k' then v else data_get k d' default
  end.

(** [[f for f in terraform_data.keys() if not f.endswith("_raw")]] *)
Definition file_names (terraform_data : data) : list str :=
  List.filter (fun f => negb (endswith (lit "_raw") f)) (map fst terraform_data).

(** ** The labels of the block column *)

(** A key inside an f-string *)
Definition key_text (k : key) : str :=
  match k with
  | KStr s => s
  | KNone => lit "None"
  end.

(** [f"{block_type}.{name}"] *)
Definition label (block_type name : key) : str :=
  key_text block_type ++ lit "." ++ key_text name.

(** The labels that one entry [block_type: block_items] of a file adds. *)
Definition labels_of (block_type : key) (block_items : value) : list str :=
  match block_items with
  | VList l =>
      flat_map (fun item =>
                  match item with
                  | VDict d => map (fun kv => label block_type (fst kv)) d
                  | _ => []
                  end) l
  | VDict d => map (fun kv => label block_type (fst kv)) d
  | _ => []
  end.

(** The loop that fills [blocks] from the content of a file. *)
Definition blocks_of (file_content : value) : list str :=
  match file_content with
  | VDict d => flat_map (fun kv => labels_of (fst kv) (snd kv)) d
  | _ => []
  end.


(** The blocks of the second column of [file_view]: those of the selected
    file. *)
Definition column_blocks (terraform_data : data) (selected_index : Z) : outcome (list str) :=
  let files := file_names terraform_data in
  if (selected_index <? len files)%Z then
    selected_file <- py_item files selected_index ;;
    let file_content := data_get selected_file terraform_data (VDict []) in
    Ret (blocks_of file_content)
  else Ret [].

(** ** The content column *)

(** The block a label of the second column stands for, and its text: the
    label is cut at its first dot, and the double quotes of the name of a
    resource are removed.  [None] is the "Invalid block format" row. *)
Definition shown_block (raw_content block : str) : outcome (option str) :=
  match split_once "." block with
  | [block_type; block_name] =>
      let block_name :=
        if Py.eqb block_type (lit "resource") && contains [dquote] block_name
        then replace block_name [dquote] []
        else block_name in
      block_content <- extract_block_content raw_content block_type block_name ;;
      Ret (Some block_content)
  | _ => Ret None
  end.

(** What [shown_block] does for a label that splits into [block_type] and
    [block_name]. *)
Definition shown_as (raw_content block_type block_name : str) : outcome (option str) :=
  block_content <-
    extract_block_content raw_content block_type
      (if Py.eqb block_type (lit "resource") && contains [dquote] block_name
       then replace block_name [dquote] []
       else block_name) ;;
  Ret (Some block_content).

(** The widths of the three columns on a screen [width] columns wide. *)
Definition col1_width (width : Z) : Z := Z.max 20 (width / 4).
Definition col2_width (width : Z) : Z := Z.max 20 (width / 4).
Definition col3_width (width : Z) : Z :=
  (width - col1_width width - col2_width width - 4)%Z.

(** The loop that cuts a long line into rows, from the offset [start] on;
    [fuel] bounds the number of its iterations and [None] is a loop that has
    not ended within it. *)
Fixpoint wrap_chars (fuel : nat) (col3_width : Z) (line : str) (start : Z)
    : option (list str) :=
  if (start <? len line)%Z then
    match fuel with
    | 0 => None
    | S fuel' =>
        let end_ := Z.min (start + col3_width - 6) (len line) in
        match wrap_chars fuel' col3_width line end_ with
        | Some rows => Some (py_slice line start end_ :: rows)
        | None => None
        end
    end
  else Some [].

(** The rows of one line of the block when lines are wrapped. *)
Definition wrap_line (fuel : nat) (col3_width : Z) (line : str) : option (list str) :=
  if (len line <=? col3_width - 6)%Z then Some [line]
  else wrap_chars fuel col3_width line 0.

(** The wrapped lines of a block. *)
Fixpoint wrapped_lines (fuel : nat) (col3_width : Z) (lines : list str)
    : option (list str) :=
  match lines with
  | [] => Some []
  | line :: rest =>
      match wrap_line fuel col3_width line, wrapped_lines fuel col3_width rest with
      | Some rows, Some more => Some (rows ++ more)
      | _, _ => None
      end
  end.

(** The word wrap that counts the rows of the third column.  The state of
    its loop is [(lines, current_line)]. *)
Definition add_word (limit : Z) (st : list str * str) (word : str) : list str * str :=
  let '(lines, current_line) := st in
  if (len current_line + len word + 1 <=? limit)%Z
  then (lines, current_line ++ word ++ lit " ")
  else (lines ++ [current_line], word ++ lit " ").

Definition word_wrap (limit : Z) (original_line : str) : list str :=
  let '(lines, current_line) :=
    fold_left (add_word limit) (split_on " " original_line) ([], []) in
  match current_line with
  | [] => lines
  | _ => lines ++ [current_line]
  end.

(** The rows counted for the lines of a block, for a column that holds
    [limit] characters. *)
Definition counted_rows (limit : Z) (lines : list str) : list str :=
  flat_map (fun original_line =>
              if (len original_line <=? limit)%Z then [original_line]
              else word_wrap limit original_line) lines.


(** ** The keys of [main] *)

(** The state of the loop of [main], without its status line. *)
Record ui := {
  terraform_data : data;
  view : Z;
  selected_index : Z;
  selected_block_index : Z;
  file_scroll_offset : Z;
  block_scroll_offset : Z;
  content_scroll_offset : Z;
  active_column : Z;
  wrap_lines : bool
}.

(** [ord(c)] *)
Definition ord (c : ascii) : Z := Z.of_nat (nat_of_ascii c).

(** The key codes of [curses]. *)
Definition KEY_DOWN : Z := 258.
Definition KEY_UP : Z := 259.
Definition KEY_NPAGE : Z := 338.
Definition KEY_PPAGE : Z := 339.

(** The text of an entry of [terraform_data] that holds the text of a file;
    an entry of another type is outside the model. *)
Definition raw_text (v : value) : outcome str :=
  match v with
  | VStr s => Ret s
  | _ => Beyond
  end.

(** The blocks of the selected file as the branches of the arrow keys and
    of the Tab key compute them again, under [0 <= selected_index <
    len(files)]. *)
Definition blocks_again (st : ui) : list str :=
  let files := file_names (terraform_data st) in
  if (0 <=? selected_index st)%Z && (selected_index st <? len files)%Z then
    match files !! Z.to_nat (selected_index st) with
    | Some selected_file => blocks_of (data_get selected_file (terraform_data st) (VDict []))
    | None => []
    end
  else [].

(** The text of the selected block, for the list [blocks] of the second
    column: [None] when no block is selected or its label has no dot. *)
Definition selected_content (st : ui) (blocks : list str) : outcome (option str) :=
  let files := file_names (terraform_data st) in
  if (0 <=? selected_block_index st)%Z && (selected_block_index st <? len blocks)%Z
     && (selected_index st <? len files)%Z then
    selected_file <- py_item files (selected_index st) ;;
    block <- py_item blocks (selected_block_index st) ;;
    match split_once "." block with
    | [_; _] =>
        raw_content <-
          raw_text (data_get (selected_file ++ lit "_raw") (terraform_data st) (VStr [])) ;;
        shown_block raw_content block
    | _ => Ret None
    end
  else Ret None.

(** [content_lines], as the branch of the file view computes it before it
    looks at the key. *)
Definition content_lines_of (width : Z) (st : ui) (content : option str) : list str :=
  match content with
  | Some block_content =>
      if wrap_lines st then
        let col3_width := Z.max 20 ((width - 40) / 1) in
        counted_rows (col3_width - 4) (split_on nl block_content)
      else split_on nl block_content
  | None => []
  end.

Section Keys.

(** [height, width = stdscr.getmaxyx()] *)
Variables height width : Z.

(** What [parse_terraform_files(".")] returns when a key reloads the
    files. *)
Variable parsed : data.

(** What [prompt_for_search] does: it returns the results, or [None] for a
    search that was cancelled, or it raises. *)
Variable search_results : outcome (option (list (str * key * key))).

(** Whether [show_workspace_menu] returns a message. *)
Variable workspace_result : bool.

(** The branches of the keys [s] and [e], which talk to the terminal, the
    editor and the files. *)
Variables on_save on_edit : ui -> outcome ui.

Definition max_rows : Z := height - 6.

(** [curses.KEY_DOWN] in the file view *)
Definition key_down (files blocks content_lines : list str) (st : ui) : ui :=
  if (active_column st =? 0)%Z then
    if (selected_index st <? len files - 1)%Z then
      let selected_index := (selected_index st + 1)%Z in
      {| terraform_data := terraform_data st;
         view := view st;
         selected_index := selected_index;
         selected_block_index := -1;
         file_scroll_offset :=
           if (file_scroll_offset st + max_rows <=? selected_index)%Z
           then (file_scroll_offset st + 1)%Z else file_scroll_offset st;
         block_scroll_offset := 0;
         content_scroll_offset := 0;
         active_column := 0;
         wrap_lines := wrap_lines st |}
    else st
  else if (active_column st =? 1)%Z then
    let blocks := blocks_again st in
    if (selected_block_index st <? len blocks - 1)%Z then
      let selected_block_index := (selected_block_index st + 1)%Z in
      {| terraform_data := terraform_data st;
         view := view st;
         selected_index := selected_index st;
         selected_block_index := selected_block_index;
         file_scroll_offset := file_scroll_offset st;
         block_scroll_offset :=
           if (block_scroll_offset st + max_rows <=? selected_block_index)%Z
           then (block_scroll_offset st + 1)%Z else block_scroll_offset st;
         content_scroll_offset := 0;
         active_column := active_column st;
         wrap_lines := wrap_lines st |}
    else st
  else if (active_column st =? 2)%Z then
    if (content_scroll_offset st + max_rows <? len content_lines)%Z then
      {| terraform_data := terraform_data st;
         view := view st;
         selected_index := selected_index st;
         selected_block_index := selected_block_index st;
         file_scroll_offset := file_scroll_offset st;
         block_scroll_offset := block_scroll_offset st;
         content_scroll_offset := content_scroll_offset st + 1;
         active_column := active_column st;
         wrap_lines := wrap_lines st |}
    else st
  else st.

(** [curses.KEY_UP] in the file view *)
Definition key_up (st : ui) : ui :=
  if (active_column st =? 0)%Z then
    if (0 <? selected_index st)%Z then
      let selected_index := (selected_index st - 1)%Z in
      {| terraform_data := terraform_data st;
         view := view st;
         selected_index := selected_index;
         selected_block_index := selected_block_index st;
         file_scroll_offset :=
           if (selected_index <? file_scroll_offset st)%Z
           then (file_scroll_offset st - 1)%Z else file_scroll_offset st;
         block_scroll_offset := block_scroll_offset st;
         content_scroll_offset := content_scroll_offset st;
         active_column := active_column st;
         wrap_lines := wrap_lines st |}
    else st
  else if (active_column st =? 1)%Z then
    if (0 <? selected_block_index st)%Z then
      let selected_block_index := (selected_block_index st - 1)%Z in
      {| terraform_data := terraform_data st;
         view := view st;
         selected_index := selected_index st;
         selected_block_index := selected_block_index;
         file_scroll_offset := file_scroll_offset st;
         block_scroll_offset :=
           if (selected_block_index <? block_scroll_offset st)%Z
           then (block_scroll_offset st - 1)%Z else block_scroll_offset st;
         content_scroll_offset := content_scroll_offset st;
         active_column := active_column st;
         wrap_lines := wrap_lines st |}
    else st
  else if (active_column st =? 2)%Z then
    if (0 <? content_scroll_offset st)%Z then
      {| terraform_data := terraform_data st;
         view := view st;
         selected_index := selected_index st;
         selected_block_index := selected_block_index st;
         file_scroll_offset := file_scroll_offset st;
         block_scroll_offset := block_scroll_offset st;
         content_scroll_offset := content_scroll_offset st - 1;
         active_column := active_column st;
         wrap_lines := wrap_lines st |}
    else st
  else st.

(** The scroll offset after a page down in a list of [n] rows. *)
Definition page_offset (offset n : Z) : Z :=
  let offset := (offset + max_rows)%Z in
  if (n <? offset + max_rows)%Z then Z.max 0 (n - max_rows) else offset.

(** [curses.KEY_NPAGE] in the file view *)
Definition page_down (files blocks content_lines : list str) (st : ui) : ui :=
  if (active_column st =? 0)%Z then
    if (selected_index st + max_rows <? len files)%Z then
      {| terraform_data := terraform_data st;
         view := view st;
         selected_index := selected_index st + max_rows;
         selected_block_index := -1;
         file_scroll_offset := page_offset (file_scroll_offset st) (len files);
         block_scroll_offset := 0;
         content_scroll_offset := content_scroll_offset st;
         active_column := active_column st;
         wrap_lines := wrap_lines st |}
    else st
  else if (active_column st =? 1)%Z then
    if (selected_block_index st + max_rows <? len blocks)%Z then
      {| terraform_data := terraform_data st;
         view := view st;
         selected_index := selected_index st;
         selected_block_index := selected_block_index st + max_rows;
         file_scroll_offset := file_scroll_offset st;
         block_scroll_offset := page_offset (block_scroll_offset st) (len blocks);
         content_scroll_offset := 0;
         active_column := active_column st;
         wrap_lines := wrap_lines st |}
    else st
  else if (active_column st =? 2)%Z then
    if (content_scroll_offset st + max_rows <? len content_lines)%Z then
      {| terraform_data := terraform_data st;
         view := view st;
         selected_index := selected_index st;
         selected_block_index := selected_block_index st;
         file_scroll_offset := file_scroll_offset st;
         block_scroll_offset := block_scroll_offset st;
         content_scroll_offset :=
           page_offset (content_scroll_offset st) (len content_lines);
         active_column := active_column st;
         wrap_lines := wrap_lines st |}
    else st
  else st.

(** [curses.KEY_PPAGE] in the file view *)
Definition page_up (st : ui) : ui :=
  if (active_column st =? 0)%Z then
    if (0 <? selected_index st)%Z then
      {| terraform_data := terraform_data st;
         view := view st;
         selected_index := Z.max 0 (selected_index st - max_rows);
         selected_block_index := -1;
         file_scroll_offset := Z.max 0 (file_scroll_offset st - max_rows);
         block_scroll_offset := 0;
         content_scroll_offset := content_scroll_offset st;
         active_column := active_column st;
         wrap_lines := wrap_lines st |}
    else st
  else if (active_column st =? 1)%Z then
    if (0 <? selected_block_index st)%Z then
      {| terraform_data := terraform_data st;
         view := view st;
         selected_index := selected_index st;
         selected_block_index := Z.max 0 (selected_block_index st - max_rows);
         file_scroll_offset := file_scroll_offset st;
         block_scroll_offset := Z.max 0 (block_scroll_offset st - max_rows);
         content_scroll_offset := 0;
         active_column := active_column st;
         wrap_lines := wrap_lines st |}
    else st
  else if (active_column st =? 2)%Z then
    if (0 <? content_scroll_offset st)%Z then
      {| terraform_data := terraform_data st;
         view := view st;
         selected_index := selected_index st;
         selected_block_index := selected_block_index st;
         file_scroll_offset := file_scroll_offset st;
         block_scroll_offset := block_scroll_offset st;
         content_scroll_offset := Z.max 0 (content_scroll_offset st - max_rows);
         active_column := active_column st;
         wrap_lines := wrap_lines st |}
    else st
  else st.

(** The state with another active column and block selection. *)
Definition to_column (st : ui) (active_column selected_block_index : Z) : ui :=
  {| terraform_data := terraform_data st;
     view := view st;
     selected_index := selected_index st;
     selected_block_index := selected_block_index;
     file_scroll_offset := file_scroll_offset st;
     block_scroll_offset := block_scroll_offset st;
     content_scroll_offset := content_scroll_offset st;
     active_column := active_column;
     wrap_lines := wrap_lines st |}.

(** The Tab key in the file view *)
Definition tab (st : ui) : outcome ui :=
  let blocks := blocks_again st in
  if (active_column st =? 0)%Z then
    if (0 <? len blocks)%Z then
      Ret (to_column st 1
             (if (selected_block_index st =? -1)%Z then 0%Z else selected_block_index st))
    else Ret st
  else if (active_column st =? 1)%Z then
    content <- selected_content st blocks ;;
    let content_lines :=
      match content with
      | Some block_content => split_on nl block_content
      | None => []
      end in
    if (0 <=? selected_block_index st)%Z && (selected_block_index st <? len blocks)%Z
       && (0 <? len content_lines)%Z
    then Ret (to_column st 2 (selected_block_index st))
    else Ret (to_column st 0 (-1))
  else Ret (to_column st 0 (-1)).

(** The branch [elif view == 1] of the keys: the lists of the file view are
    computed, then the key is looked at. *)
Definition file_view_key (key : Z) (st : ui) : outcome ui :=
  let files := file_names (terraform_data st) in
  blocks <- column_blocks (terraform_data st) (selected_index st) ;;
  content <- selected_content st blocks ;;
  let content_lines := content_lines_of width st content in
  if (key =? KEY_DOWN)%Z then Ret (key_down files blocks content_lines st)
  else if (key =? KEY_UP)%Z then Ret (key_up st)
  else if (key =? KEY_NPAGE)%Z then Ret (page_down files blocks content_lines st)
  else if (key =? KEY_PPAGE)%Z then Ret (page_up st)
  else if (key =? 9)%Z then tab st
  else Ret st.

(** The state after a key that changes the view. *)
Definition to_view (st : ui) (view selected_index : Z) : ui :=
  {| terraform_data := terraform_data st;
     view := view;
     selected_index := selected_index;
     selected_block_index := -1;
     file_scroll_offset := 0;
     block_scroll_offset := 0;
     content_scroll_offset := 0;
     active_column := 0;
     wrap_lines := wrap_lines st |}.

(** The key [R] *)
Definition reload (st : ui) : ui :=
  {| terraform_data := parsed;
     view := view st;
     selected_index := selected_index st;
     selected_block_index :=
       if (active_column st =? 0)%Z then (-1)%Z else selected_block_index st;
     file_scroll_offset := 0;
     block_scroll_offset := 0;
     content_scroll_offset := 0;
     active_column := active_column st;
     wrap_lines := wrap_lines st |}.

(** The state with other data. *)
Definition with_data (st : ui) (terraform_data : data) : ui :=
  {| terraform_data := terraform_data;
     view := view st;
     selected_index := selected_index st;
     selected_block_index := selected_block_index st;
     file_scroll_offset := file_scroll_offset st;
     block_scroll_offset := block_scroll_offset st;
     content_scroll_offset := content_scroll_offset st;
     active_column := active_column st;
     wrap_lines := wrap_lines st |}.

(** [l.index(x)]; [None] is the [ValueError] of a value that is not in the
    list. *)
Fixpoint index_of (x : str) (l : list str) : option Z :=
  match l with
  | [] => None
  | y :: l' =>
      if Py.eqb x y then Some 0%Z
      else match index_of x l' with
           | Some i => Some (i + 1)%Z
           | None => None
           end
  end.

(** The truth value of a key *)
Definition truthy (k : key) : bool :=
  match k with
  | KStr [] => false
  | KStr _ => true
  | KNone => false
  end.

(** The jump to the first result of a search in the file view. *)
Definition jump (st : ui) (file_name : str) (block_type block_name : key) : ui :=
  let files := file_names (terraform_data st) in
  match index_of file_name files with
  | None => st
  | Some file_index =>
      let blocks := blocks_of (data_get file_name (terraform_data st) (VDict [])) in
      let target_block := label block_type block_name in
      let found :=
        if truthy block_type && truthy block_name
        then index_of target_block blocks else None in
      let selected_block_index := default (selected_block_index st) found in
      {| terraform_data := terraform_data st;
         view := view st;
         selected_index := file_index;
         selected_block_index := selected_block_index;
         file_scroll_offset :=
           if (max_rows <=? file_index)%Z then (file_index - max_rows / 2)%Z
           else file_scroll_offset st;
         block_scroll_offset :=
           if (max_rows <=? selected_block_index)%Z
           then (selected_block_index - max_rows / 2)%Z
           else block_scroll_offset st;
         content_scroll_offset := content_scroll_offset st;
         active_column := match found with Some _ => 1%Z | None => active_column st end;
         wrap_lines := wrap_lines st |}
  end.

(** The key [/] *)
Definition search_key (st : ui) : outcome ui :=
  results <- search_results ;;
  match results with
  | Some ((file_name, block_type, block_name) :: _) =>
      if (view st =? 1)%Z then Ret (jump st file_name block_type block_name) else Ret st
  | _ => Ret st
  end.

(** The keys of one round of the loop: the state after the key, or [None]
    when the key ends the loop.  The tests follow the order of the source;
    its second branches for [/], [s] and [h], which come after the branch of
    the file view, can never be taken and are left out. *)
Definition on_key (key : Z) (st : ui) : outcome (option ui) :=
  if (key =? ord "q")%Z then Ret None
  else if (key =? ord "!")%Z then
    Ret (Some
      {| terraform_data := terraform_data st;
         view := 1;
         selected_index := selected_index st;
         selected_block_index := -1;
         file_scroll_offset := 0;
         block_scroll_offset := 0;
         content_scroll_offset := 0;
         active_column := 0;
         wrap_lines := wrap_lines st |})
  else if (key =? ord "@")%Z then Ret (Some (to_view st 2 0))
  else if (key =? ord "#")%Z then Ret (Some (to_view st 3 0))
  else if (key =? ord "R")%Z then Ret (Some (reload st))
  else if (key =? ord "W")%Z then
    Ret (Some (if workspace_result then with_data st parsed else st))
  else if (key =? ord "h")%Z then Ret (Some st)
  else if (key =? ord "/")%Z then st' <- search_key st ;; Ret (Some st')
  else if (key =? ord "s")%Z then st' <- on_save st ;; Ret (Some st')
  else if (key =? ord "w")%Z then
    Ret (Some
      {| terraform_data := terraform_data st;
         view := view st;
         selected_index := selected_index st;
         selected_block_index := selected_block_index st;
         file_scroll_offset := file_scroll_offset st;
         block_scroll_offset := block_scroll_offset st;
         content_scroll_offset := content_scroll_offset st;
         active_column := active_column st;
         wrap_lines := negb (wrap_lines st) |})
  else if (key =? ord "e")%Z then st' <- on_edit st ;; Ret (Some st')
  else if (view st =? 1)%Z then st' <- file_view_key key st ;; Ret (Some st')
  else if (key =? ord "r")%Z then Ret (Some (with_data st parsed))
  else if (key =? ord "t")%Z then
    Ret (Some
      {| terraform_data := terraform_data st;
         view := if (view st =? 2)%Z then 3%Z else 1%Z;
         selected_index := selected_index st;
         selected_block_index := selected_block_index st;
         file_scroll_offset := file_scroll_offset st;
         block_scroll_offset := block_scroll_offset st;
         content_scroll_offset := content_scroll_offset st;
         active_column := active_column st;
         wrap_lines := wrap_lines st |})
  else Ret (Some st).

End Keys.

(** ** What the screen shows of a selection *)

(** The selected file is one of the files and lies in the rows that the
    file column shows. *)
Definition file_on_screen (height : Z) (st : ui) : Prop :=
  (0 <= file_scroll_offset st <= selected_index st
   /\ selected_index st < file_scroll_offset st + max_rows height
   /\ selected_index st < len (file_names (terraform_data st)))%Z.

(** The selected block is one of the blocks of the selected file and lies
    in the rows that the block column shows. *)
Definition block_on_screen (height : Z) (st : ui) : Prop :=
  (0 <= block_scroll_offset st <= selected_block_index st
   /\ selected_block_index st < block_scroll_offset st + max_rows height
   /\ selected_block_index st < len (blocks_again st))%Z.

(** The keys that move the selection, and with the Tab key the keys that
    steer it. *)
Definition moves : list Z := [KEY_DOWN; KEY_UP; KEY_NPAGE; KEY_PPAGE].
Definition steering : list Z := moves ++ [9%Z].

(** The keys that are commands in every view. *)
Definition commands : list Z :=
  map ord (String.list_ascii_of_string "q!@#RWh/swe").

(** Sample data: three files with two variables each, read by the
    fallback. *)
Module Sample3.

Definition two_variables : value :=
  VDict [(KStr (lit "variable"),
          VDict [(KStr (lit "a"), VDict []); (KStr (lit "b"), VDict [])])].

Definition raw : str := lit "variable `a` {}" ++ [nl] ++ lit "variable `b` {}".

Definition three_files : data :=
  [ (lit "a.tf_raw", VStr raw); (lit "a.tf", two_variables);
    (lit "b.tf_raw", VStr raw); (lit "b.tf", two_variables);
    (lit "c.tf_raw", VStr raw); (lit "c.tf", two_variables) ].

Definition start : ui :=
  {| terraform_data := three_files;
     view := 1;
     selected_index := 0;
     selected_block_index := -1;
     file_scroll_offset := 0;
     block_scroll_offset := 0;
     content_scroll_offset := 0;
     active_column := 0;
     wrap_lines := true |}.

Definition on_block : ui :=
  {| terraform_data := three_files;
     view := 1;
     selected_index := 0;
     selected_block_index := 0;
     file_scroll_offset := 0;
     block_scroll_offset := 0;
     content_scroll_offset := 0;
     active_column := 1;
     wrap_lines := true |}.

Definition categories : ui :=
  {| terraform_data := three_files;
     view := 2;
     selected_index := 0;
     selected_block_index := -1;
     file_scroll_offset := 0;
     block_scroll_offset := 0;
     content_scroll_offset := 0;
     active_column := 0;
     wrap_lines := true |}.

Definition second_file : ui :=
  {| terraform_data := three_files;
     view := 1;
     selected_index := 1;
     selected_block_index := -1;
     file_scroll_offset := 0;
     block_scroll_offset := 0;
     content_scroll_offset := 0;
     active_column := 0;
     wrap_lines := true |}.

Definition second_block : ui :=
  {| terraform_data := three_files;
     view := 1;
     selected_index := 0;
     selected_block_index := 1;
     file_scroll_offset := 0;
     block_scroll_offset := 0;
     content_scroll_offset := 0;
     active_column := 1;
     wrap_lines := true |}.

Definition no_save (st : ui) : outcome ui := Ret st.
Definition no_search : outcome (option (list (str * key * key))) := Ret None.

End Sample3.


(** ** The rows of the block column *)

(** [s.ljust(n)] *)
Definition ljust (s : str) (n : Z) : str :=
  s ++ replicate (Z.to_nat (n - len s)) " "%char.

(** The text of a row of the block column for the label [block]. *)
Definition block_row (wrap_lines : bool) (col2_width : Z) (block : str) : str :=
  let display_block :=
    if wrap_lines && (col2_width - 4 <? len block)%Z
    then py_slice block 0 (col2_width - 7) ++ lit "..."
    else block in
  lit "| " ++ ljust display_block (col2_width - 4) ++ lit " ".

(** ** The workspaces *)

(** How [subprocess.run] of a [terraform] command ends. *)
Inductive completed :=
| Completed (stdout : str)
| CalledProcessError
| FileNotFoundError.

(** The name on a line of [terraform workspace list]. *)
Definition workspace_of_line (line : str) : str :=
  if startswith (lit "*") line then strip (drop 2 line) else strip line.

Definition list_terraform_workspaces (result : completed) : list str :=
  match result with
  | Completed stdout => map workspace_of_line (split_on nl (strip stdout))
  | CalledProcessError => [lit "default"]
  | FileNotFoundError => [lit "terraform not found"]
  end.

Definition get_current_terraform_workspace (result : completed) : str :=
  match result with
  | Completed stdout => strip stdout
  | CalledProcessError => lit "default"
  | FileNotFoundError => lit "terraform not found"
  end.

(** A line that [terraform workspace list] prints for a workspace: a star
    and a space before the current one, two spaces before another. *)
Definition workspace_line (row : bool * str) : str :=
  (if fst row then lit "* " else lit "  ") ++ snd row.

(** What [terraform workspace list] prints for the workspaces [rows]. *)
Definition workspace_listing (rows : list (bool * str)) : str :=
  concat (map (fun row => workspace_line row ++ [nl]) rows).

(** A name that a workspace can have in a listing: it is not empty, holds
    no space character and does not start with a star. *)
Definition workspace_name (name : str) : Prop :=
  name <> [] /\ Forall (fun c => isspace c = false) name /\ ~ startswith (lit "*") name = true.

(** ** [save_block_to_file] *)



Section Save.

(** The answer to the prompt, or [None] when [input] raises. *)
Variable typed : option str.

(** Whether [open(path, 'w')] succeeds. *)
Variable writable : string -> bool.

(** The text of [str(e)] for what went wrong. *)
Variable error_text : str.


End Save.


(** ** [parse_terraform_files] *)

(** [terraform_data[k] = v]: a present key keeps its place, a new one goes
    last. *)
Fixpoint data_set (k : str) (v : value) (d : data) : data :=
  match d with
  | [] => [(k, v)]
  | (k', v') :: d' => if Py.eqb k k' then (k', v) :: d' else (k', v') :: data_set k v d'
  end.

(** [file.endswith(".tf") or file.endswith(".tfvars")] *)
Definition is_terraform_file (file : str) : bool :=
  endswith (lit ".tf") file || endswith (lit ".tfvars") file.

Section Parse.

(** [os.listdir(directory)] *)
Variable listdir : list str.

(** What reading a file of the directory gives: its text, or the text of
    the error that [open] or [read] raises. *)
Variable read : str -> str + str.

(** What [hcl2.load] gives for a file of the directory: [None] when it, or
    the [open] before it, raises. *)
Variable hcl2_load : str -> option value.

(** The text kept under [file + "_raw"]. *)
Definition raw_entry (file : str) : str :=
  match read file with
  | inl raw => raw
  | inr e => lit "Error reading file: " ++ e
  end.

(** Whether the file can be read. *)
Definition readable (file : str) : bool :=
  match read file with
  | inl _ => true
  | inr _ => false
  end.

(** The body of the loop over the files of the directory. *)
Definition parse_file (file : str) (terraform_data : data) : outcome data :=
  if is_terraform_file file then
    match read file with
    | inr e =>
        Ret (data_set (file ++ lit "_raw") (VStr (lit "Error reading file: " ++ e))
               terraform_data)
    | inl raw =>
        let terraform_data := data_set (file ++ lit "_raw") (VStr raw) terraform_data in
        match hcl2_load file with
        | Some content => Ret (data_set file content terraform_data)
        | None =>
            raw_content <-
              raw_text (data_get (file ++ lit "_raw") terraform_data (VStr [])) ;;
            structure <- extract_fallback_structure raw_content ;;
            Ret (data_set file (of_tree structure) terraform_data)
        end
    end
  else Ret terraform_data.

Fixpoint parse_files (files : list str) (terraform_data : data) : outcome data :=
  match files with
  | [] => Ret terraform_data
  | file :: rest =>
      terraform_data' <- parse_file file terraform_data ;;
      parse_files rest terraform_data'
  end.

Definition parse_terraform_files : outcome data := parse_files listdir [].

End Parse.

(** The keys that the loop adds for a file. *)
Definition entries_of (read : str -> str + str) (file : str) : list str :=
  if is_terraform_file file then
    if readable read file then [file ++ lit "_raw"; file] else [file ++ lit "_raw"]
  else [].

(** A sample directory: a file that is read, a file that is no Terraform
    file, and a Terraform file that cannot be read. *)
Module Sample4.

Definition directory : list str := [lit "main.tf"; lit "notes.txt"; lit "prod.tfvars"].

Definition read (file : str) : str + str :=
  if Py.eqb file (lit "main.tf") then inl (lit "variable `region` {}")
  else inr (lit "Permission denied").

Definition no_hcl2 (file : str) : option value := None.

End Sample4.

(** The key [k] is neither a Terraform file of [files] nor the key of the
    text of one. *)
Definition apart (k : str) (files : list str) : Prop :=
  forall f, f ∈ files -> is_terraform_file f = true -> k <> f /\ k <> f ++ lit "_raw".


(** ** [prompt_for_search] *)

(** [c.lower()] for a code point below 256: the letters [A] to [Z] and the
    capital letters of Latin-1. *)
Definition lower_char (c : ascii) : ascii :=
  let n := code c in
  if between 65 90 n || (between 192 222 n && negb (n =? 215))
  then ascii_of_nat (n + 32)
  else c.

(** [s.lower()] *)
Definition lower (s : str) : str := map lower_char s.

(** A key that is passed on as a text; a key that is [None] is outside the
    model. *)
Definition key_str (k : key) : outcome str :=
  match k with
  | KStr s => Ret s
  | KNone => Beyond
  end.

(** [for a in l: results += f(a)] *)
Fixpoint collect {A R : Type} (f : A -> outcome (list R)) (l : list A) : outcome (list R) :=
  match l with
  | [] => Ret []
  | a :: rest =>
      found <- f a ;;
      more <- collect f rest ;;
      Ret (found ++ more)
  end.

(** A result of a search: the file, the type and the name of a block. *)
Abbreviation result := (str * key * key)%type.

(** The test of one block of a file. *)
Definition search_block (search_term raw_content file_name : str) (block_type block_name : key)
    : outcome (list result) :=
  type_text <- key_str block_type ;;
  name_text <- key_str block_name ;;
  block_content <- extract_block_content raw_content type_text name_text ;;
  if contains (lower search_term) (lower block_content)
  then Ret [(file_name, block_type, block_name)]
  else Ret [].

(** The loop over the items of one block type of a file. *)
Definition search_items (search_term raw_content file_name : str) (block_type : key)
    (block_items : value) : outcome (list result) :=
  match block_items with
  | VDict d =>
      collect (fun kv => search_block search_term raw_content file_name block_type (fst kv)) d
  | VList l =>
      collect (fun item =>
                 match item with
                 | VDict d =>
                     collect (fun kv => search_block search_term raw_content file_name
                                          block_type (fst kv)) d
                 | _ => Ret []
                 end) l
  | _ => Ret []
  end.

(** The body of the loop over the entries of [data].  An entry of a file
    that is no dictionary has no [items]; it is outside the model. *)
Definition search_file (search_term : str) (terraform_data : data) (entry : str * value)
    : outcome (list result) :=
  let file_name := fst entry in
  let file_content := snd entry in
  if endswith (lit "_raw") file_name then Ret []
  else
    raw_content <- raw_text (data_get (file_name ++ lit "_raw") terraform_data (VStr [])) ;;
    match raw_content with
    | [] => Ret []
    | _ =>
        if contains (lower search_term) (lower raw_content) then
          match file_content with
          | VDict d =>
              collect (fun kv => search_items search_term raw_content file_name
                                   (fst kv) (snd kv)) d
          | _ => Beyond
          end
        else Ret []
    end.

(** [prompt_for_search], for the answer [typed] to its prompt: [None] when
    the search is cancelled. *)
Definition prompt_for_search (typed : str) (terraform_data : data)
    : outcome (option (list result)) :=
  match strip typed with
  | [] => Ret None
  | search_term =>
      results <- collect (search_file search_term terraform_data) terraform_data ;;
      Ret (Some results)
  end.

(** Sample: a search for [region] in one file. *)
Module Sample5.

Definition raw : str := lit "variable `zone` {}" ++ [nl] ++ lit "variable `region` {}".

Definition one_file : data :=
  [ (lit "main.tf_raw", VStr raw);
    (lit "main.tf",
     VDict [(KStr (lit "variable"),
             VDict [(KStr (lit "zone"), VDict []); (KStr (lit "region"), VDict [])])]) ].

Definition start : ui :=
  {| terraform_data := one_file;
     view := 1;
     selected_index := 0;
     selected_block_index := -1;
     file_scroll_offset := 0;
     block_scroll_offset := 0;
     content_scroll_offset := 0;
     active_column := 0;
     wrap_lines := true |}.

Definition found : ui :=
  {| terraform_data := one_file;
     view := 1;
     selected_index := 0;
     selected_block_index := 1;
     file_scroll_offset := 0;
     block_scroll_offset := 0;
     content_scroll_offset := 0;
     active_column := 1;
     wrap_lines := true |}.

End Sample5.


(** * Properties *)

(** ** The matcher against the meaning of patterns *)

Section MatcherFacts.

Variable s : str.

Lemma lang_le r i j : lang s r i j -> i <= j.
Proof. induction 1; lia. Qed.

Lemma lang_bound r i j : lang s r i j -> i <= length s -> j <= length s.
Proof.
  induction 1; intros Hi; auto; try lia;
    match goal with
    | H : s !! _ = Some _ |- _ => apply lookup_lt_Some in H; lia
    end.
Qed.

Lemma step_char_Some p i j :
  step_char s p i = Some j -> exists x, s !! i = Some x /\ p x = true /\ j = S i.
Proof.
  unfold step_char. destruct (s !! i) as [x|]; [|discriminate].
  destruct (p x) eqn:Hp; [|discriminate]. intros [= <-]. eauto.
Qed.

Lemma step_char_intro p i x :
  s !! i = Some x -> p x = true -> step_char s p i = Some (S i).
Proof. unfold step_char. intros -> ->. reflexivity. Qed.

Lemma rep_sound body g r :
  sound_at s r body ->
  forall fuel i c k res, rep body g k fuel i c = Some res ->
    exists j c', lang s (Star g r) i j /\ k j c' = Some res.
Proof.
  intros Hbody. induction fuel as [|fuel IH]; intros i c k res; simpl.
  - intros Hk. exists i, c. split; [constructor | exact Hk].
  - set (again := fun j c' => if i <? j then rep body g k fuel j c' else None).
    assert (Hagain : body i c again = Some res ->
              exists j c', lang s (Star g r) i j /\ k j c' = Some res).
    { intros Hb. apply Hbody in Hb as (j & c1 & Hl & Ha). unfold again in Ha.
      destruct (Nat.ltb_spec i j) as [Hlt|]; [|discriminate].
      apply IH in Ha as (j2 & c2 & Hl2 & Hk).
      exists j2, c2. split; [eapply L_Star_step; eauto | exact Hk]. }
    destruct g.
    + destruct (body i c again) as [res'|] eqn:Hb.
      * intros [= <-]. auto.
      * intros Hk. exists i, c. split; [constructor | exact Hk].
    + destruct (k i c) as [res'|] eqn:Hk.
      * intros [= <-]. exists i, c. split; [constructor | exact Hk].
      * auto.
Qed.

Lemma m_sound r : sound_at s r (m s r).
Proof.
  induction r as [ | x | negate items | dotall | ml | ml | r1 IH1 r2 IH2 | r1 IH1 r2 IH2
                 | g r IH | g r IH | g r IH | n r IH ];
    intros i c k res; cbn [m].
  - intros Hk. exists i, c. split; [constructor | exact Hk].
  - destruct (step_char s (Ascii.eqb x) i) as [j|] eqn:Hs; [|discriminate].
    apply step_char_Some in Hs as (y & Hy & Hp & ->).
    apply Ascii.eqb_eq in Hp as <-.
    intros Hk. exists (S i), c. split; [constructor; exact Hy | exact Hk].
  - destruct (step_char s (in_set negate items) i) as [j|] eqn:Hs; [|discriminate].
    apply step_char_Some in Hs as (y & Hy & Hp & ->).
    intros Hk. exists (S i), c. split; [econstructor; eauto | exact Hk].
  - destruct (step_char s _ i) as [j|] eqn:Hs; [|discriminate].
    apply step_char_Some in Hs as (y & Hy & Hp & ->).
    intros Hk. exists (S i), c. split; [econstructor; eauto | exact Hk].
  - destruct (at_bol s ml i) eqn:Hb; [|discriminate].
    intros Hk. exists i, c. split; [constructor; exact Hb | exact Hk].
  - destruct (at_eol s ml i) eqn:Hb; [|discriminate].
    intros Hk. exists i, c. split; [constructor; exact Hb | exact Hk].
  - intros H. apply IH1 in H as (j & c1 & Hl1 & H).
    apply IH2 in H as (j2 & c2 & Hl2 & Hk).
    exists j2, c2. split; [econstructor; eauto | exact Hk].
  - destruct (m s r1 i c k) as [res'|] eqn:H1.
    + intros [= <-]. apply IH1 in H1 as (j & c1 & Hl & Hk).
      exists j, c1. split; [apply L_Alt_l; exact Hl | exact Hk].
    + intros H2. apply IH2 in H2 as (j & c1 & Hl & Hk).
      exists j, c1. split; [apply L_Alt_r; exact Hl | exact Hk].
  - apply rep_sound. exact IH.
  - intros H. apply IH in H as (j & c1 & Hl & H).
    apply (rep_sound _ g r IH) in H as (j2 & c2 & Hl2 & Hk).
    exists j2, c2. split; [econstructor; eauto | exact Hk].
  - assert (Hsome : m s r i c k = Some res ->
              exists j c', lang s (Opt g r) i j /\ k j c' = Some res).
    { intros H. apply IH in H as (j & c1 & Hl & Hk).
      exists j, c1. split; [apply L_Opt_some; exact Hl | exact Hk]. }
    assert (Hnone : k i c = Some res ->
              exists j c', lang s (Opt g r) i j /\ k j c' = Some res).
    { intros Hk. exists i, c. split; [apply L_Opt_none | exact Hk]. }
    destruct g.
    + destruct (m s r i c k) as [res'|] eqn:H1; [intros [= <-]|]; auto.
    + destruct (k i c) as [res'|] eqn:H1; [intros [= <-]|]; auto.
  - intros H. apply IH in H as (j & c1 & Hl & Hk).
    exists j, ((n, (i, j)) :: c1). split; [constructor; exact Hl | exact Hk].
Qed.

Lemma rep_complete body g r :
  complete_at s r body ->
  forall i j, lang s (Star g r) i j ->
  forall fuel c k, length s - i < fuel -> i <= length s ->
    (forall c', is_Some (k j c')) -> is_Some (rep body g k fuel i c).
Proof.
  intros Hbody i j H. remember (Star g r) as R eqn:HR.
  induction H as [ | | | | | | | | | g' r' i | g' r' i j1 j Hl _ Hlt Hs IH | | | | ];
    try discriminate; injection HR as -> ->;
    intros fuel c k Hfuel Hi Hk; (destruct fuel as [|fuel]; [lia|]); simpl.
  - destruct g.
    + destruct (body i c _); [eauto | apply Hk].
    + destruct (k i c) eqn:Hkc; [eauto|]. destruct (Hk c) as [? Hk']. congruence.
  - assert (Hj1 : j1 <= length s) by (eapply lang_bound; eauto).
    assert (Hagain : is_Some (body i c (fun j c' =>
               if i <? j then rep body g k fuel j c' else None))).
    { eapply Hbody; eauto. intros c'.
      destruct (Nat.ltb_spec i j1); [|lia]. apply IH; auto. lia. }
    destruct g.
    + destruct Hagain as [res ->]. eauto.
    + destruct (k i c); eauto.
Qed.

Lemma m_complete r : complete_at s r (m s r).
Proof.
  induction r as [ | x | negate items | dotall | ml | ml | r1 IH1 r2 IH2 | r1 IH1 r2 IH2
                 | g r IH | g r IH | g r IH | n r IH ];
    intros i j c k Hl Hi Hk; cbn [m].
  - inversion Hl; subst. apply Hk.
  - inversion Hl; subst.
    erewrite step_char_intro; eauto. apply Ascii.eqb_refl.
  - inversion Hl; subst. erewrite step_char_intro; eauto.
  - inversion Hl; subst. erewrite step_char_intro; eauto.
  - inversion Hl; subst.
    match goal with H : at_bol _ _ _ = true |- _ => rewrite H end. apply Hk.
  - inversion Hl; subst.
    match goal with H : at_eol _ _ _ = true |- _ => rewrite H end. apply Hk.
  - inversion Hl as [ | | | | | | ? ? ? j1 ? Hl1 Hl2 | | | | | | | | ]; subst.
    eapply IH1; eauto. intros c'. eapply IH2; eauto. eapply lang_bound; eauto.
  - destruct (m s r1 i c k) eqn:H1; [eauto|].
    inversion Hl; subst.
    + assert (Hs : is_Some (m s r1 i c k)) by (eapply IH1; eauto).
      rewrite H1 in Hs. destruct Hs; discriminate.
    + eapply IH2; eauto.
  - eapply rep_complete; eauto; lia.
  - inversion Hl as [ | | | | | | | | | | | ? ? ? j1 ? Hl1 Hl2 | | | ]; subst.
    eapply IH; eauto. intros c'.
    assert (j1 <= length s) by (eapply lang_bound; eauto).
    eapply rep_complete; eauto; lia.
  - inversion Hl; subst.
    + assert (Hs : is_Some (m s r i c k)) by (eapply IH; eauto).
      destruct g; [destruct Hs as [? ->]; eauto|]. destruct (k i c); eauto.
    + destruct g.
      * destruct (m s r _ c k); [eauto | apply Hk].
      * destruct (Hk c) as [? ->]. eauto.
  - inversion Hl; subst. eapply IH; eauto.
Qed.

(** One attempt. *)
Lemma match_at_sound r must_advance i mt :
  match_at s r must_advance i = Some mt ->
  m_start mt = i /\ lang s r i (m_end mt).
Proof.
  unfold match_at.
  destruct (m s r i [] _) as [[j c]|] eqn:H; [|discriminate].
  intros [= <-]. simpl. split; [reflexivity|].
  apply m_sound in H as (j' & c' & Hl & Hk).
  destruct (must_advance && (j' =? i)); [discriminate|].
  injection Hk as -> _. exact Hl.
Qed.

Lemma match_at_complete r i j :
  lang s r i j -> i <= length s -> is_Some (match_at s r false i).
Proof.
  intros Hl Hi. unfold match_at.
  assert (Hs : is_Some (m s r i []
            (fun j c => if false && (j =? i) then None else Some (j, c)))).
  { eapply m_complete; eauto. }
  destruct Hs as [[j' c'] ->]. eauto.
Qed.

Lemma search_go_sound r n : forall must_advance i mt,
  search_go s r must_advance n i = Some mt ->
  lang s r (m_start mt) (m_end mt) /\ i <= m_start mt <= i + n.
Proof.
  induction n as [|n IH]; intros ma i mt; simpl;
    destruct (match_at s r ma i) as [mt'|] eqn:Hm; try discriminate.
  - intros [= <-]. apply match_at_sound in Hm as [-> Hl]. split; [exact Hl | lia].
  - intros [= <-]. apply match_at_sound in Hm as [-> Hl]. split; [exact Hl | lia].
  - intros H. apply IH in H as [Hl Hb]. split; [exact Hl | lia].
Qed.

Lemma search_go_leftmost r n : forall i mt,
  search_go s r false n i = Some mt -> i + n <= length s ->
  forall i' j', i <= i' < m_start mt -> ~ lang s r i' j'.
Proof.
  induction n as [|n IH]; intros i mt; simpl;
    destruct (match_at s r false i) as [mt'|] eqn:Hm; try discriminate.
  - intros [= <-] _ i' j' Hi'. apply match_at_sound in Hm as [Hs _]. lia.
  - intros [= <-] _ i' j' Hi'. apply match_at_sound in Hm as [Hs _]. lia.
  - intros H Hn i' j' Hi' Hl.
    destruct (decide (i' = i)) as [->|Hne].
    + apply match_at_complete in Hl; [|lia]. rewrite Hm in Hl. destruct Hl; discriminate.
    + eapply (IH (S i)); eauto; lia.
Qed.

Lemma search_go_none r n : forall i,
  search_go s r false n i = None -> i + n <= length s ->
  forall i' j', i <= i' <= i + n -> ~ lang s r i' j'.
Proof.
  induction n as [|n IH]; intros i; simpl;
    destruct (match_at s r false i) as [mt'|] eqn:Hm; try discriminate;
    intros H Hn i' j' Hi' Hl.
  - assert (i' = i) as -> by lia.
    apply match_at_complete in Hl; [|lia]. rewrite Hm in Hl. destruct Hl; discriminate.
  - destruct (decide (i' = i)) as [->|Hne].
    + apply match_at_complete in Hl; [|lia]. rewrite Hm in Hl. destruct Hl; discriminate.
    + eapply (IH (S i)); eauto; lia.
Qed.

(** [re.search] finds the leftmost match, and fails only when there is
    none. *)
Lemma search_Some r mt :
  search s r = Some mt -> leftmost s r (m_start mt) (m_end mt).
Proof.
  unfold search, search_from. simpl. rewrite Nat.sub_0_r. intros H.
  pose proof (search_go_sound _ _ _ _ _ H) as [Hl Hb].
  split; [exact Hl|]. split; [lia|].
  intros i' j' Hi'. eapply search_go_leftmost; eauto; lia.
Qed.

Lemma search_None r : search s r = None -> no_match s r.
Proof.
  unfold search, search_from. simpl. rewrite Nat.sub_0_r. intros H i j Hi.
  eapply search_go_none; eauto; lia.
Qed.

Lemma search_is_Some r i j :
  lang s r i j -> i <= length s -> is_Some (search s r).
Proof.
  intros Hl Hi. destruct (search s r) eqn:H; [eauto|].
  apply search_None in H. exfalso. eapply H; eauto.
Qed.

(** Every match that [re.finditer] yields is a match of the pattern. *)
Lemma finditer_go_sound r fuel : forall must_advance i mt,
  mt ∈ finditer_go s r fuel must_advance i ->
  lang s r (m_start mt) (m_end mt) /\ m_start mt <= length s.
Proof.
  induction fuel as [|fuel IH]; intros ma i mt; simpl.
  - intros H. inversion H.
  - unfold search_from.
    destruct (Nat.leb_spec i (length s)) as [Hi|Hi]; [|intros H; inversion H].
    destruct (search_go s r ma (length s - i) i) as [mt'|] eqn:Hs; [|intros H; inversion H].
    intros H. apply elem_of_cons in H as [->|H].
    + apply search_go_sound in Hs as [Hl Hb]. split; [exact Hl | lia].
    + eapply IH; eauto.
Qed.

Lemma finditer_sound r mt :
  mt ∈ finditer s r -> lang s r (m_start mt) (m_end mt) /\ m_start mt <= length s.
Proof. apply finditer_go_sound. Qed.

(** *** The bounds of the loops are never what stops them *)

(** The matcher calls what follows only at offsets of the text from [i]
    on. *)
Lemma rep_ext body g :
  (forall i c k1 k2, i <= length s ->
     (forall j c', i <= j <= length s -> k1 j c' = k2 j c') ->
     body i c k1 = body i c k2) ->
  forall fuel i c k1 k2, i <= length s ->
    (forall j c', i <= j <= length s -> k1 j c' = k2 j c') ->
    rep body g k1 fuel i c = rep body g k2 fuel i c.
Proof.
  intros Hbody. induction fuel as [|fuel IH]; intros i c k1 k2 Hi Hk; simpl.
  - apply Hk. lia.
  - rewrite (Hk i c) by lia.
    rewrite (Hbody i c
               (fun j c' => if i <? j then rep body g k1 fuel j c' else None)
               (fun j c' => if i <? j then rep body g k2 fuel j c' else None)); auto.
    intros j c' Hj. destruct (i <? j); [|reflexivity].
    apply IH; [lia|]. intros j' c'' Hj'. apply Hk. lia.
Qed.

Lemma m_ext r :
  forall i c k1 k2, i <= length s ->
    (forall j c', i <= j <= length s -> k1 j c' = k2 j c') ->
    m s r i c k1 = m s r i c k2.
Proof.
  induction r as [ | x | negate items | dotall | ml | ml | r1 IH1 r2 IH2 | r1 IH1 r2 IH2
                 | g r IH | g r IH | g r IH | n r IH ];
    intros i c k1 k2 Hi Hk; cbn [m].
  - apply Hk. lia.
  - destruct (step_char s _ i) as [j|] eqn:Hs; [|reflexivity].
    apply step_char_Some in Hs as (y & Hy & _ & ->).
    apply lookup_lt_Some in Hy. apply Hk. lia.
  - destruct (step_char s _ i) as [j|] eqn:Hs; [|reflexivity].
    apply step_char_Some in Hs as (y & Hy & _ & ->).
    apply lookup_lt_Some in Hy. apply Hk. lia.
  - destruct (step_char s _ i) as [j|] eqn:Hs; [|reflexivity].
    apply step_char_Some in Hs as (y & Hy & _ & ->).
    apply lookup_lt_Some in Hy. apply Hk. lia.
  - rewrite (Hk i c) by lia. reflexivity.
  - rewrite (Hk i c) by lia. reflexivity.
  - apply IH1; [exact Hi|]. intros j c' Hj. apply IH2; [lia|].
    intros j' c'' Hj'. apply Hk. lia.
  - rewrite (IH1 i c k1 k2), (IH2 i c k1 k2); auto.
  - apply rep_ext; auto.
  - apply IH; [exact Hi|]. intros j c' Hj. apply rep_ext; auto; [lia|].
    intros j' c'' Hj'. apply Hk. lia.
  - rewrite (IH i c k1 k2), (Hk i c); auto; lia.
  - apply IH; [exact Hi|]. intros j c' Hj. apply Hk. lia.
Qed.

(** A repetition gives the same result with any bound above the number of
    characters left. *)
Lemma rep_fuel r g k :
  forall fuel1 fuel2 i c, i <= length s ->
    length s - i < fuel1 -> length s - i < fuel2 ->
    rep (m s r) g k fuel1 i c = rep (m s r) g k fuel2 i c.
Proof.
  induction fuel1 as [|fuel1 IH]; intros fuel2 i c Hi H1 H2; [lia|].
  destruct fuel2 as [|fuel2]; [lia|]. simpl.
  rewrite (m_ext r i c
             (fun j c' => if i <? j then rep (m s r) g k fuel1 j c' else None)
             (fun j c' => if i <? j then rep (m s r) g k fuel2 j c' else None)); auto.
  intros j c' Hj. destruct (Nat.ltb_spec i j); [|reflexivity].
  apply IH; lia.
Qed.

(** After an empty match the next match of [finditer] ends further on. *)
Lemma match_at_advances r i mt :
  match_at s r true i = Some mt -> i < m_end mt.
Proof.
  unfold match_at.
  destruct (m s r i [] _) as [[j c]|] eqn:H; [|discriminate].
  intros [= <-]. simpl.
  apply m_sound in H as (j' & c' & Hl & Hk). simpl in Hk.
  destruct (Nat.eqb_spec j' i); [discriminate|].
  injection Hk as -> _. apply lang_le in Hl. lia.
Qed.

Lemma search_go_advances r n : forall must_advance i mt,
  search_go s r must_advance n i = Some mt ->
  i <= m_end mt /\ (must_advance = true -> i < m_end mt).
Proof.
  induction n as [|n IH]; intros ma i mt; simpl;
    destruct (match_at s r ma i) as [mt'|] eqn:Hm; try discriminate.
  - intros [= <-]. pose proof (match_at_sound _ _ _ _ Hm) as [_ Hl].
    apply lang_le in Hl. split; [lia|]. intros ->. by apply match_at_advances in Hm.
  - intros [= <-]. pose proof (match_at_sound _ _ _ _ Hm) as [_ Hl].
    apply lang_le in Hl. split; [lia|]. intros ->. by apply match_at_advances in Hm.
  - intros H. pose proof (search_go_sound _ _ _ _ _ H) as [Hl Hb].
    apply lang_le in Hl. split; lia.
Qed.

(** [finditer] gives the same matches with any larger bound. *)
Lemma finditer_go_fuel r : forall fuel1 fuel2 (must_advance : bool) i,
  2 * (length s - i) + (if must_advance then 0 else 1) < fuel1 ->
  2 * (length s - i) + (if must_advance then 0 else 1) < fuel2 ->
  finditer_go s r fuel1 must_advance i = finditer_go s r fuel2 must_advance i.
Proof.
  induction fuel1 as [|fuel1 IH]; intros fuel2 ma i H1 H2; [lia|].
  destruct fuel2 as [|fuel2]; [lia|]. simpl.
  unfold search_from. destruct (Nat.leb_spec i (length s)) as [Hi|Hi]; [|reflexivity].
  destruct (search_go s r ma (length s - i) i) as [mt|] eqn:Hs; [|reflexivity].
  f_equal.
  pose proof (search_go_sound _ _ _ _ _ Hs) as [Hl Hb].
  pose proof (search_go_advances _ _ _ _ _ Hs) as [Hle Hlt].
  pose proof (lang_le _ _ _ Hl) as Hse.
  assert (m_end mt <= length s) by (eapply lang_bound; eauto; lia).
  destruct (Nat.eqb_spec (m_end mt) (m_start mt)) as [Heq|Hne].
  - apply IH; destruct ma; try lia; specialize (Hlt eq_refl); lia.
  - apply IH; destruct ma; lia.
Qed.

End MatcherFacts.

(** ** Facts about [str] *)

Lemma eqb_eq (a b : str) : Py.eqb a b = true <-> a = b.
Proof.
  revert b. induction a as [|x a IH]; intros [|y b]; simpl; split; try done.
  - intros [Hx Hab]%andb_prop. apply Ascii.eqb_eq in Hx as ->.
    apply IH in Hab as ->. reflexivity.
  - intros [= -> ->]. rewrite Ascii.eqb_refl. simpl. apply IH. reflexivity.
Qed.

Lemma startswith_app (p t : str) : startswith p (p ++ t) = true.
Proof. induction p as [|x p IH]; simpl; [done|]. by rewrite Ascii.eqb_refl. Qed.

Lemma startswith_true (p s : str) :
  startswith p s = true -> exists t, s = p ++ t.
Proof.
  revert s. induction p as [|x p IH]; intros s; simpl.
  - eauto.
  - destruct s as [|y s]; [done|].
    intros [Hx Hp]%andb_prop. apply Ascii.eqb_eq in Hx as ->.
    apply IH in Hp as [t ->]. eauto.
Qed.

Lemma find_go_None (p s : str) (i : nat) :
  find_go p s i = None -> forall k, startswith p (drop k s) = false.
Proof.
  revert i. induction s as [|x s IH]; intros i; simpl.
  - destruct (startswith p []) eqn:Hp; [done|]. intros _ k. by rewrite drop_nil.
  - destruct (startswith p (x :: s)) eqn:Hp; [done|].
    intros H [|k]; [exact Hp|]. simpl. eapply IH; eauto.
Qed.

Lemma find_go_Some (p s : str) (i j : nat) :
  find_go p s i = Some j -> i <= j /\ startswith p (drop (j - i) s) = true.
Proof.
  revert i. induction s as [|x s IH]; intros i; simpl.
  - destruct (startswith p []) eqn:Hp; [|done]. intros [= <-].
    rewrite Nat.sub_diag. simpl. auto.
  - destruct (startswith p (x :: s)) eqn:Hp.
    + intros [= <-]. rewrite Nat.sub_diag. simpl. auto.
    + intros H. apply IH in H as [Hle H]. split; [lia|].
      replace (j - i) with (S (j - S i)) by lia. exact H.
Qed.

Lemma contains_false (p s : str) :
  contains p s = false -> forall k, startswith p (drop k s) = false.
Proof.
  unfold contains, find. rewrite drop_0.
  destruct (find_go p s 0) eqn:H; [done|]. intros _. eapply find_go_None; eauto.
Qed.

Lemma contains_true (p s : str) : contains p s = true -> substring p s.
Proof.
  unfold contains, find. rewrite drop_0.
  destruct (find_go p s 0) as [j|] eqn:H; [|done]. intros _.
  apply find_go_Some in H as [_ H]. apply startswith_true in H as [t Ht].
  exists (take (j - 0) s), t. rewrite <- Ht. by rewrite take_drop.
Qed.

Lemma substring_contains (p s : str) : substring p s -> contains p s = true.
Proof.
  intros (pre & post & ->). destruct (contains p _) eqn:H; [done|].
  pose proof (contains_false _ _ H (length pre)) as Hk.
  rewrite drop_app_length in Hk. by rewrite startswith_app in Hk.
Qed.

(** ** [str.replace] *)







(** ** The commit step of [edit_block_content] *)

Section EditFacts.

Variable temp_file : files -> option string.
Variable run_editor : string -> files -> option files.
Variable writable : string -> bool.
Variable error_text : string -> str.

Lemma commit_stale (file_path temp_file_path : string) (block_content edited current : str)
    (fs : files) :
  fs !! temp_file_path = Some edited ->
  fs !! file_path = Some current ->
  ~ substring block_content current ->
  commit writable error_text file_path temp_file_path block_content fs
  = (fs, false, not_located).
Proof.
  intros Ht Hf Hno. unfold commit. rewrite Ht, Hf.
  destruct (contains block_content current) eqn:Hc; [|reflexivity].
  apply contains_true in Hc. contradiction.
Qed.

Lemma commit_failure_keeps_files (file_path temp_file_path : string) (block_content : str)
    (fs fs' : files) (message : str) :
  commit writable error_text file_path temp_file_path block_content fs
  = (fs', false, message) -> fs' = fs.
Proof.
  unfold commit.
  destruct (fs !! temp_file_path); [|by intros [= <- _]].
  destruct (fs !! file_path); [|by intros [= <- _]].
  destruct (contains _ _); [|by intros [= <- _]].
  destruct (writable file_path); [done | by intros [= <- _]].
Qed.

End EditFacts.


(** C9.  When the editor has returned and the captured block text is not a
    literal substring of what the file then holds, the edit reports failure,
    the file holds what it held, and the message says that the block could
    not be located (provided the temporary file can still be read). *)
Theorem stale_block_leaves_file_untouched
    (temp_file : files -> option string) (run_editor : string -> files -> option files)
    (writable : string -> bool) (error_text : string -> str)
    (file_path temp_file_path : string) (block_type block_name block_content current : str)
    (fs fs1 : files) :
  temp_file fs = Some temp_file_path ->
  run_editor temp_file_path (<[temp_file_path := block_content]> fs) = Some fs1 ->
  temp_file_path <> file_path ->
  fs1 !! file_path = Some current ->
  ~ substring block_content current ->
  exists message,
    edit_block_content temp_file run_editor writable error_text
      file_path block_type block_name block_content fs
    = (delete temp_file_path fs1, false, message)
    /\ delete temp_file_path fs1 !! file_path = Some current
    /\ (is_Some (fs1 !! temp_file_path) -> message = not_located).
Proof.
  intros Htemp Hrun Hne Hcur Hno. unfold edit_block_content. rewrite Htemp, Hrun.
  destruct (fs1 !! temp_file_path) as [edited|] eqn:Hed.
  - rewrite (commit_stale writable error_text _ _ _ edited current) by assumption.
    exists not_located. split; [reflexivity|]. split; [|reflexivity].
    by rewrite lookup_delete_ne.
  - unfold commit. rewrite Hed.
    eexists. split; [reflexivity|]. split; [by rewrite lookup_delete_ne|].
    intros [? ?]; discriminate.
Qed.

(** ** The bracket counter *)

Lemma char_at_lt (raw_content : str) (i : nat) :
  i < length raw_content ->
  exists c, raw_content !! i = Some c /\ char_at raw_content i = Ret c.
Proof.
  intros Hi. destruct (lookup_lt_is_Some_2 raw_content i Hi) as [c Hc].
  exists c. unfold char_at. by rewrite Hc.
Qed.

Lemma count_brackets_unfold (raw_content : str) (fuel bracket_count current_idx : nat) :
  count_brackets raw_content (S fuel) bracket_count current_idx =
  if (0 <? bracket_count) && (S current_idx <? length raw_content) then
    c <- char_at raw_content (S current_idx) ;;
    if Ascii.eqb c "{" then
      count_brackets raw_content fuel (S bracket_count) (S current_idx)
    else if Ascii.eqb c "}" then
      count_brackets raw_content fuel (bracket_count - 1) (S current_idx)
    else count_brackets raw_content fuel bracket_count (S current_idx)
  else Ret (bracket_count, current_idx).
Proof. reflexivity. Qed.

(** The loop gives the same result with any bound that covers the
    characters left. *)
Lemma count_brackets_fuel (raw_content : str) :
  forall fuel1 fuel2 bracket_count current_idx,
    length raw_content - S current_idx <= fuel1 ->
    length raw_content - S current_idx <= fuel2 ->
    count_brackets raw_content fuel1 bracket_count current_idx
    = count_brackets raw_content fuel2 bracket_count current_idx.
Proof.
  induction fuel1 as [|fuel1 IH]; intros fuel2 bc idx H1 H2.
  - assert (Hend : (S idx <? length raw_content) = false) by (apply Nat.ltb_ge; lia).
    destruct fuel2; simpl; rewrite Hend, andb_false_r; reflexivity.
  - destruct fuel2 as [|fuel2].
    + assert (Hend : (S idx <? length raw_content) = false) by (apply Nat.ltb_ge; lia).
      simpl. rewrite Hend, andb_false_r. reflexivity.
    + rewrite !count_brackets_unfold.
      destruct ((0 <? bc) && (S idx <? length raw_content)); [|reflexivity].
      destruct (char_at raw_content (S idx)) as [c| |]; simpl; try reflexivity.
      destruct (Ascii.eqb c "{"); [apply IH; lia|].
      destruct (Ascii.eqb c "}"); apply IH; lia.
Qed.

(** The loop never reads outside the text: it returns for every text, from
    every state. *)
Lemma count_brackets_returns (raw_content : str) (fuel : nat) :
  forall bracket_count current_idx,
    exists st, count_brackets raw_content fuel bracket_count current_idx = Ret st.
Proof.
  induction fuel as [|fuel IH]; intros bc idx.
  - simpl. destruct (_ && _); eauto.
  - rewrite count_brackets_unfold.
    destruct (0 <? bc); simpl; [|eauto].
    destruct (Nat.ltb_spec (S idx) (length raw_content)) as [Hlt|]; [|eauto].
    destruct (char_at_lt _ _ Hlt) as (c & _ & ->). simpl.
    destruct (Ascii.eqb c "{"); [apply IH|].
    destruct (Ascii.eqb c "}"); apply IH.
Qed.

Lemma find_open_brace_returns (raw_content : str) (n : nat) :
  forall i, (n <> 0 -> i + n <= length raw_content) ->
    exists res, find_open_brace raw_content n i = Ret res.
Proof.
  induction n as [|n IH]; intros i Hi; simpl; [eauto|].
  destruct (char_at_lt raw_content i ltac:(lia)) as (c & _ & ->). simpl.
  destruct (Ascii.eqb c "{"); [eauto|]. apply IH. lia.
Qed.

(** The extraction of a brace-style block returns for every text and every
    start offset. *)
Lemma extract_braces_returns (raw_content : str) (start_idx : nat) :
  exists res, extract_braces raw_content start_idx = Ret res.
Proof.
  unfold extract_braces.
  destruct (find_open_brace_returns raw_content
              (Nat.min (start_idx + 200) (length raw_content) - start_idx) start_idx
              ltac:(lia)) as [[open|] ->]; simpl; [|eauto].
  destruct (count_brackets_returns raw_content (length raw_content) 1 open)
    as [[bc idx] ->]. simpl.
  destruct (bc =? 0); eauto.
Qed.

Lemma find_open_brace_first (raw_content : str) (open : nat) (n : nat) :
  forall i,
    i <= open < i + n -> i + n <= length raw_content ->
    raw_content !! open = Some "{"%char ->
    (forall k, i <= k < open -> raw_content !! k <> Some "{"%char) ->
    find_open_brace raw_content n i = Ret (Some open).
Proof.
  induction n as [|n IH]; intros i Hi Hn Hopen Hfirst; [lia|]. simpl.
  destruct (char_at_lt raw_content i ltac:(lia)) as (c & Hc & ->). simpl.
  destruct (decide (i = open)) as [->|Hne].
  - rewrite Hopen in Hc. injection Hc as <-. reflexivity.
  - destruct (Ascii.eqb_spec c "{") as [->|_].
    + exfalso. apply (Hfirst i); [lia | exact Hc].
    + apply IH; auto; try lia. intros k Hk. apply Hfirst. lia.
Qed.

Lemma count_char_app (c : ascii) (a b : str) :
  count_char c (a ++ b) = count_char c a + count_char c b.
Proof. induction a as [|x a IH]; simpl; [done|]. rewrite IH. lia. Qed.

Lemma slice_snoc (s : str) (a k : nat) (c : ascii) :
  a <= k -> s !! k = Some c -> slice s a (S k) = slice s a k ++ [c].
Proof.
  intros Hak Hc. unfold slice. replace (S k - a) with (S (k - a)) by lia.
  apply take_S_r. rewrite lookup_drop. replace (a + (k - a)) with k by lia. exact Hc.
Qed.

(** While the block stays open the counter stays positive, and the loop
    stops at the last character. *)
Lemma count_brackets_unterminated (raw_content : str) (open : nat) :
  unterminated raw_content open ->
  forall fuel bracket_count current_idx,
    open <= current_idx < length raw_content ->
    bracket_count + count_char "}" (slice raw_content open (S current_idx))
    = count_char "{" (slice raw_content open (S current_idx)) ->
    length raw_content - S current_idx <= fuel ->
    exists bracket_count',
      count_brackets raw_content fuel bracket_count current_idx
      = Ret (bracket_count', length raw_content - 1) /\ 0 < bracket_count'.
Proof.
  intros Hopen. induction fuel as [|fuel IH]; intros bc idx Hidx Hinv Hfuel.
  - assert (idx = length raw_content - 1) as Hlast by lia.
    pose proof (Hopen idx Hidx) as Hpos.
    exists bc. split; [|lia]. simpl. destruct (_ && _); do 2 f_equal; lia.
  - pose proof (Hopen idx Hidx) as Hpos.
    rewrite count_brackets_unfold.
    destruct (Nat.ltb_spec 0 bc) as [Hbc|]; [|lia]. simpl.
    destruct (Nat.ltb_spec (S idx) (length raw_content)) as [Hlt|Hge].
    + destruct (char_at_lt _ _ Hlt) as (c & Hc & ->). simpl.
      pose proof (slice_snoc raw_content open (S idx) c ltac:(lia) Hc) as Hsl.
      pose proof (Hopen (S idx) ltac:(lia)) as Hpos'.
      rewrite Hsl, !count_char_app in Hpos'. simpl in Hpos'.
      destruct (Ascii.eqb_spec c "{") as [->|Hno].
      * apply IH; [lia| |lia]. rewrite Hsl, !count_char_app. simpl. lia.
      * destruct (Ascii.eqb_spec c "}") as [->|Hnc].
        -- apply IH; [lia| |lia]. rewrite Hsl, !count_char_app. simpl. lia.
        -- apply IH; [lia| |lia]. rewrite Hsl, !count_char_app. simpl.
           destruct (Ascii.eqb_spec c "}"); [done|].
           destruct (Ascii.eqb_spec c "{"); [done|]. lia.
    + exists bc. replace (length raw_content - 1) with idx by lia. split; [reflexivity | lia].
Qed.

(** C8.  When the opening brace found for a block is never closed before
    the end of the text, the extraction of the brace-style block returns the
    not-found text for an incomplete block: it does not raise, so no
    character outside the text is read. *)
Theorem unterminated_block_is_not_found (raw_content : str) (start_idx open : nat) :
  start_idx <= open < start_idx + 200 ->
  raw_content !! open = Some "{"%char ->
  (forall k, start_idx <= k < open -> raw_content !! k <> Some "{"%char) ->
  unterminated raw_content open ->
  extract_braces raw_content start_idx = Ret incomplete_block.
Proof.
  intros Hwin Hopen Hfirst Hunt. unfold extract_braces.
  assert (Hlen : open < length raw_content) by (eapply lookup_lt_Some; eauto).
  rewrite (find_open_brace_first raw_content open); auto; try lia. simpl.
  destruct (count_brackets_unterminated raw_content open Hunt
              (length raw_content) 1 open) as (bc & -> & Hbc); try lia.
  - erewrite slice_snoc by (eauto; lia).
    unfold slice. rewrite Nat.sub_diag. simpl. reflexivity.
  - simpl. destruct (Nat.eqb_spec bc 0); [lia | reflexivity].
Qed.

(** ** The located blocks on sample texts *)

(** The whole function on a block that is never closed. *)
Example open_block_is_incomplete :
  extract_block_content Sample.open_block (lit "variable") (lit "x")
  = Ret incomplete_block.
Proof. vm_compute. reflexivity. Qed.


(** C2 (where the code departs from it).  A [terraform] block whose braces
    nest four deep is not located at all, while the bracket counter of the
    general path locates a [variable] block with the very same body. *)
Theorem terraform_block_nested_four_deep_is_missed :
  extract_block_content Sample.deep_terraform (lit "terraform") []
  = Ret not_found
  /\ extract_block_content Sample.deep_variable (lit "variable") (lit "v")
     = Ret Sample.deep_variable.
Proof. split; vm_compute; reflexivity. Qed.

(** C3 (where the code departs from it).  A requested name is put into the
    patterns of the general path as pattern text: for the name [y(], which
    does not occur in the text, the call raises [re.error] where the
    not-found text is due.  The [locals] path, which escapes the name before
    it searches two blocks for it, returns for the same name. *)
Theorem unescaped_name_raises :
  extract_block_content (lit "variable `x` {}") (lit "variable") (lit "y(")
  = Raise (re_error "missing ), unterminated subpattern")
  /\ extract_block_content (lit "locals { a = 1 } locals { b = 2 }") (lit "locals") (lit "y(")
     = Ret (lit "locals { a = 1 }").
Proof. split; vm_compute; reflexivity. Qed.

(** C7 (where the code departs from it).  For an equals-style variable on
    one line the returned text ends before the next block.  For one that
    spans three lines, going back to the last complete line drops the last
    line of the block: the closing brace is not returned. *)
Theorem equals_block_loses_last_line :
  extract_block_content (Sample.variable_line ++ [nl] ++ Sample.next_resource)
    (lit "variable") (lit "x")
  = Ret Sample.variable_line
  /\ extract_block_content (Sample.variable_lines ++ [nl] ++ Sample.next_resource)
       (lit "variable") (lit "x")
     = Ret (lit "variable `x` = {" ++ [nl] ++ lit "  default = 1").
Proof. split; vm_compute; reflexivity. Qed.



Lemma unterminated_block_is_not_found_witness :
  extract_braces Sample.open_block 0 = Ret incomplete_block.
Proof.
  apply (unterminated_block_is_not_found Sample.open_block 0 13).
  - lia.
  - reflexivity.
  - intros k Hk. do 13 (destruct k as [|k]; [vm_compute; discriminate|]). lia.
  - intros k Hk. vm_compute in Hk.
    do 13 (destruct k as [|k]; [lia|]).
    do 15 (destruct k as [|k]; [vm_compute; lia|]). lia.
Defined.

Lemma stale_block_leaves_file_untouched_witness :
  exists message,
    edit_block_content Sample.temp_name
      (Sample.edit_while_changed Sample.tag_block_edited (lit "locals {}"))
      Sample.always Sample.no_text
      "main.tf" (lit "locals") (lit "env") Sample.tag_block Sample.project
    = (delete "edit.tf"%string
         (<["edit.tf"%string := Sample.tag_block_edited]>
            (<["main.tf"%string := lit "locals {}"]>
               (<["edit.tf"%string := Sample.tag_block]> Sample.project))),
       false, message)
    /\ delete "edit.tf"%string
         (<["edit.tf"%string := Sample.tag_block_edited]>
            (<["main.tf"%string := lit "locals {}"]>
               (<["edit.tf"%string := Sample.tag_block]> Sample.project)))
       !! "main.tf"%string = Some (lit "locals {}")
    /\ (is_Some
          (<["edit.tf"%string := Sample.tag_block_edited]>
             (<["main.tf"%string := lit "locals {}"]>
                (<["edit.tf"%string := Sample.tag_block]> Sample.project))
           !! "edit.tf"%string)
        -> message = not_located).
Proof.
  apply (stale_block_leaves_file_untouched Sample.temp_name
           (Sample.edit_while_changed Sample.tag_block_edited (lit "locals {}"))
           Sample.always Sample.no_text "main.tf" "edit.tf"
           (lit "locals") (lit "env") Sample.tag_block (lit "locals {}")
           Sample.project).
  - reflexivity.
  - reflexivity.
  - discriminate.
  - vm_compute. reflexivity.
  - intros H. apply substring_contains in H. vm_compute in H. discriminate.
Defined.

(** ** The keys of the fallback structure *)

Lemma slice_cons (s : str) (i j : nat) (x : ascii) :
  s !! i = Some x -> i < j -> slice s i j = x :: slice s (S i) j.
Proof.
  intros Hx Hij. unfold slice. replace (j - i) with (S (j - S i)) by lia.
  rewrite (drop_S s x i Hx). reflexivity.
Qed.

Lemma space_class_lang (s : str) (r : regex) (i j : nat) :
  is_space_class r = true -> lang s r i j ->
  j = S i /\ exists c, s !! i = Some c /\ isspace c = true.
Proof.
  destruct r as [ | | negate items | | | | | | | | | ]; try discriminate.
  destruct negate; try discriminate.
  destruct items as [|[ | |[] []] [|]]; try discriminate.
  intros _ Hl. inversion Hl as [ | | ? ? ? c Hc Hin | | | | | | | | | | | | ]; subst.
  split; [reflexivity|]. exists c. split; [exact Hc|].
  unfold in_set in Hin. simpl in Hin. destruct (isspace c); [reflexivity | discriminate].
Qed.

Lemma plus_space_lang (s : str) (g : bool) (r : regex) (i j : nat) :
  is_space_class r = true -> lang s (Plus g r) i j ->
  S i <= j /\ exists c, s !! i = Some c /\ isspace c = true.
Proof.
  intros Hr Hl.
  inversion Hl as [ | | | | | | | | | | | ? ? ? j1 ? Hl1 Hl2 | | | ]; subst.
  apply (space_class_lang s r i j1 Hr) in Hl1 as [-> Hc].
  apply lang_le in Hl2. split; [lia | exact Hc].
Qed.

(** A match of a pattern that opens with [kw] and a space starts with
    [kw] and a space. *)
Lemma opens_with_lang (s : str) (kw : str) :
  forall r i j, opens_with kw r = true -> lang s r i j ->
    exists c rest, slice s i j = kw ++ c :: rest /\ isspace c = true.
Proof.
  induction kw as [|x kw IH]; intros r i j Hr Hl.
  - assert (Hsp : S i <= j /\ exists c, s !! i = Some c /\ isspace c = true).
    { destruct r as [ | | | | | | r1 r2 | | | g r1 | | ]; try discriminate.
      - destruct r1 as [ | | | | | | | | | g r1 | | ]; try discriminate.
        inversion Hl as [ | | | | | | ? ? ? j1 ? Hl1 Hl2 | | | | | | | | ]; subst.
        apply (plus_space_lang s g r1 i j1 Hr) in Hl1 as [Hle Hc].
        apply lang_le in Hl2. split; [lia | exact Hc].
      - apply (plus_space_lang s g r1 i j Hr Hl). }
    destruct Hsp as (Hle & c & Hc & Hsp).
    exists c, (slice s (S i) j). split; [|exact Hsp]. apply slice_cons; [exact Hc | lia].
  - destruct r as [ | | | | | | r1 r2 | | | | | ]; try discriminate.
    destruct r1 as [ | y | | | | | | | | | | ]; try discriminate.
    simpl in Hr. apply andb_prop in Hr as [Hxy Hr]. apply Ascii.eqb_eq in Hxy as ->.
    inversion Hl as [ | | | | | | ? ? ? j1 ? Hl1 Hl2 | | | | | | | | ]; subst.
    inversion Hl1; subst.
    destruct (IH r2 (S i) j Hr Hl2) as (c & rest & Hsl & Hsp).
    exists c, rest. split; [|exact Hsp].
    rewrite (slice_cons s i j y); [by rewrite Hsl | assumption |].
    apply lang_le in Hl2. lia.
Qed.

Lemma word_app (kw : str) (c : ascii) (rest : str) :
  forallb (fun x => negb (isspace x)) kw = true -> isspace c = true ->
  word (kw ++ c :: rest) = kw.
Proof.
  intros Hkw Hc. induction kw as [|x kw IH]; simpl.
  - by rewrite Hc.
  - simpl in Hkw. apply andb_prop in Hkw as [Hx Hkw].
    destruct (isspace x); [discriminate|]. by rewrite IH.
Qed.

Lemma split_first_app (kw : str) (c : ascii) (rest : str) :
  kw <> [] -> forallb (fun x => negb (isspace x)) kw = true -> isspace c = true ->
  split_first (kw ++ c :: rest) = Some kw.
Proof.
  intros Hne Hkw Hc. unfold split_first.
  destruct kw as [|x kw]; [done|].
  pose proof Hkw as Hkw'. simpl in Hkw'. apply andb_prop in Hkw' as [Hx _].
  change ((x :: kw) ++ c :: rest) with (x :: (kw ++ c :: rest)).
  cbn [lstrip]. destruct (isspace x) eqn:Hsx; [discriminate|].
  change (x :: (kw ++ c :: rest)) with ((x :: kw) ++ c :: rest).
  by rewrite word_app.
Qed.

Lemma kinds_have_no_space (kw : str) :
  existsb (Py.eqb kw) kinds = true ->
  kw <> [] /\ forallb (fun x => negb (isspace x)) kw = true.
Proof.
  unfold kinds. simpl. rewrite !orb_true_iff.
  intros H; repeat destruct H as [H|H]; try discriminate;
    apply eqb_eq in H as ->; split; (discriminate || (vm_compute; reflexivity)).
Qed.

(** The first word of a match of an anchored pattern is a block kind. *)
Lemma anchored_first_word (raw_content : str) (r : regex) (mt : rmatch) :
  existsb (fun kw => opens_with kw r) kinds = true ->
  lang raw_content r (m_start mt) (m_end mt) ->
  exists kw, first_word raw_content mt = Ret kw /\ kind_key (KStr kw) = true.
Proof.
  intros Hr Hl. apply existsb_exists in Hr as (kw & Hin & Hkw).
  destruct (opens_with_lang raw_content kw r _ _ Hkw Hl) as (c & rest & Hsl & Hsp).
  assert (Hkind : existsb (Py.eqb kw) kinds = true).
  { apply existsb_exists. exists kw. split; [exact Hin | by apply eqb_eq]. }
  destruct (kinds_have_no_space kw Hkind) as [Hne Hns].
  exists kw. split; [|exact Hkind].
  unfold first_word, group0. rewrite Hsl. by rewrite split_first_app.
Qed.

Lemma key_eqb_eq (a b : key) : key_eqb a b = true -> a = b.
Proof.
  destruct a, b; simpl; try done. intros H. apply eqb_eq in H as ->. reflexivity.
Qed.

Lemma assoc_set_keys (P : key -> Prop) (k : key) (v : tree) (l : list (key * tree)) :
  P k -> Forall P (map fst l) -> Forall P (map fst (assoc_set k v l)).
Proof.
  intros Hk. induction l as [|[k' v'] l IH]; simpl; intros Hl.
  - constructor; [exact Hk | constructor].
  - inversion Hl; subst. destruct (key_eqb k k'); simpl; constructor; auto.
Qed.

Lemma dict_set_keys (P : key -> Prop) (k : key) (v d : tree) :
  P k -> Forall P (keys d) -> Forall P (keys (dict_set k v d)).
Proof. unfold keys, dict_set. simpl. apply assoc_set_keys. Qed.

Lemma ensure_keys (P : key -> Prop) (k : key) (d : tree) :
  P k -> Forall P (keys d) -> Forall P (keys (ensure k d)).
Proof.
  intros Hk Hd. unfold ensure. destruct (dict_has k d); [exact Hd|].
  by apply dict_set_keys.
Qed.

Lemma add_local_vars_keys (P : key -> Prop) (k : key) (vars : list str) :
  P k -> forall d, Forall P (keys d) -> Forall P (keys (add_local_vars k vars d)).
Proof.
  intros Hk. unfold add_local_vars.
  induction vars as [|x vars IH]; intros d Hd; simpl; [exact Hd|].
  apply IH. by apply dict_set_keys.
Qed.

Lemma local_var_pattern_compiles :
  exists r, compile NOFLAG local_var_pattern = Ret r.
Proof. eexists. vm_compute. reflexivity. Qed.

Lemma record_match_keys (raw_content : str) (r : regex) (structure : tree) (mt : rmatch)
    (kw : str) :
  first_word raw_content mt = Ret kw -> kind_key (KStr kw) = true ->
  known_keys structure ->
  exists structure',
    record_match raw_content r structure mt = Ret structure' /\ known_keys structure'.
Proof.
  intros Hfw Hkw Hst. unfold record_match, known_keys in *. rewrite Hfw.
  destruct local_var_pattern_compiles as [r' Hr'].
  destruct (groups raw_content r mt) as [|g1 [|g2 [|g3 gs]]];
    cbn [bind]; rewrite ?Hr'; cbn [bind];
    repeat match goal with |- context [if ?b then _ else _] => destruct b end;
    eexists; (split; [reflexivity|]);
    repeat (apply add_local_vars_keys || apply dict_set_keys || apply ensure_keys);
    assumption.
Qed.

Lemma record_matches_keys (raw_content : str) (r : regex) (matches : list rmatch) :
  existsb (fun kw => opens_with kw r) kinds = true ->
  Forall (fun mt => lang raw_content r (m_start mt) (m_end mt)) matches ->
  forall structure, known_keys structure ->
    exists structure',
      record_matches raw_content r structure matches = Ret structure'
      /\ known_keys structure'.
Proof.
  intros Hr. induction matches as [|mt matches IH]; intros Hall structure Hst; simpl.
  - eauto.
  - inversion Hall as [|? ? Hmt Hrest]; subst.
    destruct (anchored_first_word raw_content r mt Hr Hmt) as (kw & Hfw & Hkw).
    destruct (record_match_keys raw_content r structure mt kw Hfw Hkw Hst)
      as (structure' & -> & Hst').
    simpl. by apply IH.
Qed.

Lemma record_patterns_keys (raw_content : str) (pats : list str) :
  forallb anchored pats = true ->
  forall structure, known_keys structure ->
    exists structure',
      record_patterns raw_content structure pats = Ret structure'
      /\ known_keys structure'.
Proof.
  induction pats as [|pattern pats IH]; intros Hpats structure Hst; simpl.
  - eauto.
  - simpl in Hpats. apply andb_prop in Hpats as [Hp Hpats].
    unfold anchored in Hp.
    destruct (compile NOFLAG pattern) as [r| |]; try discriminate. simpl.
    destruct (record_matches_keys raw_content r (finditer raw_content r) Hp)
      with (structure := structure) as (structure' & -> & Hst'); [|exact Hst|].
    + apply Forall_forall. intros mt Hmt. by apply finditer_sound in Hmt as [? _].
    + simpl. by apply IH.
Qed.

(** C10.  For every text, [extract_fallback_structure] returns a tree, and
    every top-level key of the tree is one of the eight block kinds. *)
Theorem fallback_structure_keys_are_kinds (raw_content : str) :
  exists structure,
    extract_fallback_structure raw_content = Ret structure
    /\ forall k, k ∈ keys structure -> exists kind, k = KStr kind /\ kind ∈ kinds.
Proof.
  destruct (record_patterns_keys raw_content block_patterns) with (structure := empty_dict)
    as (structure & Hret & Hkeys).
  - vm_compute. reflexivity.
  - constructor.
  - exists structure. split; [exact Hret|].
    intros k Hk. unfold known_keys in Hkeys. rewrite Forall_forall in Hkeys.
    specialize (Hkeys k Hk). destruct k as [w|]; [|discriminate].
    exists w. split; [reflexivity|]. unfold kind_key in Hkeys.
    apply existsb_exists in Hkeys as (kind & Hin & Heq).
    apply eqb_eq in Heq as ->. by apply list_elem_of_In.
Qed.

(** ** The shape of a matched block *)

Lemma terraform_pattern_compiles :
  compile DOTALL terraform_pattern = Ret (block_regex (lit "terraform")).
Proof. vm_compute. reflexivity. Qed.

Lemma required_providers_pattern_compiles :
  compile DOTALL required_providers_pattern = Ret (block_regex (lit "required_providers")).
Proof. vm_compute. reflexivity. Qed.


Lemma take_add_app (l : str) (a b : nat) :
  take (a + b) l = take a l ++ take b (drop a l).
Proof.
  revert l. induction a as [|a IH]; intros [|x l]; simpl; try done.
  - by rewrite take_nil.
  - by rewrite IH.
Qed.

Lemma slice_app (s : str) (i j k : nat) :
  i <= j <= k -> slice s i k = slice s i j ++ slice s j k.
Proof.
  intros Hijk. unfold slice.
  replace (k - i) with ((j - i) + (k - j)) by lia.
  rewrite take_add_app, drop_drop. by replace (i + (j - i)) with j by lia.
Qed.

Lemma slice_nil (s : str) (i : nat) : slice s i i = [].
Proof. unfold slice. by rewrite Nat.sub_diag. Qed.

Lemma slice_one (s : str) (i : nat) (c : ascii) : s !! i = Some c -> slice s i (S i) = [c].
Proof. intros Hc. rewrite (slice_cons s i (S i) c Hc) by lia. by rewrite slice_nil. Qed.

Section Shapes.

Variable s : str.

(** What a repetition matches is made of what its body matches. *)
Lemma star_slices (g : bool) (r : regex) (Q P : str -> Prop) :
  (forall i j, lang s r i j -> Q (slice s i j)) ->
  P [] ->
  (forall a b, Q a -> P b -> P (a ++ b)) ->
  forall i j, lang s (Star g r) i j -> P (slice s i j).
Proof.
  intros Hbody Hnil Happ i j H. remember (Star g r) as R eqn:HR.
  induction H as [ | | | | | | | | | g' r' i | g' r' i j1 j Hl _ Hlt Hs IH | | | | ];
    try discriminate; injection HR as -> ->.
  - by rewrite slice_nil.
  - rewrite (slice_app s i j1 j).
    + apply Happ; [by apply Hbody | by apply IH].
    + apply lang_le in Hs. lia.
Qed.

Lemma lits_lang (kw : str) (r : regex) :
  forall i j, lang s (lits kw r) i j ->
    slice s i j = kw ++ slice s (i + length kw) j /\ lang s r (i + length kw) j.
Proof.
  induction kw as [|x kw IH]; intros i j Hl; simpl in *.
  - by rewrite Nat.add_0_r.
  - inversion Hl as [ | | | | | | ? ? ? j1 ? Hl1 Hl2 | | | | | | | | ]; subst.
    inversion Hl1; subst.
    destruct (IH _ _ Hl2) as [Hsl Hr].
    replace (i + S (length kw)) with (S i + length kw) by lia.
    split; [|exact Hr].
    rewrite (slice_cons s i j x); [by rewrite Hsl | assumption |].
    apply lang_le in Hl2. lia.
Qed.

Lemma spaces_lang (g : bool) (i j : nat) :
  lang s (Star g space) i j -> Forall (fun c => isspace c = true) (slice s i j).
Proof.
  apply (star_slices g space (fun t => exists c, t = [c] /\ isspace c = true)).
  - intros a b Hl. apply space_class_lang in Hl as (-> & c & Hc & Hsp); [|reflexivity].
    exists c. split; [by apply slice_one | exact Hsp].
  - constructor.
  - intros a b (c & -> & Hsp) Hb. by constructor.
Qed.

Lemma no_brace_lang (i j : nat) :
  lang s no_brace i j ->
  exists c, slice s i j = [c] /\ c <> "{"%char /\ c <> "}"%char.
Proof.
  intros Hl. inversion Hl as [ | | ? ? ? c Hc Hin | | | | | | | | | | | | ]; subst.
  exists c. split; [by apply slice_one|].
  unfold in_set in Hin. simpl in Hin.
  destruct (Ascii.eqb_spec c "{"); [discriminate|].
  destruct (Ascii.eqb_spec c "}"); [discriminate|]. done.
Qed.

Lemma nested_item_app (n : nat) (a b : str) :
  item_text n a -> nested n b -> nested n (a ++ b).
Proof.
  intros [(c & -> & Ho & Hc)|(m & t1 & -> & -> & Ht1)] Hb.
  - by constructor.
  - simpl. rewrite <- app_assoc. simpl. by constructor.
Qed.

Lemma braces_lang (r : regex) (P : str -> Prop) (i j : nat) :
  (forall a b, lang s (Star true r) a b -> P (slice s a b)) ->
  lang s (braces r) i j ->
  exists body, slice s i j = "{"%char :: body ++ ["}"%char] /\ P body.
Proof.
  intros Hstar Hl. unfold braces in Hl.
  inversion Hl as [ | | | | | | ? ? ? j1 ? Hl1 Hl2 | | | | | | | | ]; subst.
  inversion Hl1; subst.
  inversion Hl2 as [ | | | | | | ? ? ? j2 ? Hl3 Hl4 | | | | | | | | ]; subst.
  inversion Hl4; subst.
  exists (slice s (S i) j2). split; [|by apply Hstar].
  pose proof (lang_le _ _ _ _ Hl3).
  rewrite (slice_cons s i (S j2) "{") by (auto; lia). f_equal.
  rewrite (slice_app s (S i) j2 (S j2)) by lia. f_equal. by apply slice_one.
Qed.

Lemma item_lang (n : nat) :
  forall i j, lang s (item n) i j -> item_text n (slice s i j).
Proof.
  induction n as [|n IH]; intros i j Hl; simpl in Hl.
  - left. by apply no_brace_lang.
  - inversion Hl; subst.
    + left. by apply no_brace_lang.
    + right. destruct (braces_lang (item n) (nested n) i j) as (body & Hsl & Hbody); auto.
      * intros a b. apply (star_slices true (item n) (item_text n)); auto.
        -- constructor.
        -- apply nested_item_app.
      * exists n, body. auto.
Qed.

Lemma items_lang (n : nat) (i j : nat) :
  lang s (Star true (item n)) i j -> nested n (slice s i j).
Proof.
  apply (star_slices true (item n) (item_text n)).
  - apply item_lang.
  - constructor.
  - apply nested_item_app.
Qed.

(** Whatever the block pattern matches is the text of a block. *)
Lemma block_regex_lang (kw : str) (i j : nat) :
  lang s (block_regex kw) i j -> is_block kw (slice s i j).
Proof.
  intros Hl. unfold block_regex in Hl.
  apply lits_lang in Hl as [Hkw Hl].
  inversion Hl as [ | | | | | | ? ? ? j1 ? Hl1 Hl2 | | | | | | | | ]; subst.
  destruct (braces_lang (item 2) (nested 2) j1 j) as (body & Hsl & Hbody); auto.
  { intros a b. apply items_lang. }
  exists (slice s (i + length kw) j1), body. split; [|split].
  - rewrite Hkw. f_equal.
    rewrite (slice_app s (i + length kw) j1 j).
    + by rewrite Hsl.
    + apply lang_le in Hl1, Hl2. lia.
  - by apply spaces_lang in Hl1.
  - exact Hbody.
Qed.

End Shapes.

(** ** Locating [terraform] and [required_providers] *)

Lemma extract_required_providers_eq (raw_content : str) :
  extract_block_content raw_content (lit "terraform") (lit "required_providers") =
  match search raw_content (block_regex (lit "terraform")) with
  | Some terraform_match =>
      let terraform_content := group0 raw_content terraform_match in
      match search terraform_content (block_regex (lit "required_providers")) with
      | Some required_match => Ret (group0 terraform_content required_match)
      | None => Ret terraform_content
      end
  | None => Ret not_found
  end.
Proof.
  change (extract_block_content raw_content (lit "terraform") (lit "required_providers"))
    with (r <- compile DOTALL terraform_pattern ;;
          match search raw_content r with
          | Some terraform_match =>
              let terraform_content := group0 raw_content terraform_match in
              r' <- compile DOTALL required_providers_pattern ;;
              match search terraform_content r' with
              | Some required_match => Ret (group0 terraform_content required_match)
              | None => Ret terraform_content
              end
          | None => Ret not_found
          end).
  rewrite terraform_pattern_compiles. cbn [bind].
  destruct (search raw_content _); [|reflexivity].
  cbv zeta. rewrite required_providers_pattern_compiles. reflexivity.
Qed.

(** C4.  Locating [required_providers] in the kind [terraform]: when no
    [terraform] block is found the not-found text is returned; otherwise,
    with the leftmost [terraform] block as the located text, the leftmost
    [required_providers] block inside that text is returned when there is
    one, and exactly that block: the keyword, spaces, and a body in balanced
    braces; and the whole [terraform] block is returned when there is none.
    On the sample only the inner block is returned. *)
Theorem required_providers_block_is_located (raw_content : str) :
  let tf := block_regex (lit "terraform") in
  let rp := block_regex (lit "required_providers") in
  let result :=
    extract_block_content raw_content (lit "terraform") (lit "required_providers") in
  compile DOTALL terraform_pattern = Ret tf
  /\ compile DOTALL required_providers_pattern = Ret rp
  /\ ((no_match raw_content tf /\ result = Ret not_found)
      \/ exists i j,
           leftmost raw_content tf i j
           /\ is_block (lit "terraform") (slice raw_content i j)
           /\ ((no_match (slice raw_content i j) rp
                /\ result = Ret (slice raw_content i j))
               \/ exists a b,
                    leftmost (slice raw_content i j) rp a b
                    /\ is_block (lit "required_providers")
                         (slice (slice raw_content i j) a b)
                    /\ result = Ret (slice (slice raw_content i j) a b)))
  /\ extract_block_content Sample.terraform_providers
       (lit "terraform") (lit "required_providers")
     = Ret Sample.providers.
Proof.
  intros tf rp result.
  split; [exact terraform_pattern_compiles|].
  split; [exact required_providers_pattern_compiles|].
  split; [|vm_compute; reflexivity].
  subst result. rewrite extract_required_providers_eq. fold tf rp.
  destruct (search raw_content tf) as [tm|] eqn:Htf.
  - right. apply search_Some in Htf. exists (m_start tm), (m_end tm).
    split; [exact Htf|].
    split; [apply block_regex_lang; apply Htf|].
    cbv zeta. unfold group0.
    destruct (search (slice raw_content (m_start tm) (m_end tm)) rp) as [rm|] eqn:Hrp.
    + right. apply search_Some in Hrp. exists (m_start rm), (m_end rm).
      split; [exact Hrp|].
      split; [apply block_regex_lang; apply Hrp | reflexivity].
    + left. apply search_None in Hrp. split; [exact Hrp | reflexivity].
  - left. apply search_None in Htf. split; [exact Htf | reflexivity].
Qed.

(** ** Compiling the pattern of a [locals] variable *)









(** ** Assignments and the pattern of a variable *)

Lemma drop_slice (b : str) (i j : nat) : i <= j -> drop i b = slice b i j ++ drop j b.
Proof.
  intros Hij. unfold slice. replace (drop j b) with (drop (j - i) (drop i b)).
  - by rewrite take_drop.
  - rewrite drop_drop. f_equal. lia.
Qed.












(** ** Locating [locals] *)




(** * Further properties of the locator *)

(** ** The bracket counter on a closed block *)

Lemma count_brackets_closes (raw_content : str) (open close : nat) :
  close < length raw_content ->
  closes_at raw_content open close ->
  forall fuel bracket_count current_idx,
    open <= current_idx <= close ->
    bracket_count + count_char "}" (slice raw_content open (S current_idx))
    = count_char "{" (slice raw_content open (S current_idx)) ->
    close - current_idx <= fuel ->
    count_brackets raw_content fuel bracket_count current_idx = Ret (0, close).
Proof.
  intros Hlen (_ & Hbal & Hopen).
  induction fuel as [|fuel IH]; intros bc idx Hidx Hinv Hfuel.
  - assert (idx = close) as -> by lia.
    assert (bc = 0) as -> by lia. reflexivity.
  - destruct (decide (idx = close)) as [->|Hne].
    + assert (bc = 0) as -> by lia. reflexivity.
    + pose proof (Hopen idx ltac:(lia)) as Hpos.
      rewrite count_brackets_unfold.
      destruct (Nat.ltb_spec 0 bc) as [Hbc|]; [|lia]. simpl.
      destruct (Nat.ltb_spec (S idx) (length raw_content)) as [Hlt|]; [|lia].
      destruct (char_at_lt _ _ Hlt) as (c & Hc & ->). simpl.
      pose proof (slice_snoc raw_content open (S idx) c ltac:(lia) Hc) as Hsl.
      destruct (Ascii.eqb_spec c "{") as [->|Hno].
      * apply IH; [lia| |lia]. rewrite Hsl, !count_char_app. simpl. lia.
      * destruct (Ascii.eqb_spec c "}") as [->|Hnc].
        -- apply IH; [lia| |lia]. rewrite Hsl, !count_char_app. simpl. lia.
        -- apply IH; [lia| |lia]. rewrite Hsl, !count_char_app. simpl.
           destruct (Ascii.eqb_spec c "}"); [done|].
           destruct (Ascii.eqb_spec c "{"); [done|]. lia.
Qed.

(** X1.  When the opening brace found for a block is closed at [close], the
    first offset where the braces opened since then are all closed, the
    extraction returns the text from the start of the block through that
    closing brace, however deep the braces nest in between. *)
Theorem closed_block_is_returned (raw_content : str) (start_idx open close : nat) :
  start_idx <= open < start_idx + 200 ->
  raw_content !! open = Some "{"%char ->
  (forall k, start_idx <= k < open -> raw_content !! k <> Some "{"%char) ->
  close < length raw_content ->
  closes_at raw_content open close ->
  extract_braces raw_content start_idx = Ret (slice raw_content start_idx (close + 1)).
Proof.
  intros Hwin Hopen Hfirst Hclose Hcl. unfold extract_braces.
  assert (Hlen : open < length raw_content) by (eapply lookup_lt_Some; eauto).
  assert (Hoc : open < close) by apply Hcl.
  rewrite (find_open_brace_first raw_content open); auto; try lia. simpl.
  rewrite (count_brackets_closes raw_content open close Hclose Hcl); try lia.
  - reflexivity.
  - erewrite slice_snoc by (eauto; lia).
    unfold slice. rewrite Nat.sub_diag. simpl. reflexivity.
Qed.

Lemma closed_block_is_returned_witness :
  extract_braces Sample2.closed_block 0 = Ret (slice Sample2.closed_block 0 (29 + 1)).
Proof.
  apply (closed_block_is_returned Sample2.closed_block 0 13 29).
  - lia.
  - reflexivity.
  - intros k Hk. do 13 (destruct k as [|k]; [vm_compute; discriminate|]). lia.
  - vm_compute. lia.
  - split; [lia|]. split; [vm_compute; reflexivity|].
    intros k Hk. do 13 (destruct k as [|k]; [lia|]).
    do 16 (destruct k as [|k]; [vm_compute; lia|]). lia.
Defined.

(** ** The window for the opening brace *)

Lemma find_open_brace_none (raw_content : str) (n : nat) :
  forall i,
    (n <> 0 -> i + n <= length raw_content) ->
    (forall k, i <= k < i + n -> raw_content !! k <> Some "{"%char) ->
    find_open_brace raw_content n i = Ret None.
Proof.
  induction n as [|n IH]; intros i Hn Hno; [reflexivity|]. simpl.
  destruct (char_at_lt raw_content i ltac:(lia)) as (c & Hc & ->). simpl.
  destruct (Ascii.eqb_spec c "{") as [->|_].
  - exfalso. apply (Hno i); [lia | exact Hc].
  - apply IH; [lia|]. intros k Hk. apply Hno. lia.
Qed.

(** X2.  The opening brace is looked for in the 200 characters from the
    start of the match only: when none of them is an opening brace, the
    extraction returns the text for a missing opening brace, whatever comes
    later in the text. *)
Theorem brace_beyond_window_is_missed (raw_content : str) (start_idx : nat) :
  (forall k, start_idx <= k < start_idx + 200 -> raw_content !! k <> Some "{"%char) ->
  extract_braces raw_content start_idx = Ret no_opening_brace.
Proof.
  intros Hno. unfold extract_braces.
  rewrite find_open_brace_none; [reflexivity | lia |].
  intros k Hk. apply Hno. lia.
Qed.

Lemma brace_beyond_window_is_missed_witness :
  extract_braces Sample2.far_brace 0 = Ret no_opening_brace.
Proof.
  apply (brace_beyond_window_is_missed Sample2.far_brace 0).
  intros k Hk.
  destruct (decide (k < 12)) as [Hlt|Hge].
  - do 12 (destruct k as [|k]; [vm_compute; discriminate|]). lia.
  - unfold Sample2.far_brace.
    rewrite lookup_app_r by (simpl; lia).
    rewrite lookup_app_l by (rewrite length_replicate; simpl; simpl in Hk; lia).
    intros H. apply lookup_replicate_1 in H as [H _]. discriminate.
Defined.

(** ** Equals-style blocks *)

Lemma next_block_pattern_compiles :
  compile MULTILINE next_block_pattern = Ret next_block_regex.
Proof. vm_compute. reflexivity. Qed.

Lemma word_regex_lang (s kw : str) :
  kw <> [] -> forall i j, lang s (word_regex kw) i j -> slice s i j = kw.
Proof.
  unfold word_regex. induction kw as [|c kw IH]; [done|]. intros _ i j Hl.
  destruct kw as [|c' kw].
  - simpl in Hl. inversion Hl; subst. by apply slice_one.
  - change (seq_of (map (fun c => Lit c) (c :: c' :: kw)))
      with (Seq (Lit c) (seq_of (map (fun c => Lit c) (c' :: kw)))) in Hl.
    inversion Hl as [ | | | | | | ? ? ? j1 ? Hl1 Hl2 | | | | | | | | ]; subst.
    inversion Hl1; subst.
    rewrite (slice_cons s i j c); [|assumption|apply lang_le in Hl2; lia].
    f_equal. by apply IH.
Qed.

Lemma alt_of_lang (s : str) (rs : list regex) :
  rs <> [] -> forall i j, lang s (alt_of rs) i j -> exists r, r ∈ rs /\ lang s r i j.
Proof.
  induction rs as [|r rs IH]; [done|]. intros _ i j Hl.
  destruct rs as [|r' rs].
  - exists r. split; [left | exact Hl].
  - change (alt_of (r :: r' :: rs)) with (Alt r (alt_of (r' :: rs))) in Hl.
    inversion Hl; subst.
    + exists r. split; [left | assumption].
    + destruct (IH ltac:(done) i j) as (r0 & Hin & Hr0); [assumption|].
      exists r0. split; [by right | exact Hr0].
Qed.

Lemma slice_substring (s : str) (i j : nat) : i <= j -> substring (slice s i j) s.
Proof.
  intros Hij. exists (take i s), (drop j s).
  rewrite <- (take_drop i s) at 1. f_equal. by apply drop_slice.
Qed.

Lemma lang_Seq_inv (s : str) (r1 r2 : regex) (i j : nat) :
  lang s (Seq r1 r2) i j -> exists k, lang s r1 i k /\ lang s r2 k j.
Proof. intros Hl. inversion Hl; subst. eauto. Qed.

Lemma lang_Group_inv (s : str) (n : nat) (r : regex) (i j : nat) :
  lang s (Group n r) i j -> lang s r i j.
Proof. intros Hl. by inversion Hl; subst. Qed.

(** A match of the pattern of the next block holds one of the keywords. *)
Lemma next_block_keyword (s : str) (i j : nat) :
  lang s next_block_regex i j -> exists kw, kw ∈ next_keywords /\ substring kw s.
Proof.
  intros Hl. unfold next_block_regex in Hl.
  apply lang_Seq_inv in Hl as (j1 & _ & Hl).
  apply lang_Seq_inv in Hl as (j2 & _ & Hl).
  apply lang_Seq_inv in Hl as (j3 & Hg & _).
  apply lang_Group_inv in Hg.
  apply alt_of_lang in Hg as (r & Hin & Hr); [|discriminate].
  apply list_elem_of_fmap in Hin as (kw & -> & Hkw).
  exists kw. split; [exact Hkw|].
  pose proof (lang_le _ _ _ _ Hr) as Hle.
  apply word_regex_lang in Hr.
  - rewrite <- Hr. by apply slice_substring.
  - intros ->. apply list_elem_of_In in Hkw. vm_compute in Hkw. intuition discriminate.
Qed.

Lemma find_go_char (c : ascii) (s : str) :
  forall i k,
    s !! k = Some c -> (forall k', k' < k -> s !! k' <> Some c) ->
    find_go [c] s i = Some (i + k).
Proof.
  induction s as [|x s IH]; intros i k Hk Hfirst; [done|].
  destruct k as [|k].
  - injection Hk as ->. cbn [find_go startswith]. rewrite Ascii.eqb_refl. simpl.
    f_equal. lia.
  - cbn [find_go startswith].
    destruct (Ascii.eqb_spec c x) as [->|Hne].
    + exfalso. apply (Hfirst 0); [lia | reflexivity].
    + simpl. rewrite (IH (S i) k); [f_equal; lia | exact Hk |].
      intros k' Hk'. apply (Hfirst (S k')). lia.
Qed.

Lemma find_char_first (c : ascii) (s : str) (i j : nat) :
  i <= j -> s !! j = Some c -> (forall k, i <= k < j -> s !! k <> Some c) ->
  find [c] s i = Some j.
Proof.
  intros Hij Hj Hfirst. unfold find.
  rewrite (find_go_char c (drop i s) i (j - i)).
  - f_equal. lia.
  - rewrite lookup_drop. by replace (i + (j - i)) with j by lia.
  - intros k' Hk'. rewrite lookup_drop. apply Hfirst. lia.
Qed.

(** X3.  An equals-style block after whose equals sign none of the seven
    block keywords occurs runs to the end of the text: the text from the
    start of the match on is returned, with the spaces at both ends
    removed. *)
Theorem equals_block_runs_to_end (raw_content : str) (start_idx eq_pos : nat) :
  start_idx <= eq_pos ->
  raw_content !! eq_pos = Some "="%char ->
  (forall k, start_idx <= k < eq_pos -> raw_content !! k <> Some "="%char) ->
  (forall kw, kw ∈ next_keywords -> ~ substring kw (drop eq_pos raw_content)) ->
  extract_equals raw_content start_idx = Ret (strip (drop start_idx raw_content)).
Proof.
  intros Hle Heq Hfirst Hno. unfold extract_equals.
  change (lit "=") with ["="%char].
  rewrite (find_char_first "=" raw_content start_idx eq_pos) by assumption.
  rewrite next_block_pattern_compiles. cbn [bind].
  destruct (search (drop eq_pos raw_content) next_block_regex) as [mt|] eqn:Hs.
  - exfalso. apply search_Some in Hs as [Hl _].
    apply next_block_keyword in Hl as (kw & Hkw & Hsub). by apply (Hno kw).
  - do 2 f_equal. unfold slice. apply take_ge. rewrite length_drop. lia.
Qed.

Lemma equals_block_runs_to_end_witness :
  extract_equals (lit "  variable `x` = 1 ") 2
  = Ret (strip (drop 2 (lit "  variable `x` = 1 "))).
Proof.
  apply (equals_block_runs_to_end (lit "  variable `x` = 1 ") 2 15).
  - lia.
  - reflexivity.
  - intros k Hk. do 15 (destruct k as [|k]; [vm_compute; discriminate|]). lia.
  - intros kw Hkw Hsub. apply substring_contains in Hsub.
    apply list_elem_of_In in Hkw. simpl in Hkw.
    repeat (destruct Hkw as [<-|Hkw]; [vm_compute in Hsub; discriminate|]).
    destruct Hkw.
Defined.

Lemma lstrip_head (s : str) (c : ascii) (t : str) :
  lstrip s = c :: t -> isspace c = false.
Proof.
  induction s as [|x s IH]; simpl; [done|].
  destruct (isspace x) eqn:Hx; [exact IH|]. by intros [= <- _].
Qed.

Lemma lstrip_suffix (s : str) : exists pre, s = pre ++ lstrip s.
Proof.
  induction s as [|x s [pre IH]]; simpl.
  - by exists [].
  - destruct (isspace x).
    + exists (x :: pre). simpl. by f_equal.
    + by exists [].
Qed.

Lemma rstrip_prefix (s : str) : exists post, s = rstrip s ++ post.
Proof.
  unfold rstrip. destruct (lstrip_suffix (rev s)) as [pre Hpre].
  exists (rev pre). rewrite <- rev_app_distr, <- Hpre. by rewrite rev_involutive.
Qed.

Lemma rstrip_last (s : str) (c : ascii) (t : str) :
  rstrip s = t ++ [c] -> isspace c = false.
Proof.
  unfold rstrip. intros H. apply (f_equal (@rev ascii)) in H.
  rewrite rev_involutive, rev_app_distr in H. simpl in H.
  by apply lstrip_head in H.
Qed.

(** [s.strip()] neither starts nor ends with a space character. *)
Lemma strip_trimmed (s : str) : trimmed (strip s).
Proof.
  unfold strip. split.
  - intros c t Ht. destruct (rstrip_prefix (lstrip s)) as [post Hpost].
    rewrite Ht in Hpost. simpl in Hpost. by apply lstrip_head in Hpost.
  - intros c t Ht. by apply rstrip_last in Ht.
Qed.

(** X4.  The extraction of an equals-style block returns for every text and
    every start offset, and what it returns neither starts nor ends with a
    space character. *)
Theorem equals_block_is_trimmed (raw_content : str) (start_idx : nat) :
  exists content,
    extract_equals raw_content start_idx = Ret content /\ trimmed content.
Proof.
  unfold extract_equals.
  destruct (find (lit "=") raw_content start_idx) as [eq_pos|].
  - rewrite next_block_pattern_compiles. cbn [bind].
    eexists. split; [reflexivity | apply strip_trimmed].
  - exists no_equals_sign. split; [reflexivity|]. split.
    + intros c t Ht. vm_compute in Ht. by injection Ht as <- _.
    + intros c t Ht. apply (f_equal last) in Ht. rewrite last_snoc in Ht.
      vm_compute in Ht. by injection Ht as <-.
Qed.

(** * Further properties of the edit *)





(** X6.  An edit touches no file but its target: when the editor has
    returned, the temporary file is gone afterwards and every path other
    than the target and the temporary file holds what the editor left
    there. *)
Theorem edit_touches_only_target
    (temp_file : files -> option string) (run_editor : string -> files -> option files)
    (writable : string -> bool) (error_text : string -> str)
    (file_path temp_file_path : string) (block_type block_name block_content : str)
    (fs fs1 : files) :
  temp_file fs = Some temp_file_path ->
  run_editor temp_file_path (<[temp_file_path := block_content]> fs) = Some fs1 ->
  exists fs' success message,
    edit_block_content temp_file run_editor writable error_text
      file_path block_type block_name block_content fs
    = (fs', success, message)
    /\ fs' !! temp_file_path = None
    /\ forall path, path <> file_path -> path <> temp_file_path ->
         fs' !! path = fs1 !! path.
Proof.
  intros Htemp Hrun. unfold edit_block_content. rewrite Htemp, Hrun.
  destruct (commit writable error_text file_path temp_file_path block_content fs1)
    as [[fs2 success] message] eqn:Hc.
  exists (delete temp_file_path fs2), success, message.
  split; [reflexivity|]. split; [apply lookup_delete_eq|].
  intros path Hp1 Hp2. rewrite lookup_delete_ne by done.
  unfold commit in Hc.
  destruct (fs1 !! temp_file_path); [|by injection Hc as <- _ _].
  destruct (fs1 !! file_path); [|by injection Hc as <- _ _].
  destruct (contains _ _); [|by injection Hc as <- _ _].
  destruct (writable file_path); injection Hc as <- _ _; [|done].
  by rewrite lookup_insert_ne.
Qed.


Lemma edit_touches_only_target_witness :
  exists fs' success message,
    edit_block_content Sample.temp_name
      (Sample.edit_while_changed Sample.tag_block_edited (lit "locals {}"))
      Sample.always Sample.no_text
      "main.tf" (lit "locals") (lit "env") Sample.tag_block Sample.project
    = (fs', success, message)
    /\ fs' !! "edit.tf"%string = None
    /\ forall path, path <> "main.tf"%string -> path <> "edit.tf"%string ->
         fs' !! path
         = <["edit.tf"%string := Sample.tag_block_edited]>
             (<["main.tf"%string := lit "locals {}"]>
                (<["edit.tf"%string := Sample.tag_block]> Sample.project)) !! path.
Proof.
  apply (edit_touches_only_target Sample.temp_name
           (Sample.edit_while_changed Sample.tag_block_edited (lit "locals {}"))
           Sample.always Sample.no_text "main.tf" "edit.tf"
           (lit "locals") (lit "env") Sample.tag_block Sample.project).
  - reflexivity.
  - reflexivity.
Defined.

(** * What the locator returns *)

Lemma slice_is_substring (s : str) (i j : nat) : substring (slice s i j) s.
Proof.
  exists (take i s), (drop (j - i) (drop i s)). unfold slice.
  by rewrite take_drop, take_drop.
Qed.

Lemma substring_trans (a b c : str) : substring a b -> substring b c -> substring a c.
Proof.
  intros (p1 & q1 & ->) (p2 & q2 & ->). exists (p2 ++ p1), (q1 ++ q2).
  by rewrite <- !app_assoc.
Qed.

Lemma strip_is_substring (s : str) : substring (strip s) s.
Proof.
  unfold strip. destruct (lstrip_suffix s) as [pre Hpre].
  destruct (rstrip_prefix (lstrip s)) as [post Hpost].
  exists pre, post. by rewrite <- Hpost.
Qed.

Lemma find_local_member (block_name : str) (blocks : list str) (b : str) :
  find_local block_name blocks = Ret (Some b) -> b ∈ blocks.
Proof.
  induction blocks as [|x blocks IH]; simpl; [discriminate|].
  destruct (compile NOFLAG (var_pattern block_name)) as [r| |]; cbn [bind]; try discriminate.
  destruct (search x r).
  - intros [= <-]. left.
  - intros H. right. by apply IH.
Qed.

Lemma extract_terraform_from_file (raw_content block_name content : str) :
  extract_terraform raw_content block_name = Ret content ->
  content ∈ messages \/ substring content raw_content.
Proof.
  unfold extract_terraform.
  destruct (Py.eqb block_name (lit "required_providers"));
    destruct (compile DOTALL terraform_pattern) as [r| |]; cbn [bind]; try discriminate;
    (destruct (search raw_content r) as [mt|]; [| intros [= <-]; left; left]).
  - destruct (compile DOTALL required_providers_pattern) as [r'| |]; cbn [bind];
      try discriminate.
    destruct (search (group0 raw_content mt) r') as [mt'|]; intros [= <-]; right.
    + eapply substring_trans; apply slice_is_substring.
    + apply slice_is_substring.
  - intros [= <-]. right. apply slice_is_substring.
Qed.

Lemma extract_locals_from_file (raw_content block_name content : str) :
  extract_locals raw_content block_name = Ret content ->
  content ∈ messages \/ substring content raw_content.
Proof.
  unfold extract_locals.
  destruct (compile DOTALL locals_pattern) as [r| |]; cbn [bind]; try discriminate.
  assert (Hall : forall b, b ∈ map (group0 raw_content) (finditer raw_content r) ->
                           substring b raw_content).
  { intros b Hb. apply list_elem_of_fmap in Hb as (mt & -> & _). apply slice_is_substring. }
  assert (Hfirst : forall c,
    match map (group0 raw_content) (finditer raw_content r) with
    | first :: _ => Ret first
    | [] => Ret not_found
    end = Ret c -> c ∈ messages \/ substring c raw_content).
  { intros c. destruct (map (group0 raw_content) (finditer raw_content r)) as [|b l].
    - intros [= <-]. left. left.
    - intros [= <-]. right. apply Hall. left. }
  destruct ((length (map (group0 raw_content) (finditer raw_content r)) =? 1)
            || Py.eqb block_name []); [apply Hfirst|].
  destruct (find_local block_name (map (group0 raw_content) (finditer raw_content r)))
    as [[b|]| |] eqn:Hf; cbn [bind]; try discriminate.
  - intros [= <-]. right. apply Hall. by apply find_local_member in Hf.
  - apply Hfirst.
Qed.

Lemma extract_equals_from_file (raw_content : str) (start_idx : nat) (content : str) :
  extract_equals raw_content start_idx = Ret content ->
  content ∈ messages \/ substring content raw_content.
Proof.
  unfold extract_equals.
  destruct (find (lit "=") raw_content start_idx) as [eq_pos|].
  - destruct (compile MULTILINE next_block_pattern) as [r| |]; cbn [bind]; try discriminate.
    intros [= <-]. right.
    eapply substring_trans; [apply strip_is_substring | apply slice_is_substring].
  - intros [= <-]. left. right. left.
Qed.

Lemma extract_braces_from_file (raw_content : str) (start_idx : nat) (content : str) :
  extract_braces raw_content start_idx = Ret content ->
  content ∈ messages \/ substring content raw_content.
Proof.
  unfold extract_braces.
  destruct (find_open_brace _ _ _) as [[open|]| |]; cbn [bind]; try discriminate.
  - destruct (count_brackets _ _ _ _) as [[bc ci]| |]; cbn [bind]; try discriminate.
    destruct (bc =? 0); intros [= <-].
    + right. apply slice_is_substring.
    + left. do 3 right. left.
  - intros [= <-]. left. do 2 right. left.
Qed.

(** X7.  Whatever [extract_block_content] returns is one of its four
    "Block content not found" answers or a piece of the text of the file: a
    run of consecutive characters of [raw_content]. *)
Theorem extracted_text_comes_from_file (raw_content block_type block_name content : str) :
  extract_block_content raw_content block_type block_name = Ret content ->
  content ∈ messages \/ substring content raw_content.
Proof.
  unfold extract_block_content.
  destruct (Py.eqb block_type (lit "terraform")); [apply extract_terraform_from_file|].
  destruct (Py.eqb block_type (lit "locals")); [apply extract_locals_from_file|].
  destruct (try_patterns _ _ _) as [st| |]; cbn [bind]; try discriminate.
  destruct (match fst st with
            | Some _ => Ret st
            | None => try_flexible raw_content block_type (escape_quotes block_name)
            end) as [st'| |]; cbn [bind]; try discriminate.
  destruct (fst st') as [start_idx|]; [| intros [= <-]; left; left].
  destruct (is_equals_block (snd st')).
  - apply extract_equals_from_file.
  - apply extract_braces_from_file.
Qed.

Lemma extracted_text_comes_from_file_witness :
  Sample.resource_b ∈ messages \/ substring Sample.resource_b Sample.two_resources.
Proof.
  apply (extracted_text_comes_from_file Sample.two_resources (lit "resource") (lit "b")).
  vm_compute. reflexivity.
Defined.

(** * The block column and the content column *)

Lemma split_once_at (sep : ascii) (a b : str) :
  sep ∉ a -> split_once sep (a ++ sep :: b) = [a; b].
Proof.
  intros Ha. unfold split_once.
  rewrite (find_char_first sep (a ++ sep :: b) 0 (length a)).
  - rewrite take_app_length. do 2 f_equal.
    replace (a ++ sep :: b) with ((a ++ [sep]) ++ b) by (by rewrite <- app_assoc).
    apply drop_app_length'. rewrite length_app. simpl. lia.
  - lia.
  - by rewrite list_lookup_middle.
  - intros k [_ Hk] Hlook. rewrite lookup_app_l in Hlook by exact Hk.
    apply Ha. by eapply list_elem_of_lookup_2.
Qed.

Lemma kinds_have_no_dot (kind : str) : kind ∈ kinds -> "."%char ∉ kind.
Proof.
  intros Hk Hdot. apply list_elem_of_In in Hk. apply list_elem_of_In in Hdot.
  simpl in Hk.
  repeat (destruct Hk as [<-|Hk]; [vm_compute in Hdot; intuition discriminate|]).
  destruct Hk.
Qed.

Lemma known_key_kind (k : key) :
  kind_key k = true -> exists kind, k = KStr kind /\ kind ∈ kinds.
Proof.
  destruct k as [w|]; [|discriminate]. intros Hk. exists w. split; [reflexivity|].
  apply existsb_exists in Hk as (kind & Hin & Heq).
  apply eqb_eq in Heq as ->. by apply list_elem_of_In.
Qed.

Lemma blocks_of_tree (structure : tree) (block : str) :
  block ∈ blocks_of (of_tree structure) ->
  exists k name, k ∈ keys structure /\ block = label k name.
Proof.
  destruct structure as [l]. cbn [of_tree blocks_of]. intros Hb.
  apply list_elem_of_In, in_flat_map in Hb as ([k v] & Hkv & Hb).
  apply in_map_iff in Hkv as ([k' t] & [= <- <-] & Hin). cbn [fst snd] in Hb.
  destruct t as [l']. cbn [of_tree labels_of] in Hb.
  apply in_map_iff in Hb as ([k2 v2] & <- & _).
  exists k', k2. split; [|reflexivity].
  unfold keys. cbn [items]. apply list_elem_of_fmap. exists (k', Dict l').
  split; [reflexivity | by apply list_elem_of_In].
Qed.

Lemma fallback_structure_known (raw_content : str) :
  exists structure,
    extract_fallback_structure raw_content = Ret structure /\ known_keys structure.
Proof.
  destruct (record_patterns_keys raw_content block_patterns) with (structure := empty_dict)
    as (structure & Hret & Hkeys).
  - vm_compute. reflexivity.
  - constructor.
  - exists structure. split; [exact Hret | exact Hkeys].
Qed.

(** X8.  Every label that the block column shows for a file read by the
    fallback is a block kind, a dot and a name; the label is cut at that dot,
    so that the content column looks the name up under the kind and never
    shows the "Invalid block format" row. *)
Theorem fallback_labels_split (raw_content : str) (structure : tree) (block : str) :
  extract_fallback_structure raw_content = Ret structure ->
  block ∈ blocks_of (of_tree structure) ->
  exists kind name,
    kind ∈ kinds
    /\ block = kind ++ lit "." ++ name
    /\ split_once "." block = [kind; name]
    /\ forall raw, shown_block raw block = shown_as raw kind name.
Proof.
  intros Hret Hb.
  destruct (fallback_structure_known raw_content) as (structure' & Hret' & Hkeys).
  rewrite Hret in Hret'. injection Hret' as <-.
  apply blocks_of_tree in Hb as (k & name & Hk & ->).
  unfold known_keys in Hkeys. rewrite Forall_forall in Hkeys.
  destruct (known_key_kind k (Hkeys k Hk)) as (kind & -> & Hkind).
  assert (Hlabel : label (KStr kind) name = kind ++ "."%char :: key_text name).
  { reflexivity. }
  assert (Hsplit : split_once "." (label (KStr kind) name) = [kind; key_text name]).
  { rewrite Hlabel. apply split_once_at. by apply kinds_have_no_dot. }
  exists kind, (key_text name).
  split; [exact Hkind|]. split; [exact Hlabel|]. split; [exact Hsplit|].
  intros raw. unfold shown_block, shown_as. rewrite Hsplit. reflexivity.
Qed.

Lemma fallback_labels_split_witness :
  exists kind name,
    kind ∈ kinds
    /\ lit "variable.region" = kind ++ lit "." ++ name
    /\ split_once "." (lit "variable.region") = [kind; name]
    /\ forall raw, shown_block raw (lit "variable.region") = shown_as raw kind name.
Proof.
  apply (fallback_labels_split (lit "variable `region` {}")
           (Dict [(KStr (lit "variable"), Dict [(KStr (lit "region"), Dict [])])])).
  - vm_compute. reflexivity.
  - vm_compute. left.
Defined.

(** ** Wrapping by characters *)

Lemma py_slice_nat (line : str) (a b : nat) :
  a <= length line -> b <= length line ->
  py_slice line (Z.of_nat a) (Z.of_nat b) = slice line a b.
Proof.
  intros Ha Hb. unfold py_slice, clip, len.
  destruct (Z.ltb_spec (Z.of_nat a) 0); [lia|].
  destruct (Z.ltb_spec (Z.of_nat b) 0); [lia|].
  f_equal; lia.
Qed.

Lemma length_slice (s : str) (a b : nat) :
  b <= length s -> length (slice s a b) = b - a.
Proof. intros Hb. unfold slice. rewrite length_take, length_drop. lia. Qed.

Lemma wrap_chars_rows (col3_width : Z) (line : str) :
  (6 < col3_width)%Z ->
  forall fuel start,
    start <= length line -> length line - start <= fuel ->
    exists rows,
      wrap_chars fuel col3_width line (Z.of_nat start) = Some rows
      /\ concat rows = drop start line
      /\ Forall (fun row => (len row <= col3_width - 6)%Z /\ row <> []) rows.
Proof.
  intros Hw. induction fuel as [|fuel IH]; intros start Hs Hf.
  - assert (start = length line) as -> by lia. exists []. simpl. unfold len.
    destruct (Z.ltb_spec (Z.of_nat (length line)) (Z.of_nat (length line))); [lia|].
    by rewrite drop_all.
  - cbn [wrap_chars]. unfold len at 1.
    destruct (Z.ltb_spec (Z.of_nat start) (Z.of_nat (length line))) as [Hlt|Hge].
    + set (stop := Z.to_nat (Z.min (Z.of_nat start + col3_width - 6) (len line))).
      assert (Hstop : Z.min (Z.of_nat start + col3_width - 6) (len line) = Z.of_nat stop).
      { unfold stop, len. lia. }
      assert (Hbounds : start < stop <= length line
                        /\ (Z.of_nat (stop - start) <= col3_width - 6)%Z).
      { unfold stop, len. lia. }
      rewrite Hstop.
      destruct (IH stop) as (rows & -> & Hcat & Hall); [lia | lia |].
      eexists. split; [reflexivity|]. rewrite py_slice_nat by lia. split.
      * simpl. rewrite Hcat. symmetry. apply drop_slice. lia.
      * constructor; [|exact Hall]. split.
        -- unfold len. rewrite length_slice by lia. lia.
        -- intros Hnil. apply (f_equal length) in Hnil.
           rewrite length_slice in Hnil by lia. simpl in Hnil. lia.
    + exists []. repeat split; [|constructor]. simpl. rewrite drop_ge; [done | lia].
Qed.

(** X9.  In a content column more than six columns wide, the wrapping of a
    line ends (after at most as many rounds as the line has characters); the
    rows it gives, put end to end, are the line, and each of them fits the
    [col3_width - 6] characters of a row. *)
Theorem wrapping_keeps_text (col3_width : Z) (line : str) (fuel : nat) :
  (6 < col3_width)%Z -> length line <= fuel ->
  exists rows,
    wrap_line fuel col3_width line = Some rows
    /\ concat rows = line
    /\ Forall (fun row => (len row <= col3_width - 6)%Z) rows.
Proof.
  intros Hw Hf. unfold wrap_line.
  destruct (Z.leb_spec (len line) (col3_width - 6)) as [Hle|Hgt].
  - exists [line]. repeat split; [by rewrite concat_cons, app_nil_r |].
    by repeat constructor.
  - destruct (wrap_chars_rows col3_width line Hw fuel 0) as (rows & Hrows & Hcat & Hall);
      [lia | lia |].
    exists rows. repeat split; [exact Hrows | exact Hcat |].
    eapply Forall_impl; [exact Hall|]. by intros row [? _].
Qed.

Lemma wrapping_keeps_text_witness :
  exists rows,
    wrap_line 20 10 (lit "ami = `abc-123`") = Some rows
    /\ concat rows = lit "ami = `abc-123`"
    /\ Forall (fun row => (len row <= 10 - 6)%Z) rows.
Proof.
  apply (wrapping_keeps_text 10 (lit "ami = `abc-123`") 20).
  - lia.
  - simpl. lia.
Defined.

Lemma wrap_chars_stuck (col3_width : Z) (line : str) :
  (col3_width <= 6)%Z ->
  forall fuel start, (start < len line)%Z -> wrap_chars fuel col3_width line start = None.
Proof.
  intros Hw. induction fuel as [|fuel IH]; intros start Hs; cbn [wrap_chars];
    destruct (Z.ltb_spec start (len line)); try lia; [reflexivity|].
  rewrite IH; [reflexivity | lia].
Qed.

(** X10.  On a screen of at most 50 columns the content column is at most
    six columns wide, and the loop that wraps a line that is not empty never
    ends: the offset it cuts from never moves forward, whatever number of
    rounds it is given. *)
Theorem narrow_screen_wrap_never_ends (width : Z) (line : str) (fuel : nat) :
  (width <= 50)%Z -> line <> [] ->
  wrap_line fuel (col3_width width) line = None.
Proof.
  intros Hw Hne.
  assert (Hc : (col3_width width <= 6)%Z).
  { unfold col3_width, col1_width, col2_width. lia. }
  assert (Hlen : (0 < len line)%Z).
  { unfold len. destruct line; [done | simpl; lia]. }
  unfold wrap_line.
  destruct (Z.leb_spec (len line) (col3_width width - 6)); [lia|].
  by apply wrap_chars_stuck.
Qed.

Lemma narrow_screen_wrap_never_ends_witness :
  wrap_line 1000 (col3_width 50) (lit "}") = None.
Proof.
  apply (narrow_screen_wrap_never_ends 50 (lit "}") 1000).
  - lia.
  - discriminate.
Defined.

(** ** The word wrap that counts the rows *)

Lemma split_on_join (sep : ascii) (s : str) :
  concat (map (fun w => w ++ [sep]) (split_on sep s)) = s ++ [sep].
Proof.
  induction s as [|c s IH]; [reflexivity|]. cbn [split_on].
  destruct (Ascii.eqb_spec c sep) as [->|Hne].
  - simpl. by rewrite IH.
  - destruct (split_on sep s) as [|w ws].
    + simpl in IH. by destruct s.
    + simpl in *. by rewrite IH.
Qed.

Lemma add_words_concat (limit : Z) (words : list str) :
  forall lines current_line,
    concat (fst (fold_left (add_word limit) words (lines, current_line)))
    ++ snd (fold_left (add_word limit) words (lines, current_line))
    = concat lines ++ current_line ++ concat (map (fun w => w ++ lit " ") words).
Proof.
  induction words as [|w words IH]; intros lines current_line.
  - simpl. by rewrite app_nil_r.
  - cbn [fold_left map]. unfold add_word at 2 4.
    destruct (len current_line + len w + 1 <=? limit)%Z; rewrite IH.
    + rewrite concat_cons. by rewrite <- !app_assoc.
    + rewrite concat_app, concat_cons. simpl. by rewrite app_nil_r, <- !app_assoc.
Qed.

(** X11.  The word wrap that counts the rows of a block loses no character
    of a line: its rows, put end to end, are the line followed by one
    space. *)
Theorem word_wrap_keeps_text (limit : Z) (original_line : str) :
  concat (word_wrap limit original_line) = original_line ++ lit " ".
Proof.
  unfold word_wrap.
  pose proof (add_words_concat limit (split_on " " original_line) [] []) as H.
  destruct (fold_left (add_word limit) (split_on " " original_line) ([], []))
    as [lines current_line].
  cbn [fst snd concat app] in H. change (lit " ") with [" "%char] in H |- *.
  rewrite (split_on_join " " original_line) in H.
  rewrite <- H. destruct current_line; [by rewrite app_nil_r|].
  by rewrite concat_app, concat_cons, app_nil_r.
Qed.

(** ** The selection that [main] hands to [file_view] *)




(** * The keys *)

(** The tests of a key on the fields of the state, case by case. *)
Ltac show_fields :=
  cbn [terraform_data view selected_index selected_block_index
       file_scroll_offset block_scroll_offset content_scroll_offset
       active_column wrap_lines andb to_column].

Ltac split_tests :=
  repeat (show_fields;
          match goal with
          | |- context [(?a <? ?b)%Z] => destruct (Z.ltb_spec a b)
          | |- context [(?a <=? ?b)%Z] => destruct (Z.leb_spec a b)
          | |- context [(?a =? ?b)%Z] => destruct (Z.eqb_spec a b)
          end);
  show_fields.

Ltac close_fields := split_tests; repeat split; first [lia | reflexivity | assumption].

Section KeyFacts.

Variables height width : Z.
Variable parsed : data.
Variable search_results : outcome (option (list (str * key * key))).
Variable workspace_result : bool.
Variables on_save on_edit : ui -> outcome ui.

Local Abbreviation round :=
  (on_key height width parsed search_results workspace_result on_save on_edit).

(** A key that is no command reaches the branch of the views. *)
Lemma round_no_command (key : Z) (st : ui) :
  key ∉ commands ->
  round key st
  = if (view st =? 1)%Z then st' <- file_view_key height width key st ;; Ret (Some st')
    else if (key =? ord "r")%Z then Ret (Some (with_data st parsed))
    else if (key =? ord "t")%Z then
      Ret (Some
        {| terraform_data := terraform_data st;
           view := if (view st =? 2)%Z then 3%Z else 1%Z;
           selected_index := selected_index st;
           selected_block_index := selected_block_index st;
           file_scroll_offset := file_scroll_offset st;
           block_scroll_offset := block_scroll_offset st;
           content_scroll_offset := content_scroll_offset st;
           active_column := active_column st;
           wrap_lines := wrap_lines st |})
    else Ret (Some st).
Proof.
  intros Hkey. unfold on_key.
  repeat match goal with
  | |- context [(key =? ord ?c)%Z] =>
      lazymatch goal with
      | H : key <> ord c |- _ => fail
      | _ => idtac
      end;
      destruct (Z.eqb_spec key (ord c)) as [Heq|?];
      [exfalso; apply Hkey; rewrite Heq; apply list_elem_of_In; vm_compute; tauto|]
  end.
  reflexivity.
Qed.

Lemma steering_no_command (key : Z) : key ∈ steering -> key ∉ commands.
Proof.
  intros Hk Hc. apply list_elem_of_In in Hk. apply list_elem_of_In in Hc.
  vm_compute in Hk. vm_compute in Hc.
  repeat (destruct Hk as [<-|Hk]; [intuition discriminate|]). destruct Hk.
Qed.

(** The blocks that the arrow keys compute again are those of the block
    column. *)
Lemma column_blocks_again (st : ui) :
  (0 <= selected_index st < len (file_names (terraform_data st)))%Z ->
  column_blocks (terraform_data st) (selected_index st) = Ret (blocks_again st).
Proof.
  intros Hsi. unfold column_blocks, blocks_again, py_item.
  destruct (Z.ltb_spec (selected_index st) (len (file_names (terraform_data st)))); [|lia].
  destruct (Z.leb_spec 0 (selected_index st)); [|lia].
  destruct (Z.ltb_spec (selected_index st) 0); [lia|].
  destruct (Z.ltb_spec (selected_index st) 0); [lia|]. cbn [andb].
  destruct (file_names (terraform_data st) !! Z.to_nat (selected_index st)) eqn:Hlook;
    [reflexivity|].
  apply lookup_ge_None in Hlook. unfold len in Hsi. lia.
Qed.

(** X13.  In the file view, the arrow keys, the page keys and the Tab key
    keep the selected file on the screen: if it is one of the files and lies
    in the rows of the file column before the key, it does so after it; the
    view and the data stay as they are. *)
Theorem steering_keeps_file_on_screen (key : Z) (st st' : ui) :
  key ∈ steering ->
  view st = 1%Z ->
  file_on_screen height st ->
  round key st = Ret (Some st') ->
  file_on_screen height st'
  /\ view st' = 1%Z
  /\ terraform_data st' = terraform_data st.
Proof.
  intros Hkey Hview Hon Hret.
  rewrite round_no_command in Hret by (by apply steering_no_command).
  rewrite Hview in Hret. cbn [Z.eqb Pos.eqb] in Hret.
  unfold file_view_key in Hret.
  destruct (column_blocks _ _) as [blocks| |]; cbn [bind] in Hret; try discriminate.
  destruct (selected_content st blocks) as [content| |]; cbn [bind] in Hret;
    try discriminate.
  unfold file_on_screen in *.
  apply list_elem_of_In in Hkey. simpl in Hkey.
  destruct Hkey as [<-|[<-|[<-|[<-|[<-|[]]]]]];
    unfold KEY_DOWN, KEY_UP, KEY_NPAGE, KEY_PPAGE in Hret;
    cbn [Z.eqb Pos.eqb bind] in Hret.
  - injection Hret as <-. unfold key_down. close_fields.
  - injection Hret as <-. unfold key_up. close_fields.
  - injection Hret as <-. unfold page_down, page_offset. close_fields.
  - injection Hret as <-. unfold page_up. close_fields.
  - unfold tab in Hret.
    repeat match type of Hret with
    | context [if ?b then _ else _] => destruct b eqn:?
    | context [selected_content ?s ?b] =>
        destruct (selected_content s b) as [?| |]; cbn [bind] in Hret; try discriminate
    end; injection Hret as <-; close_fields.
Qed.

Lemma blocks_again_selected (st : ui) :
  (0 < len (blocks_again st))%Z ->
  (0 <= selected_index st < len (file_names (terraform_data st)))%Z.
Proof.
  unfold blocks_again. intros Hlen.
  destruct (Z.leb_spec 0 (selected_index st));
    destruct (Z.ltb_spec (selected_index st) (len (file_names (terraform_data st))));
    cbn [andb] in Hlen; unfold len in Hlen; simpl in Hlen; lia.
Qed.

Lemma blocks_again_same (st st' : ui) :
  terraform_data st' = terraform_data st -> selected_index st' = selected_index st ->
  blocks_again st' = blocks_again st.
Proof. intros Hd Hs. unfold blocks_again. by rewrite Hd, Hs. Qed.

(** X14.  In the file view with the block column active, the arrow keys and
    the page keys keep the selected block on the screen: if it is one of the
    blocks of the selected file and lies in the rows of the block column
    before the key, it does so after it, and the same file stays selected. *)
Theorem moves_keep_block_on_screen (key : Z) (st st' : ui) :
  key ∈ moves ->
  view st = 1%Z ->
  active_column st = 1%Z ->
  block_on_screen height st ->
  round key st = Ret (Some st') ->
  block_on_screen height st'
  /\ active_column st' = 1%Z
  /\ selected_index st' = selected_index st.
Proof.
  intros Hkey Hview Hcol Hon Hret.
  assert (Hsteer : key ∈ steering) by (apply elem_of_app; by left).
  rewrite round_no_command in Hret by (by apply steering_no_command).
  rewrite Hview in Hret. cbn [Z.eqb Pos.eqb] in Hret.
  unfold file_view_key in Hret. unfold block_on_screen in Hon.
  rewrite column_blocks_again in Hret by (apply blocks_again_selected; lia).
  cbn [bind] in Hret.
  destruct (selected_content st (blocks_again st)) as [content| |]; cbn [bind] in Hret;
    try discriminate.
  assert (Hsame : terraform_data st' = terraform_data st
                  /\ selected_index st' = selected_index st
                  /\ active_column st' = 1%Z
                  /\ (0 <= block_scroll_offset st' <= selected_block_index st'
                      /\ selected_block_index st' < block_scroll_offset st' + max_rows height
                      /\ selected_block_index st' < len (blocks_again st))%Z).
  { apply list_elem_of_In in Hkey. simpl in Hkey.
    destruct Hkey as [<-|[<-|[<-|[<-|[]]]]];
      unfold KEY_DOWN, KEY_UP, KEY_NPAGE, KEY_PPAGE in Hret;
      cbn [Z.eqb Pos.eqb bind] in Hret; injection Hret as <-.
    - unfold key_down. rewrite Hcol. cbn [Z.eqb Pos.eqb]. close_fields.
    - unfold key_up. rewrite Hcol. cbn [Z.eqb Pos.eqb]. close_fields.
    - unfold page_down, page_offset. rewrite Hcol. cbn [Z.eqb Pos.eqb]. close_fields.
    - unfold page_up. rewrite Hcol. cbn [Z.eqb Pos.eqb]. close_fields. }
  destruct Hsame as (Hd & Hs & Hc & Hb). unfold block_on_screen.
  rewrite (blocks_again_same st st' Hd Hs). auto.
Qed.

(** X15.  Outside the file view the arrow keys, the page keys and the Tab
    key do nothing: in the category view and in the module view the state
    after such a key is the state before it. *)
Theorem steering_is_dead_outside_file_view (key : Z) (st : ui) :
  key ∈ steering ->
  view st <> 1%Z ->
  round key st = Ret (Some st).
Proof.
  intros Hkey Hview.
  rewrite round_no_command by (by apply steering_no_command).
  destruct (Z.eqb_spec (view st) 1); [done|].
  apply list_elem_of_In in Hkey. simpl in Hkey.
  by destruct Hkey as [<-|[<-|[<-|[<-|[<-|[]]]]]].
Qed.

(** X16.  In the file view a key that is neither one of the eleven command
    keys nor an arrow key, a page key or the Tab key changes nothing; the
    keys [r] and [t], whose branches come after the branch of the file
    view, are among them. *)
Theorem other_keys_do_nothing_in_file_view (key : Z) (st st' : ui) :
  key ∉ commands ->
  key ∉ steering ->
  view st = 1%Z ->
  round key st = Ret (Some st') ->
  st' = st.
Proof.
  intros Hcmd Hsteer Hview Hret.
  rewrite round_no_command in Hret by exact Hcmd.
  rewrite Hview in Hret. cbn [Z.eqb Pos.eqb] in Hret.
  unfold file_view_key in Hret.
  destruct (column_blocks _ _) as [blocks| |]; cbn [bind] in Hret; try discriminate.
  destruct (selected_content st blocks) as [content| |]; cbn [bind] in Hret;
    try discriminate.
  repeat match type of Hret with
  | context [(key =? ?k)%Z] =>
      destruct (Z.eqb_spec key k) as [Heq|_];
      [exfalso; apply Hsteer; rewrite Heq; apply list_elem_of_In; simpl; tauto|]
  end.
  cbn [bind] in Hret. by injection Hret as <-.
Qed.

End KeyFacts.

Lemma steering_keeps_file_on_screen_witness :
  file_on_screen 30 Sample3.second_file
  /\ view Sample3.second_file = 1%Z
  /\ terraform_data Sample3.second_file = terraform_data Sample3.start.
Proof.
  apply (steering_keeps_file_on_screen 30 100 [] Sample3.no_search false
           Sample3.no_save Sample3.no_save KEY_DOWN Sample3.start).
  - apply list_elem_of_In. simpl. tauto.
  - reflexivity.
  - unfold file_on_screen. vm_compute. repeat split; discriminate.
  - vm_compute. reflexivity.
Defined.

Lemma moves_keep_block_on_screen_witness :
  block_on_screen 30 Sample3.second_block
  /\ active_column Sample3.second_block = 1%Z
  /\ selected_index Sample3.second_block = selected_index Sample3.on_block.
Proof.
  apply (moves_keep_block_on_screen 30 100 [] Sample3.no_search false
           Sample3.no_save Sample3.no_save KEY_DOWN Sample3.on_block).
  - apply list_elem_of_In. simpl. tauto.
  - reflexivity.
  - reflexivity.
  - unfold block_on_screen. vm_compute. repeat split; discriminate.
  - vm_compute. reflexivity.
Defined.

Lemma steering_is_dead_outside_file_view_witness :
  on_key 30 100 [] Sample3.no_search false Sample3.no_save Sample3.no_save
    KEY_DOWN Sample3.categories
  = Ret (Some Sample3.categories).
Proof.
  apply (steering_is_dead_outside_file_view 30 100 [] Sample3.no_search false
           Sample3.no_save Sample3.no_save KEY_DOWN Sample3.categories).
  - apply list_elem_of_In. simpl. tauto.
  - discriminate.
Defined.

Lemma other_keys_do_nothing_in_file_view_witness :
  Sample3.start = Sample3.start.
Proof.
  apply (other_keys_do_nothing_in_file_view 30 100 [] Sample3.no_search false
           Sample3.no_save Sample3.no_save (ord "t") Sample3.start).
  - intros H. apply list_elem_of_In in H. vm_compute in H. intuition discriminate.
  - intros H. apply list_elem_of_In in H. vm_compute in H. intuition discriminate.
  - reflexivity.
  - vm_compute. reflexivity.
Defined.

(** * The rows, the workspaces and the saved file *)

Lemma length_py_slice_head (s : str) (n : Z) :
  (0 <= n)%Z -> len (py_slice s 0 n) = Z.min n (len s).
Proof.
  intros Hn. unfold py_slice, clip, len.
  destruct (Z.ltb_spec 0 0); [lia|]. destruct (Z.ltb_spec n 0); [lia|].
  unfold slice. rewrite length_take, length_drop. lia.
Qed.

(** X17.  With wrapping on, every row of the block column has the same
    width, [col2_width - 1] characters, whatever the label and the width of
    the screen: a long label is cut and closed with three dots, a short one
    is filled with spaces. *)
Theorem block_rows_have_one_width (width : Z) (block : str) :
  len (block_row true (col2_width width) block) = (col2_width width - 1)%Z.
Proof.
  assert (Hw : (20 <= col2_width width)%Z) by (unfold col2_width; lia).
  unfold block_row, ljust. cbn [andb].
  destruct (Z.ltb_spec (col2_width width - 4) (len block)) as [Hlong|Hshort].
  - pose proof (length_py_slice_head block (col2_width width - 7) ltac:(lia)) as Hcut.
    unfold len in *. rewrite !length_app, length_replicate, ?length_app.
    change (length (lit "...")) with 3. change (length (lit "| ")) with 2.
    change (length (lit " ")) with 1. lia.
  - unfold len in *. rewrite !length_app, length_replicate.
    change (length (lit "| ")) with 2. change (length (lit " ")) with 1. lia.
Qed.

(** ** The listing of the workspaces *)

Lemma lstrip_spaces (ws t : str) :
  Forall (fun c => isspace c = true) ws -> lstrip (ws ++ t) = lstrip t.
Proof.
  induction 1 as [|c ws Hc _ IH]; [reflexivity|]. simpl. by rewrite Hc.
Qed.

Lemma lstrip_id (c : ascii) (t : str) : isspace c = false -> lstrip (c :: t) = c :: t.
Proof. intros Hc. simpl. by rewrite Hc. Qed.

Lemma rstrip_spaces (t ws : str) :
  Forall (fun c => isspace c = true) ws -> rstrip (t ++ ws) = rstrip t.
Proof.
  intros Hws. unfold rstrip. rewrite rev_app_distr, lstrip_spaces; [done|].
  by apply Forall_rev.
Qed.

Lemma rstrip_id (t : str) (c : ascii) : isspace c = false -> rstrip (t ++ [c]) = t ++ [c].
Proof.
  intros Hc. unfold rstrip. rewrite rev_app_distr. simpl. rewrite Hc. simpl.
  by rewrite rev_involutive.
Qed.

(** A text that starts and ends with a character that is no space. *)
Lemma strip_between (ws1 ws2 s t u : str) (a b : ascii) :
  Forall (fun c => isspace c = true) ws1 -> Forall (fun c => isspace c = true) ws2 ->
  s = a :: t -> isspace a = false ->
  s = u ++ [b] -> isspace b = false ->
  strip (ws1 ++ s ++ ws2) = s.
Proof.
  intros H1 H2 Hs Ha Hs' Hb. unfold strip.
  rewrite lstrip_spaces by exact H1.
  assert (Hl : lstrip (s ++ ws2) = s ++ ws2).
  { rewrite Hs. cbn [app]. by apply lstrip_id. }
  rewrite Hl, rstrip_spaces by exact H2. rewrite Hs'. by apply rstrip_id.
Qed.

Lemma name_edges (name : str) :
  name <> [] -> Forall (fun c => isspace c = false) name ->
  (exists a t, name = a :: t /\ isspace a = false)
  /\ (exists u b, name = u ++ [b] /\ isspace b = false).
Proof.
  intros Hne Hsp. rewrite Forall_forall in Hsp. split.
  - destruct name as [|a t]; [done|]. exists a, t. split; [done|]. apply Hsp. left.
  - destruct (exists_last Hne) as (u & b & Hname). exists u, b. split; [done|].
    apply Hsp. rewrite Hname. apply elem_of_app. right. left.
Qed.

Lemma strip_name (ws1 ws2 name : str) :
  Forall (fun c => isspace c = true) ws1 -> Forall (fun c => isspace c = true) ws2 ->
  name <> [] -> Forall (fun c => isspace c = false) name ->
  strip (ws1 ++ name ++ ws2) = name.
Proof.
  intros H1 H2 Hne Hsp.
  destruct (name_edges name Hne Hsp) as ((a & t & Hs & Ha) & (u & b & Hs' & Hb)).
  by eapply strip_between.
Qed.

Lemma split_on_line (sep : ascii) (a b : str) :
  sep ∉ a -> split_on sep (a ++ sep :: b) = a :: split_on sep b.
Proof.
  induction a as [|c a IH]; intros Ha; cbn [app split_on].
  - by rewrite Ascii.eqb_refl.
  - destruct (Ascii.eqb_spec c sep) as [->|Hne].
    + exfalso. apply Ha. left.
    + rewrite IH; [reflexivity|]. intros Hin. apply Ha. by right.
Qed.

Lemma split_on_last (sep : ascii) (a : str) : sep ∉ a -> split_on sep a = [a].
Proof.
  induction a as [|c a IH]; intros Ha; cbn [split_on]; [reflexivity|].
  destruct (Ascii.eqb_spec c sep) as [->|Hne].
  - exfalso. apply Ha. left.
  - rewrite IH; [reflexivity|]. intros Hin. apply Ha. by right.
Qed.

Lemma name_no_nl (name : str) :
  Forall (fun c => isspace c = false) name -> nl ∉ name.
Proof.
  intros Hn Hin. rewrite Forall_forall in Hn. specialize (Hn nl Hin). discriminate.
Qed.

Lemma workspace_line_no_nl (row : bool * str) :
  workspace_name (snd row) -> nl ∉ workspace_line row.
Proof.
  intros (_ & Hn & _) Hin. unfold workspace_line in Hin.
  apply elem_of_app in Hin as [Hin|Hin].
  - destruct (fst row); apply list_elem_of_In in Hin; vm_compute in Hin;
      intuition discriminate.
  - by apply (name_no_nl (snd row)).
Qed.

Lemma workspace_of_line_name (row : bool * str) :
  workspace_name (snd row) -> workspace_of_line (workspace_line row) = snd row.
Proof.
  intros (Hne & Hn & _).
  destruct row as [[|] name]; unfold workspace_line, workspace_of_line; cbn [fst snd] in *.
  - change (lit "* " ++ name) with ("*"%char :: " "%char :: name).
    change (startswith (lit "*") ("*"%char :: " "%char :: name)) with true.
    cbn [drop]. rewrite <- (app_nil_r name) at 1.
    by apply (strip_name [] []).
  - change (lit "  " ++ name) with (" "%char :: " "%char :: name).
    change (startswith (lit "*") (" "%char :: " "%char :: name)) with false.
    cbv iota. rewrite <- (app_nil_r name) at 1.
    by apply (strip_name [" "%char; " "%char] []); [repeat constructor | constructor | |].
Qed.

Lemma workspace_of_name (name : str) :
  workspace_name name -> workspace_of_line name = name.
Proof.
  intros (Hne & Hn & Hstar). unfold workspace_of_line.
  destruct (startswith (lit "*") name); [done|].
  rewrite <- (app_nil_r name) at 1. by apply (strip_name [] []).
Qed.

(** The lines of a listing without its last newline. *)
Lemma split_listing (rows : list (bool * str)) :
  Forall (fun row => workspace_name (snd row)) rows ->
  forall head, nl ∉ head ->
    split_on nl (head ++ concat (map (fun row => nl :: workspace_line row) rows))
    = head :: map workspace_line rows.
Proof.
  induction rows as [|r rows IH]; intros Hrows head Hhead; cbn [map concat].
  - rewrite app_nil_r. by apply split_on_last.
  - inversion Hrows as [|? ? Hr Hrest]; subst.
    cbn [app]. rewrite split_on_line by exact Hhead. f_equal.
    apply IH; [exact Hrest | by apply workspace_line_no_nl].
Qed.

Lemma listing_lines (rows : list (bool * str)) (row : bool * str) :
  workspace_listing (row :: rows)
  = workspace_line row ++ concat (map (fun row => nl :: workspace_line row) rows) ++ [nl].
Proof.
  unfold workspace_listing. revert row.
  induction rows as [|r rows IH]; intros row; cbn [map concat].
  - by rewrite app_nil_r.
  - specialize (IH r). cbn [map concat] in IH. rewrite IH.
    rewrite <- !app_assoc. reflexivity.
Qed.

(** The last character of the lines after the first one is no space. *)
Lemma listing_tail_end (rows : list (bool * str)) :
  Forall (fun row => workspace_name (snd row)) rows -> rows <> [] ->
  exists t b, concat (map (fun row => nl :: workspace_line row) rows) = t ++ [b]
              /\ isspace b = false.
Proof.
  intros Hall Hne. destruct (exists_last Hne) as (rows' & r & ->).
  apply Forall_app in Hall as [_ Hr]. inversion Hr as [|? ? (Hn & Hsp & _) _]; subst.
  destruct (name_edges (snd r) Hn Hsp) as (_ & (u & b & Hname & Hb)).
  exists (concat (map (fun row => nl :: workspace_line row) rows')
          ++ nl :: (if fst r then lit "* " else lit "  ") ++ u), b.
  split; [|exact Hb].
  rewrite map_app, concat_app. cbn [map concat]. rewrite app_nil_r.
  unfold workspace_line. rewrite Hname. rewrite <- !app_assoc. cbn [app].
  by rewrite <- !app_assoc.
Qed.

(** X18.  [list_terraform_workspaces] reads the names back from a listing:
    for a listing that has one line for each workspace, a star and a space
    before the current one and two spaces before another, and names without
    space characters, the result is the list of the names, in their order. *)
Theorem workspaces_are_read_back (rows : list (bool * str)) :
  rows <> [] ->
  Forall (fun row => workspace_name (snd row)) rows ->
  list_terraform_workspaces (Completed (workspace_listing rows)) = map snd rows.
Proof.
  intros Hne Hall. destruct rows as [|row rows]; [done|]. clear Hne.
  inversion Hall as [|? ? Hrow Hrows]; subst.
  cbn [list_terraform_workspaces]. rewrite listing_lines.
  set (tail := concat (map (fun row => nl :: workspace_line row) rows)).
  pose proof Hrow as (Hn & Hsp & Hstar).
  destruct (name_edges (snd row) Hn Hsp) as ((a & t & Hname & Ha) & (u & b & Hname' & Hb)).
  (* the first line without the two spaces that [strip] removes *)
  set (head := (if fst row then lit "* " else []) ++ snd row).
  set (ws := if fst row then [] else lit "  ").
  assert (Hline : workspace_line row = ws ++ head).
  { unfold workspace_line, ws, head. by destruct (fst row). }
  assert (Hfirst : exists a' t', head ++ tail = a' :: t' /\ isspace a' = false).
  { unfold head. destruct (fst row).
    - exists "*"%char, (" "%char :: snd row ++ tail). by split.
    - exists a, (t ++ tail). rewrite Hname. by split. }
  assert (Hlast : exists u' b', head ++ tail = u' ++ [b'] /\ isspace b' = false).
  { destruct rows as [|r rows'].
    - exists ((if fst row then lit "* " else []) ++ u), b. split; [|exact Hb].
      unfold head, tail. cbn [map concat]. rewrite app_nil_r, Hname'.
      by rewrite <- app_assoc.
    - destruct (listing_tail_end (r :: rows') Hrows ltac:(discriminate))
        as (u' & b' & Htail & Hb').
      exists (head ++ u'), b'. split; [|exact Hb'].
      fold tail in Htail. rewrite Htail. by rewrite <- app_assoc. }
  destruct Hfirst as (a' & t' & Hcore & Ha'). destruct Hlast as (u' & b' & Hcore' & Hb').
  assert (Hstrip : strip (workspace_line row ++ tail ++ [nl]) = head ++ tail).
  { rewrite Hline, <- app_assoc, (app_assoc head tail [nl]).
    apply (strip_between ws [nl] (head ++ tail) t' u' a' b'); try assumption.
    - unfold ws. destruct (fst row); by repeat constructor.
    - by repeat constructor. }
  rewrite Hstrip. unfold tail. rewrite split_listing; [|exact Hrows|].
  - cbn [map]. f_equal.
    + unfold head. destruct row as [[|] name]; cbn [fst snd] in *.
      * by apply (workspace_of_line_name (true, name)).
      * by apply workspace_of_name.
    + rewrite map_map. apply map_ext_in. intros r Hr.
      apply workspace_of_line_name. rewrite Forall_forall in Hrows. apply Hrows.
      by apply list_elem_of_In.
  - unfold head. intros Hin. apply elem_of_app in Hin as [Hin|Hin].
    + destruct (fst row); apply list_elem_of_In in Hin; vm_compute in Hin;
        intuition discriminate.
    + by apply (name_no_nl (snd row)).
Qed.

Lemma workspaces_are_read_back_witness :
  list_terraform_workspaces
    (Completed (workspace_listing [(false, lit "default"); (true, lit "dev")]))
  = map snd [(false, lit "default"); (true, lit "dev")].
Proof.
  apply (workspaces_are_read_back [(false, lit "default"); (true, lit "dev")]).
  - discriminate.
  - repeat constructor; try discriminate; vm_compute; discriminate.
Defined.

(** ** The saved file *)

Lemma endswith_app (p s : str) : endswith p (s ++ p) = true.
Proof. unfold endswith. rewrite rev_app_distr. apply startswith_app. Qed.



(** * The files that are loaded *)

Lemma data_set_keys (k : str) (v : value) (d : data) :
  k ∉ map fst d -> map fst (data_set k v d) = map fst d ++ [k].
Proof.
  induction d as [|[k' v'] d IH]; intros Hk; cbn [data_set map fst app]; [reflexivity|].
  destruct (Py.eqb k k') eqn:Heq.
  - apply eqb_eq in Heq as ->. exfalso. apply Hk. left.
  - cbn [map fst]. rewrite IH; [reflexivity|]. intros Hin. apply Hk. by right.
Qed.

Lemma eqb_refl (a : str) : Py.eqb a a = true.
Proof. by apply eqb_eq. Qed.

Lemma eqb_neq (a b : str) : a <> b -> Py.eqb a b = false.
Proof.
  intros Hne. destruct (Py.eqb a b) eqn:Heq; [|reflexivity].
  by apply eqb_eq in Heq.
Qed.

Lemma data_get_set_eq (k : str) (v : value) (d : data) (default : value) :
  data_get k (data_set k v d) default = v.
Proof.
  induction d as [|[k' v'] d IH]; cbn [data_set data_get].
  - by rewrite eqb_refl.
  - destruct (Py.eqb k k') eqn:Heq; cbn [data_get]; rewrite Heq; [reflexivity | exact IH].
Qed.

Lemma data_get_set_ne (k k0 : str) (v : value) (d : data) (default : value) :
  k <> k0 -> data_get k (data_set k0 v d) default = data_get k d default.
Proof.
  intros Hne. induction d as [|[k' v'] d IH]; cbn [data_set data_get].
  - by rewrite eqb_neq.
  - destruct (Py.eqb k0 k') eqn:Heq; cbn [data_get].
    + apply eqb_eq in Heq as <-. by rewrite eqb_neq.
    + by rewrite IH.
Qed.

(** The name of a Terraform file does not end with [_raw]. *)
Lemma terraform_file_not_raw (file : str) :
  is_terraform_file file = true -> endswith (lit "_raw") file = false.
Proof.
  unfold is_terraform_file, endswith.
  change (rev (lit ".tf")) with ["f"; "t"; "."]%char.
  change (rev (lit ".tfvars")) with ["s"; "r"; "a"; "v"; "f"; "t"; "."]%char.
  change (rev (lit "_raw")) with ["w"; "a"; "r"; "_"]%char.
  destruct (rev file) as [|c r]; [done|]. cbn [startswith].
  destruct (Ascii.eqb_spec "w" c) as [<-|_]; [|reflexivity].
  intros H. simpl in H. discriminate.
Qed.

Lemma raw_key_is_raw (file : str) : endswith (lit "_raw") (file ++ lit "_raw") = true.
Proof. apply endswith_app. Qed.

Lemma file_names_app (d1 d2 : data) :
  file_names (d1 ++ d2) = file_names d1 ++ file_names d2.
Proof. unfold file_names. by rewrite map_app, List.filter_app. Qed.

Lemma filter_names_app (l1 l2 : list str) :
  List.filter (fun f => negb (endswith (lit "_raw") f)) (l1 ++ l2)
  = List.filter (fun f => negb (endswith (lit "_raw") f)) l1
    ++ List.filter (fun f => negb (endswith (lit "_raw") f)) l2.
Proof. apply List.filter_app. Qed.

(** The names among the keys that the loop adds for a file. *)
Lemma entries_names (read : str -> str + str) (file : str) :
  List.filter (fun f => negb (endswith (lit "_raw") f)) (entries_of read file)
  = if is_terraform_file file && readable read file then [file] else [].
Proof.
  unfold entries_of. destruct (is_terraform_file file) eqn:Htf; [|reflexivity].
  pose proof (terraform_file_not_raw file Htf) as Hnr.
  destruct (readable read file); cbn [andb List.filter];
    rewrite ?raw_key_is_raw, ?Hnr; reflexivity.
Qed.

Section ParseFacts.

Variable read : str -> str + str.
Variable hcl2_load : str -> option value.

(** One round of the loop for a file whose keys are new. *)
Lemma parse_file_adds (file : str) (d : data) :
  file ∉ map fst d -> file ++ lit "_raw" ∉ map fst d ->
  exists d',
    parse_file read hcl2_load file d = Ret d'
    /\ map fst d' = map fst d ++ entries_of read file
    /\ (forall k default, k <> file -> k <> file ++ lit "_raw" ->
          data_get k d' default = data_get k d default)
    /\ (is_terraform_file file = true ->
          forall default,
            data_get (file ++ lit "_raw") d' default = VStr (raw_entry read file)).
Proof.
  intros Hfile Hraw. unfold parse_file, entries_of, readable, raw_entry.
  destruct (is_terraform_file file) eqn:Htf.
  - assert (Hne : file <> file ++ lit "_raw").
    { intros Heq. apply (f_equal length) in Heq. rewrite length_app in Heq.
      simpl in Heq. lia. }
    destruct (read file) as [raw|e].
    + assert (Hfile' : file ∉ map fst (data_set (file ++ lit "_raw") (VStr raw) d)).
      { rewrite data_set_keys by exact Hraw. intros Hin.
        apply elem_of_app in Hin as [Hin|Hin]; [by apply Hfile|].
        apply list_elem_of_singleton in Hin. by apply Hne. }
      destruct (hcl2_load file) as [content|].
      * eexists. split; [reflexivity|]. split; [|split].
        -- rewrite data_set_keys by exact Hfile'. rewrite data_set_keys by exact Hraw.
           by rewrite <- app_assoc.
        -- intros k default Hk Hk'. by rewrite !data_get_set_ne.
        -- intros _ default. rewrite data_get_set_ne by (intros Heq; by apply Hne).
           apply data_get_set_eq.
      * rewrite data_get_set_eq. cbn [raw_text bind].
        destruct (fallback_structure_known raw) as (structure & -> & _). cbn [bind].
        eexists. split; [reflexivity|]. split; [|split].
        -- rewrite data_set_keys by exact Hfile'. rewrite data_set_keys by exact Hraw.
           by rewrite <- app_assoc.
        -- intros k default Hk Hk'. by rewrite !data_get_set_ne.
        -- intros _ default. rewrite data_get_set_ne by (intros Heq; by apply Hne).
           apply data_get_set_eq.
    + eexists. split; [reflexivity|]. split; [|split].
      * by apply data_set_keys.
      * intros k default Hk Hk'. by rewrite data_get_set_ne.
      * intros _ default. apply data_get_set_eq.
  - exists d. split; [reflexivity|]. split; [by rewrite app_nil_r|]. split; [done|].
    discriminate.
Qed.

Lemma entries_apart (file : str) (files : list str) (k : str) :
  file ∉ files -> is_terraform_file file = true ->
  k ∈ entries_of read file -> apart k files.
Proof.
  intros Hfile Htf Hk f Hf Hftf. unfold entries_of in Hk. rewrite Htf in Hk.
  assert (Hcases : k = file ++ lit "_raw" \/ k = file).
  { destruct (readable read file);
      repeat (apply elem_of_cons in Hk as [->|Hk]; [tauto|]); by apply elem_of_nil in Hk. }
  assert (Hdiff : file <> f) by (intros ->; by apply Hfile).
  destruct Hcases as [-> | ->].
  - split.
    + intros Heq. pose proof (terraform_file_not_raw f Hftf) as Hnr.
      rewrite <- Heq, raw_key_is_raw in Hnr. discriminate.
    + intros Heq. by apply app_inv_tail in Heq.
  - split; [exact Hdiff|].
    intros Heq. pose proof (terraform_file_not_raw file Htf) as Hnr.
    rewrite Heq, raw_key_is_raw in Hnr. discriminate.
Qed.

Lemma parse_files_adds (files : list str) :
  NoDup files ->
  forall d, Forall (fun k => apart k files) (map fst d) ->
    exists d',
      parse_files read hcl2_load files d = Ret d'
      /\ map fst d' = map fst d ++ flat_map (entries_of read) files
      /\ (forall k default, apart k files -> data_get k d' default = data_get k d default)
      /\ (forall f default, f ∈ files -> is_terraform_file f = true ->
            data_get (f ++ lit "_raw") d' default = VStr (raw_entry read f)).
Proof.
  induction 1 as [|file files Hfile Hnd IH]; intros d Hd; cbn [parse_files flat_map].
  - exists d. split; [reflexivity|]. split; [by rewrite app_nil_r|]. split; [done|].
    intros f default Hf. by apply elem_of_nil in Hf.
  - destruct (is_terraform_file file) eqn:Htf.
    + rewrite Forall_forall in Hd.
      destruct (parse_file_adds file d) as (d1 & -> & Hkeys1 & Hget1 & Hraw1).
      { intros Hin. destruct (Hd file Hin file) as [Hne _]; [left | exact Htf | done]. }
      { intros Hin. destruct (Hd _ Hin file) as [_ Hne]; [left | exact Htf | done]. }
      cbn [bind].
      destruct (IH d1) as (d' & -> & Hkeys & Hget & Hraw).
      { rewrite Hkeys1. apply Forall_app. split.
        - apply Forall_forall. intros k Hk f Hf. apply (Hd k Hk). by right.
        - apply Forall_forall. intros k Hk. by eapply entries_apart. }
      exists d'. split; [reflexivity|]. split; [|split].
      * rewrite Hkeys, Hkeys1. by rewrite <- app_assoc.
      * intros k default Hk. rewrite Hget.
        -- destruct (Hk file) as [Hne Hne']; [left | exact Htf |]. by apply Hget1.
        -- intros f Hf. apply Hk. by right.
      * intros f default Hf Hftf. apply elem_of_cons in Hf as [->|Hf].
        -- rewrite Hget; [by apply Hraw1|].
           eapply (entries_apart file files); [exact Hfile | exact Htf |].
           unfold entries_of. rewrite Htf. destruct (readable read file); left.
        -- by apply Hraw.
    + unfold parse_file at 1. rewrite Htf. cbn [bind].
      destruct (IH d) as (d' & -> & Hkeys & Hget & Hraw).
      { apply Forall_forall. intros k Hk f Hf. rewrite Forall_forall in Hd.
        apply (Hd k Hk). by right. }
      exists d'. split; [reflexivity|]. split; [|split].
      * rewrite Hkeys. unfold entries_of at 2. by rewrite Htf.
      * intros k default Hk. apply Hget. intros f Hf. apply Hk. by right.
      * intros f default Hf Hftf. apply elem_of_cons in Hf as [->|Hf]; [congruence|].
        by apply Hraw.
Qed.

(** X20.  [parse_terraform_files] returns for every directory, and the
    files of the file column are the Terraform files of the directory that
    could be read, in the order of the directory; for every Terraform file,
    read or not, the entry [file + "_raw"] holds its text or the text of the
    error. *)
Theorem loaded_files_are_the_readable_ones (listdir : list str) :
  NoDup listdir ->
  exists terraform_data,
    parse_terraform_files listdir read hcl2_load = Ret terraform_data
    /\ file_names terraform_data
       = List.filter (fun f => is_terraform_file f && readable read f) listdir
    /\ forall f default, f ∈ listdir -> is_terraform_file f = true ->
         data_get (f ++ lit "_raw") terraform_data default = VStr (raw_entry read f).
Proof.
  intros Hnd. destruct (parse_files_adds listdir Hnd []) as (d & Hret & Hkeys & _ & Hraw);
    [constructor|].
  exists d. split; [exact Hret|]. split; [|exact Hraw].
  unfold file_names. rewrite Hkeys. cbn [map app].
  clear. induction listdir as [|f files IH]; [reflexivity|].
  cbn [flat_map List.filter]. rewrite filter_names_app, entries_names, IH.
  by destruct (is_terraform_file f && readable read f).
Qed.

End ParseFacts.

Lemma loaded_files_are_the_readable_ones_witness :
  exists terraform_data,
    parse_terraform_files Sample4.directory Sample4.read Sample4.no_hcl2 = Ret terraform_data
    /\ file_names terraform_data
       = List.filter (fun f => is_terraform_file f && readable Sample4.read f)
           Sample4.directory
    /\ forall f default, f ∈ Sample4.directory -> is_terraform_file f = true ->
         data_get (f ++ lit "_raw") terraform_data default = VStr (raw_entry Sample4.read f).
Proof.
  apply (loaded_files_are_the_readable_ones Sample4.read Sample4.no_hcl2 Sample4.directory).
  repeat (constructor; [intros Hin; apply list_elem_of_In in Hin; vm_compute in Hin;
                        intuition discriminate|]).
  constructor.
Defined.

(** * The search *)

Lemma collect_member {A R : Type} (f : A -> outcome (list R)) (l : list A)
    (rs : list R) (x : R) :
  collect f l = Ret rs -> x ∈ rs ->
  exists a ra, a ∈ l /\ f a = Ret ra /\ x ∈ ra.
Proof.
  revert rs. induction l as [|a l IH]; intros rs; cbn [collect].
  - intros [= <-] Hx. by apply elem_of_nil in Hx.
  - destruct (f a) as [ra| |] eqn:Hfa; cbn [bind]; try discriminate.
    destruct (collect f l) as [more| |]; cbn [bind]; try discriminate.
    intros [= <-] Hx. apply elem_of_app in Hx as [Hx|Hx].
    + exists a, ra. repeat split; [left | exact Hfa | exact Hx].
    + destruct (IH more eq_refl Hx) as (a' & ra' & Ha' & Hfa' & Hx').
      exists a', ra'. repeat split; [by right | exact Hfa' | exact Hx'].
Qed.

Lemma search_block_result (search_term raw_content file_name : str)
    (block_type block_name : key) (rs : list result) (x : result) :
  search_block search_term raw_content file_name block_type block_name = Ret rs ->
  x ∈ rs -> x = (file_name, block_type, block_name).
Proof.
  unfold search_block.
  destruct (key_str block_type) as [tt| |]; cbn [bind]; try discriminate.
  destruct (key_str block_name) as [nt| |]; cbn [bind]; try discriminate.
  destruct (extract_block_content raw_content tt nt) as [c| |]; cbn [bind]; try discriminate.
  destruct (contains _ _); intros [= <-] Hx.
  - by apply list_elem_of_singleton in Hx.
  - by apply elem_of_nil in Hx.
Qed.

Lemma search_names_result (search_term raw_content file_name : str) (block_type : key)
    (d : list (key * value)) (rs : list result) (x : result) :
  collect (fun kv => search_block search_term raw_content file_name block_type (fst kv)) d
  = Ret rs ->
  x ∈ rs ->
  exists name, x = (file_name, block_type, name)
               /\ label block_type name ∈ map (fun kv => label block_type (fst kv)) d.
Proof.
  intros Hc Hx. destruct (collect_member _ _ _ _ Hc Hx) as (kv & ra & Hkv & Hra & Hx').
  apply (search_block_result _ _ _ _ _ _ _ Hra) in Hx'. exists (fst kv).
  split; [exact Hx'|]. apply list_elem_of_fmap. by exists kv.
Qed.

Lemma search_items_result (search_term raw_content file_name : str) (block_type : key)
    (block_items : value) (rs : list result) (x : result) :
  search_items search_term raw_content file_name block_type block_items = Ret rs ->
  x ∈ rs ->
  exists name, x = (file_name, block_type, name)
               /\ label block_type name ∈ labels_of block_type block_items.
Proof.
  destruct block_items as [s|d|l|]; cbn [search_items labels_of].
  - intros [= <-] Hx. by apply elem_of_nil in Hx.
  - apply search_names_result.
  - intros Hc Hx. destruct (collect_member _ _ _ _ Hc Hx) as (item & ra & Hitem & Hra & Hx').
    destruct item as [s|d| |]; try (injection Hra as <-; by apply elem_of_nil in Hx').
    destruct (search_names_result _ _ _ _ _ _ _ Hra Hx') as (name & -> & Hlabel).
    exists name. split; [reflexivity|].
    apply list_elem_of_In, in_flat_map. exists (VDict d).
    split; apply list_elem_of_In; assumption.
  - intros [= <-] Hx. by apply elem_of_nil in Hx.
Qed.

Lemma search_file_result (search_term : str) (terraform_data : data) (entry : str * value)
    (rs : list result) (x : result) :
  search_file search_term terraform_data entry = Ret rs ->
  x ∈ rs ->
  exists block_type name,
    x = (fst entry, block_type, name)
    /\ endswith (lit "_raw") (fst entry) = false
    /\ label block_type name ∈ blocks_of (snd entry).
Proof.
  unfold search_file.
  destruct (endswith (lit "_raw") (fst entry)) eqn:Hraw.
  { intros [= <-] Hx. by apply elem_of_nil in Hx. }
  destruct (raw_text _) as [raw| |]; cbn [bind]; try discriminate.
  destruct raw as [|c raw].
  { intros [= <-] Hx. by apply elem_of_nil in Hx. }
  destruct (contains _ _).
  - destruct (snd entry) as [s|d|l|]; try discriminate.
    intros Hc Hx. destruct (collect_member _ _ _ _ Hc Hx) as (kv & ra & Hkv & Hra & Hx').
    destruct (search_items_result _ _ _ _ _ _ _ Hra Hx') as (name & -> & Hlabel).
    exists (fst kv), name. repeat split.
    cbn [blocks_of]. apply list_elem_of_In, in_flat_map. exists kv.
    split; apply list_elem_of_In; assumption.
  - intros [= <-] Hx. by apply elem_of_nil in Hx.
Qed.

(** Every result of a search names a file of the file column and a block
    of the block column of that file. *)
Lemma prompt_for_search_result (typed : str) (terraform_data : data) (rs : list result)
    (file_name : str) (block_type block_name : key) :
  prompt_for_search typed terraform_data = Ret (Some rs) ->
  (file_name, block_type, block_name) ∈ rs ->
  exists file_content,
    (file_name, file_content) ∈ terraform_data
    /\ endswith (lit "_raw") file_name = false
    /\ label block_type block_name ∈ blocks_of file_content.
Proof.
  unfold prompt_for_search. destruct (strip typed) as [|c search_term]; [discriminate|].
  destruct (collect _ _) as [results| |] eqn:Hc; cbn [bind]; try discriminate.
  intros [= <-] Hx.
  destruct (collect_member _ _ _ _ Hc Hx) as (entry & ra & Hentry & Hra & Hx').
  destruct (search_file_result _ _ _ _ _ Hra Hx') as (bt & name & [= -> -> ->] & Hraw & Hl).
  exists (snd entry). by destruct entry.
Qed.

Lemma data_get_entry (k : str) (v : value) (d : data) (default : value) :
  NoDup (map fst d) -> (k, v) ∈ d -> data_get k d default = v.
Proof.
  induction d as [|[k' v'] d IH]; intros Hnd Hin; [by apply elem_of_nil in Hin|].
  cbn [map fst] in Hnd. apply NoDup_cons in Hnd as [Hk' Hnd].
  apply elem_of_cons in Hin as [[= -> ->]|Hin]; cbn [data_get].
  - by rewrite eqb_refl.
  - rewrite eqb_neq; [by apply IH|].
    intros ->. apply Hk'. apply list_elem_of_fmap. by exists (k', v).
Qed.

Lemma index_of_member (x : str) (l : list str) :
  x ∈ l -> exists i, index_of x l = Some (Z.of_nat i) /\ l !! i = Some x.
Proof.
  induction l as [|y l IH]; intros Hin; [by apply elem_of_nil in Hin|].
  cbn [index_of]. destruct (Py.eqb x y) eqn:Heq.
  - apply eqb_eq in Heq as ->. by exists 0.
  - apply elem_of_cons in Hin as [->|Hin]; [by rewrite eqb_refl in Heq|].
    destruct (IH Hin) as (i & -> & Hi). exists (S i). split; [f_equal; lia | exact Hi].
Qed.

Lemma py_item_nat {A : Type} (l : list A) (i : nat) (x : A) :
  l !! i = Some x -> py_item l (Z.of_nat i) = Ret x.
Proof.
  intros Hi. unfold py_item. destruct (Z.ltb_spec (Z.of_nat i) 0); [lia|].
  destruct (Z.ltb_spec (Z.of_nat i) 0); [lia|]. by rewrite Nat2Z.id, Hi.
Qed.

Lemma listed_file (terraform_data : data) (file_name : str) (file_content : value) :
  (file_name, file_content) ∈ terraform_data ->
  endswith (lit "_raw") file_name = false ->
  file_name ∈ file_names terraform_data.
Proof.
  intros Hin Hraw. unfold file_names. apply list_elem_of_In, filter_In. split.
  - apply list_elem_of_In, list_elem_of_fmap. by exists (file_name, file_content).
  - by rewrite Hraw.
Qed.

(** X21.  In the file view, after a search that found something, the file
    and the block of the first result are selected and the block column is
    active: the result names a file of the file column and a block of that
    file, so the jump always finds both. *)
Theorem search_selects_first_result (height width : Z) (parsed : data)
    (workspace_result : bool) (on_save on_edit : ui -> outcome ui)
    (typed : str) (st : ui) (file_name : str) (block_type block_name : key)
    (rest : list result) :
  NoDup (map fst (terraform_data st)) ->
  view st = 1%Z ->
  prompt_for_search typed (terraform_data st)
  = Ret (Some ((file_name, block_type, block_name) :: rest)) ->
  truthy block_type = true -> truthy block_name = true ->
  exists st',
    on_key height width parsed (prompt_for_search typed (terraform_data st))
      workspace_result on_save on_edit (ord "/") st = Ret (Some st')
    /\ py_item (file_names (terraform_data st')) (selected_index st') = Ret file_name
    /\ py_item (blocks_again st') (selected_block_index st')
       = Ret (label block_type block_name)
    /\ active_column st' = 1%Z
    /\ view st' = 1%Z.
Proof.
  intros Hnd Hview Hprompt Htype Hname.
  destruct (prompt_for_search_result typed (terraform_data st) _ file_name block_type
              block_name Hprompt ltac:(left)) as (file_content & Hentry & Hraw & Hlabel).
  pose proof (listed_file _ _ _ Hentry Hraw) as Hfile.
  destruct (index_of_member _ _ Hfile) as (i & Hi & Hlook).
  pose proof (data_get_entry file_name file_content (terraform_data st) (VDict []) Hnd Hentry)
    as Hget.
  destruct (index_of_member _ _ Hlabel) as (j & Hj & Hlook').
  unfold on_key.
  change (ord "/" =? ord "q")%Z with false. change (ord "/" =? ord "!")%Z with false.
  change (ord "/" =? ord "@")%Z with false. change (ord "/" =? ord "#")%Z with false.
  change (ord "/" =? ord "R")%Z with false. change (ord "/" =? ord "W")%Z with false.
  change (ord "/" =? ord "h")%Z with false. change (ord "/" =? ord "/")%Z with true.
  cbv iota. unfold search_key. rewrite Hprompt. cbn [bind]. rewrite Hview.
  cbn [Z.eqb Pos.eqb bind]. eexists. split; [reflexivity|].
  unfold jump. rewrite Hi, Hget, Htype, Hname. cbn [andb]. rewrite Hj.
  cbn [default]. unfold blocks_again.
  cbn [terraform_data selected_index selected_block_index active_column view].
  split; [by apply py_item_nat|]. split; [|by split].
  assert (Hlen : (Z.of_nat i < len (file_names (terraform_data st)))%Z).
  { apply lookup_lt_Some in Hlook. unfold len. lia. }
  destruct (Z.leb_spec 0 (Z.of_nat i)); [|lia].
  destruct (Z.ltb_spec (Z.of_nat i) (len (file_names (terraform_data st)))); [|lia].
  cbn [andb]. rewrite Nat2Z.id, Hlook, Hget. by apply py_item_nat.
Qed.

Lemma search_selects_first_result_witness :
  exists st',
    on_key 30 100 [] (prompt_for_search (lit " Region ") (terraform_data Sample5.start))
      false Sample3.no_save Sample3.no_save (ord "/") Sample5.start = Ret (Some st')
    /\ py_item (file_names (terraform_data st')) (selected_index st') = Ret (lit "main.tf")
    /\ py_item (blocks_again st') (selected_block_index st')
       = Ret (label (KStr (lit "variable")) (KStr (lit "region")))
    /\ active_column st' = 1%Z
    /\ view st' = 1%Z.
Proof.
  apply (search_selects_first_result 30 100 [] false Sample3.no_save Sample3.no_save
           (lit " Region ") Sample5.start (lit "main.tf")
           (KStr (lit "variable")) (KStr (lit "region")) []).
  - repeat (constructor; [intros Hin; apply list_elem_of_In in Hin; vm_compute in Hin;
                          intuition discriminate|]).
    constructor.
  - reflexivity.
  - vm_compute. reflexivity.
  - reflexivity.
  - reflexivity.
Defined.
